(** * bg_setenv / bg_printenv: the environment tool of EFI Boot Guard

    A shallow embedding of [tools/bg_setenv.c] and the properties of its
    partial-update protocol: the option parser [parse_opt], the merge
    [update_environment] and the driver [main].

    Conventions of the embedding.
    - Fixed-width C integers are values of [Z]; every conversion between
      widths is written out ([to_int], [to_uint8], [to_uint32], ...).
      The data model is LP64 little-endian: [int] has 32 bits, [long] 64.
    - A [char *] that is not NULL is the [string] of the characters before
      its terminator; a possibly-NULL one is an [option string].
    - A struct is a record; a memory operation that works on the bytes of a
      struct ([memset], [memcpy], [crc32], [fwrite]) goes through the packed
      byte image [bytes_of] / [of_bytes] of the record.
    - The calls into the environment library (the bgenv functions) and into stdio are
      steps of a small state-and-exit monad over a [world] that records
      every call in a trace. *)

From Stdlib Require Import ZArith List String Ascii Bool Lia.
Import ListNotations.
Local Open Scope Z_scope.

(** ** Integer types *)

Definition to_uint8 (z : Z) : Z := z mod 2 ^ 8.
Definition to_uint32 (z : Z) : Z := z mod 2 ^ 32.
(** Conversion to [int]: wrap-around into [-2^31, 2^31). *)
Definition to_int (z : Z) : Z := (z + 2 ^ 31) mod 2 ^ 32 - 2 ^ 31.

Definition LONG_MAX : Z := 2 ^ 63 - 1.
Definition LONG_MIN : Z := - 2 ^ 63.
Definition ERANGE : Z := 34.

(** ** <ctype.h>, <string.h>, <stdlib.h> *)

Definition char_code (c : ascii) : Z := Z.of_nat (nat_of_ascii c).

Definition isspace (c : ascii) : bool :=
  let n := char_code c in (n =? 32) || ((9 <=? n) && (n <=? 13)).

Definition isdigit (c : ascii) : bool :=
  let n := char_code c in (48 <=? n) && (n <=? 57).

Definition tolower (c : ascii) : Z :=
  let n := char_code c in
  if (65 <=? n) && (n <=? 90) then n + 32 else n.

Definition strlen (s : string) : nat := String.length s.

(** [strncasecmp s1 s2 n]: compares at most [n] characters ignoring case;
    the end of a string is its terminator, character 0. *)
Fixpoint strncasecmp (s1 s2 : string) (n : nat) : Z :=
  match n with
  | O => 0
  | S n' =>
      match s1, s2 with
      | EmptyString, EmptyString => 0
      | EmptyString, String c2 _ => 0 - tolower c2
      | String c1 _, EmptyString => tolower c1
      | String c1 r1, String c2 r2 =>
          if tolower c1 =? tolower c2 then strncasecmp r1 r2 n'
          else tolower c1 - tolower c2
      end
  end.

(** [strstr haystack needle] as a truth value (the result pointer is only
    tested against NULL). *)
Fixpoint strstr (haystack needle : string) : bool :=
  String.prefix needle haystack ||
  match haystack with
  | EmptyString => false
  | String _ rest => strstr rest needle
  end.

Fixpoint skip_spaces (s : string) : string :=
  match s with
  | String c r => if isspace c then skip_spaces r else s
  | EmptyString => s
  end.

(** Digits of a decimal number: the accumulated value and whether at least
    one digit was read. *)
Fixpoint read_digits (s : string) (acc : Z) (any : bool) : Z * bool :=
  match s with
  | String c r =>
      if isdigit c then read_digits r (10 * acc + (char_code c - 48)) true
      else (acc, any)
  | EmptyString => (acc, any)
  end.

(** The result of [strtol (nptr, &endptr, 10)]: the value, whether
    [endptr != nptr] (a number was converted), and whether the value was
    out of the range of [long] (errno is then set to ERANGE). *)
Record strtol_result : Type := mk_strtol {
  strtol_value : Z;
  strtol_converted : bool;
  strtol_erange : bool
}.

Definition strtol (nptr : string) : strtol_result :=
  let s := skip_spaces nptr in
  let '(neg, digits) :=
    match s with
    | String "-"%char r => (true, r)
    | String "+"%char r => (false, r)
    | _ => (false, s)
    end in
  let '(v, any) := read_digits digits 0 false in
  if negb any then mk_strtol 0 false false
  else
    let v := if neg then - v else v in
    if LONG_MAX <? v then mk_strtol LONG_MAX true true
    else if v <? LONG_MIN then mk_strtol LONG_MIN true true
    else mk_strtol v true false.

(** errno after a call of [strtol]: set on a range error, otherwise left
    as it was. *)
Definition strtol_errno (r : strtol_result) (errno : Z) : Z :=
  if strtol_erange r then ERANGE else errno.

(** [atoi] is [(int) strtol (nptr, NULL, 10)]. *)
Definition atoi (nptr : string) : Z := to_int (strtol_value (strtol nptr)).

(** ** zlib *)

Module zlib.

Definition crc32_bit (c : Z) : Z :=
  if Z.testbit c 0 then Z.lxor (Z.shiftr c 1) 0xEDB88320 else Z.shiftr c 1.

Definition crc32_byte (c b : Z) : Z :=
  let c := Z.lxor c b in
  crc32_bit (crc32_bit (crc32_bit (crc32_bit
    (crc32_bit (crc32_bit (crc32_bit (crc32_bit c))))))).

(** [crc32 (crc, buf, len)] with [buf] the list of the [len] bytes. *)
Definition crc32 (crc : Z) (buf : list Z) : Z :=
  Z.lxor (fold_left crc32_byte buf (Z.lxor crc 0xFFFFFFFF)) 0xFFFFFFFF.

End zlib.

(** ** env_api.h *)

(** Modelled from the spec: the header env_api.h is not among the sources.
    Its three configuration constants are parameters of the development:
    the capacity of the two text fields in characters, the number of
    redundant slots ("K fixed, e.g. 2") and the "fixed environment file
    name". *)
Class env_api_h : Type := {
  ENV_STRING_LENGTH : nat;
  ENV_NUM_CONFIG_PARTS : nat;
  FAT_ENV_FILENAME : string
}.

(** Modelled from the spec: the update states of env_api.h, "OK=0",
    INSTALLED 1, TESTING 2, FAILED 3, "UNKNOWN=4"; the bounds of the enum
    are its first and its last code. *)
Definition USTATE_OK : Z := 0.
Definition USTATE_INSTALLED : Z := 1.
Definition USTATE_TESTING : Z := 2.
Definition USTATE_FAILED : Z := 3.
Definition USTATE_UNKNOWN : Z := 4.
Definition USTATE_MIN : Z := 0.
Definition USTATE_MAX : Z := 4.

(** Modelled from the spec: the struct BG_ENVDATA of env_api.h, "fixed field
    order and width (text fields at fixed byte capacity, enum and integers
    at fixed width, integrity value trailing)".  The text fields are arrays
    of [ENV_STRING_LENGTH] 16-bit code units, [ustate] is one byte (the
    source reads and writes it as a uint8_t), the three counters are
    unsigned 32-bit. *)
Record BG_ENVDATA : Type := mk_BG_ENVDATA {
  kernelfile : list Z;
  kernelparams : list Z;
  ustate : Z;
  revision : Z;
  watchdog_timeout_sec : Z;
  crc32 : Z
}.

Definition set_kernelfile (e : BG_ENVDATA) (v : list Z) : BG_ENVDATA :=
  mk_BG_ENVDATA v (kernelparams e) (ustate e) (revision e)
    (watchdog_timeout_sec e) (crc32 e).
Definition set_kernelparams (e : BG_ENVDATA) (v : list Z) : BG_ENVDATA :=
  mk_BG_ENVDATA (kernelfile e) v (ustate e) (revision e)
    (watchdog_timeout_sec e) (crc32 e).
Definition set_ustate (e : BG_ENVDATA) (v : Z) : BG_ENVDATA :=
  mk_BG_ENVDATA (kernelfile e) (kernelparams e) v (revision e)
    (watchdog_timeout_sec e) (crc32 e).
Definition set_revision (e : BG_ENVDATA) (v : Z) : BG_ENVDATA :=
  mk_BG_ENVDATA (kernelfile e) (kernelparams e) (ustate e) v
    (watchdog_timeout_sec e) (crc32 e).
Definition set_watchdog_timeout_sec (e : BG_ENVDATA) (v : Z) : BG_ENVDATA :=
  mk_BG_ENVDATA (kernelfile e) (kernelparams e) (ustate e) (revision e)
    v (crc32 e).
Definition set_crc32 (e : BG_ENVDATA) (v : Z) : BG_ENVDATA :=
  mk_BG_ENVDATA (kernelfile e) (kernelparams e) (ustate e) (revision e)
    (watchdog_timeout_sec e) v.

(** *** The byte image of the struct *)

Definition le16 (u : Z) : list Z := [u mod 256; (u / 256) mod 256].
Definition le32 (u : Z) : list Z :=
  [u mod 256; (u / 256) mod 256; (u / 65536) mod 256; (u / 16777216) mod 256].

(** The bytes the CRC covers: every field before [crc32]. *)
Definition payload_bytes (e : BG_ENVDATA) : list Z :=
  flat_map le16 (kernelfile e) ++ flat_map le16 (kernelparams e) ++
  [ustate e mod 256] ++ le32 (revision e) ++ le32 (watchdog_timeout_sec e).

Definition bytes_of (e : BG_ENVDATA) : list Z :=
  payload_bytes e ++ le32 (crc32 e).

Definition read8 (l : list Z) (off : nat) : Z := nth off l 0.
Definition read16 (l : list Z) (off : nat) : Z :=
  read8 l off + 256 * read8 l (off + 1).
Definition read32 (l : list Z) (off : nat) : Z :=
  read8 l off + 256 * read8 l (off + 1) + 65536 * read8 l (off + 2) +
  16777216 * read8 l (off + 3).

Section Layout.
Context `{H : env_api_h}.

Definition offsetof_kernelfile : nat := 0.
Definition offsetof_kernelparams : nat := 2 * ENV_STRING_LENGTH.
Definition offsetof_ustate : nat := 4 * ENV_STRING_LENGTH.
Definition offsetof_revision : nat := 4 * ENV_STRING_LENGTH + 1.
Definition offsetof_watchdog_timeout_sec : nat := 4 * ENV_STRING_LENGTH + 5.
Definition offsetof_crc32 : nat := 4 * ENV_STRING_LENGTH + 9.
Definition sizeof_BG_ENVDATA : nat := 4 * ENV_STRING_LENGTH + 13.

Definition read_units (l : list Z) (off : nat) : list Z :=
  map (fun i => read16 l (off + 2 * i)) (seq 0 ENV_STRING_LENGTH).

Definition of_bytes (l : list Z) : BG_ENVDATA :=
  {| kernelfile := read_units l offsetof_kernelfile;
     kernelparams := read_units l offsetof_kernelparams;
     ustate := read8 l offsetof_ustate;
     revision := read32 l offsetof_revision;
     watchdog_timeout_sec := read32 l offsetof_watchdog_timeout_sec;
     crc32 := read32 l offsetof_crc32 |}.

(** [memset (&e, c, sizeof (BG_ENVDATA))]. *)
Definition memset_BG_ENVDATA (c : Z) : BG_ENVDATA :=
  of_bytes (repeat (to_uint8 c) sizeof_BG_ENVDATA).

(** [memcpy ((char * ) &e + off, data, length data)]: the bytes of [data]
    replace those of the struct from offset [off] on.  A copy that starts
    in one member and is longer than what is left of it runs into the
    members that follow; what would fall behind the struct is not part of
    the image. *)
Definition poke (l : list Z) (off : nat) (data : list Z) : list Z :=
  map (fun i =>
         if ((off <=? i) && (i <? off + List.length data))%nat
         then nth (i - off) data 0 else nth i l 0)
      (seq 0 sizeof_BG_ENVDATA).

Definition memcpy_into (e : BG_ENVDATA) (off : nat) (data : list Z)
  : BG_ENVDATA :=
  of_bytes (poke (bytes_of e) off data).

End Layout.

(** Modelled from the spec: [str8to16] of the environment library, one of
    the "text encoding conversion helpers": every character widened to a
    16-bit code unit, followed by the terminator. *)
Definition str8to16 (s : string) : list Z :=
  map char_code (list_ascii_of_string s) ++ [0].

(** ** bg_setenv.c: option parsing *)

(** [struct arguments]. *)
Record arguments : Type := mk_arguments {
  output_to_file : bool;
  which_part : Z;
  tmpdata : BG_ENVDATA
}.

(** The file-scope variables of bg_setenv.c, and [errno]. *)
Record globals : Type := mk_globals {
  auto_update : bool;
  part_specified : bool;
  verbosity : bool;
  envfilepath : option string;
  errno : Z
}.

Definition set_tmpdata (a : arguments) (d : BG_ENVDATA) : arguments :=
  mk_arguments (output_to_file a) (which_part a) d.
Definition set_errno (g : globals) (e : Z) : globals :=
  mk_globals (auto_update g) (part_specified g) (verbosity g)
    (envfilepath g) e.

Definition IGNORE_MARKER_BYTE : Z := 0xEA.

Definition ustatemap : list string :=
  ["OK"; "INSTALLED"; "TESTING"; "FAILED"; "UNKNOWN"]%string.

Definition ustatemap_at (i : Z) : string := nth (Z.to_nat i) ustatemap ""%string.

(** The loop of [str2ustate], [n] iterations left before [i] reaches
    [USTATE_MAX]. *)
Fixpoint str2ustate_from (str : string) (i : Z) (n : nat) : Z :=
  match n with
  | O => USTATE_UNKNOWN
  | S n' =>
      if strncasecmp str (ustatemap_at i) (strlen (ustatemap_at i)) =? 0
      then to_uint8 i
      else str2ustate_from str (i + 1) n'
  end.

Definition str2ustate (str : option string) : Z :=
  match str with
  | None => USTATE_UNKNOWN
  | Some s => str2ustate_from s USTATE_MIN (Z.to_nat (USTATE_MAX - USTATE_MIN))
  end.

(** [ustate2str] has no return statement for a code out of range: [None]. *)
Definition ustate2str (ustate : Z) : option string :=
  if (USTATE_MIN <=? ustate) && (ustate <=? USTATE_MAX)
  then Some (ustatemap_at ustate) else None.

(** The keys [parse_opt] is called with: an option of the command line by
    its short name, a positional argument, or one of argp's bookkeeping
    keys (ARGP_KEY_INIT, ARGP_KEY_END, ...). *)
Inductive argp_key : Type :=
| KEY (c : ascii)
| ARGP_KEY_ARG
| ARGP_KEY_SPECIAL.

(** How a call of [parse_opt] ends: it returns an error code, or
    [argp_usage] terminates the process. *)
Inductive outcome : Type :=
| Returns (e : Z)
| Exits (status : Z).

Definition ARGP_ERR_UNKNOWN : Z := 7.
Definition argp_err_exit_status : Z := 64.

(** The test that follows [i = strtol (arg, &tmp, 10)], with [i] an int. *)
Definition strtol_failed (r : strtol_result) (i errno : Z) : bool :=
  ((errno =? ERANGE) && ((i =? LONG_MAX) || (i =? LONG_MIN)))
  || (negb (errno =? 0) && (i =? 0))
  || negb (strtol_converted r).

Section Parse.
Context `{H : env_api_h}.

(** [parse_opt (key, arg, state)] on the pair of [*state->input] and the
    file-scope variables.  The cases 'k' and 'a' copy the converted text and
    its terminator, [strlen (arg) * 2 + 2] bytes, to the start of the field;
    the conversion buffer is a local array and is not modelled.  Messages
    are not modelled. *)
Definition parse_opt (key : argp_key) (arg : string)
    (st : arguments * globals) : outcome * (arguments * globals) :=
  let '(a, g) := st in
  match key with
  | KEY "k" =>
      if (ENV_STRING_LENGTH <? strlen arg)%nat then (Returns 1, st)
      else
        let src := firstn (strlen arg * 2 + 2) (flat_map le16 (str8to16 arg)) in
        (Returns 0,
         (set_tmpdata a (memcpy_into (tmpdata a) offsetof_kernelfile src), g))
  | KEY "a" =>
      if (ENV_STRING_LENGTH <? strlen arg)%nat then (Returns 1, st)
      else
        let src := firstn (strlen arg * 2 + 2) (flat_map le16 (str8to16 arg)) in
        (Returns 0,
         (set_tmpdata a (memcpy_into (tmpdata a) offsetof_kernelparams src), g))
  | KEY "p" =>
      let r := strtol arg in
      let i := to_int (strtol_value r) in
      let g := set_errno g (strtol_errno r (errno g)) in
      if strtol_failed r i (errno g) then (Returns 1, (a, g))
      else if (i =? 0) || (i =? 1) then
        (Returns 0,
         (mk_arguments (output_to_file a) i (tmpdata a),
          mk_globals (auto_update g) true (verbosity g) (envfilepath g)
            (errno g)))
      else (Returns 1, (a, g))
  | KEY "s" =>
      let r := strtol arg in
      let i := to_int (strtol_value r) in
      let g := set_errno g (strtol_errno r (errno g)) in
      let parsed :=
        if strtol_failed r i (errno g) then
          let i := str2ustate (Some arg) in
          if i =? USTATE_UNKNOWN then None else Some i
        else Some i in
      match parsed with
      | None => (Returns 1, (a, g))
      | Some i =>
          if (i <? 0) || (3 <? i) then (Returns 1, (a, g))
          else (Returns 0, (set_tmpdata a (set_ustate (tmpdata a) (to_uint8 i)), g))
      end
  | KEY "r" =>
      let i := atoi arg in
      let g := set_errno g (strtol_errno (strtol arg) (errno g)) in
      (Returns 0, (set_tmpdata a (set_revision (tmpdata a) (to_uint32 i)), g))
  | KEY "w" =>
      let i := atoi arg in
      let g := set_errno g (strtol_errno (strtol arg) (errno g)) in
      if negb (i =? 0) then
        (Returns 0,
         (set_tmpdata a (set_watchdog_timeout_sec (tmpdata a) (to_uint32 i)), g))
      else (Returns 1, (a, g))
  | KEY "f" =>
      (Returns 0,
       (mk_arguments true (which_part a) (tmpdata a),
        mk_globals (auto_update g) (part_specified g) (verbosity g)
          (Some (arg ++ "/" ++ FAT_ENV_FILENAME)%string) (errno g)))
  | KEY "c" =>
      (Returns 0, (set_tmpdata a (set_ustate (tmpdata a) 0), g))
  | KEY "u" =>
      if part_specified g then (Returns 1, st)
      else
        (Returns 0,
         (a, mk_globals true (part_specified g) (verbosity g) (envfilepath g)
               (errno g)))
  | KEY "v" =>
      (Returns 0,
       (a, mk_globals (auto_update g) (part_specified g) true (envfilepath g)
             (errno g)))
  | ARGP_KEY_ARG => (Exits argp_err_exit_status, st)
  | _ => (Returns ARGP_ERR_UNKNOWN, st)
  end.

End Parse.

(** One item of the command line: an option by its short name with its
    argument (the empty string for an option that takes none; --help is
    -?; a long name, in full or abbreviated, is the option of its short
    name), the option --usage, which has no short name, a positional
    argument, or one of the two hidden options every argp parser has,
    --program-name=NAME and --HANG[=SECS].  An option argp itself refuses,
    unknown or without the argument it needs, is an [Opt] whose name is not
    in the table. *)
Inductive cmdline_item : Type :=
| Opt (c : ascii) (arg : string)
| OptUsage
| Positional (arg : string)
| OptProgramName (name : string)
| OptHang (secs : option string).

Definition options_setenv : list ascii :=
  ["k"; "a"; "p"; "r"; "s"; "f"; "w"; "c"; "u"; "v"]%char.
Definition options_printenv : list ascii := ["v"]%char.

Definition has_option (options : list ascii) (c : ascii) : bool :=
  existsb (Ascii.eqb c) options.

Section Argp.
Context `{H : env_api_h}.

(** One item of the command line handed to the parser.  The options -?
    and --usage belong to argp itself: it prints the help and ends the
    process with status 0.  An option that is not in the table ends the
    process with the usage status.  The hidden options belong to argp too
    and [parse_opt] is not called for them: --program-name sets the name
    argp uses in its messages, --HANG sleeps for [atoi (SECS)] seconds,
    3600 without an argument, and the parse goes on; of the two only the
    [atoi] shows in the state, through [errno]. *)
Definition deliver (options : list ascii) (item : cmdline_item)
    (st : arguments * globals) : outcome * (arguments * globals) :=
  match item with
  | Opt c arg =>
      if Ascii.eqb c "?" then (Exits 0, st)
      else if has_option options c then parse_opt (KEY c) arg st
      else (Exits argp_err_exit_status, st)
  | OptUsage => (Exits 0, st)
  | Positional arg => parse_opt ARGP_KEY_ARG arg st
  | OptProgramName _ => (Returns 0, st)
  | OptHang secs =>
      let arg := match secs with Some s => s | None => "3600"%string end in
      (Returns 0,
       (fst st, set_errno (snd st) (strtol_errno (strtol arg) (errno (snd st)))))
  end.

(** The items are handed over in order; the first call that does not
    return 0 ends the parse and is its result. *)
Fixpoint parse_options (options : list ascii) (items : list cmdline_item)
    (st : arguments * globals) : outcome * (arguments * globals) :=
  match items with
  | [] => (Returns 0, st)
  | item :: rest =>
      match deliver options item st with
      | (Returns 0, st') => parse_options options rest st'
      | stopped => stopped
      end
  end.

Definition is_option (item : cmdline_item) : bool :=
  match item with
  | Positional _ => false
  | _ => true
  end.

(** glibc's [argp_parse (argp, argc, argv, 0, 0, &arguments)] for a parser
    with the option table [options]: the options of the command line are
    handed to [parse_opt] in their order, and after them the positional
    arguments.  The bookkeeping calls (ARGP_KEY_INIT, ARGP_KEY_END, ...)
    fall into the default case of [parse_opt] and change nothing. *)
Definition argp_parse (options : list ascii) (cmdline : list cmdline_item)
    (st : arguments * globals) : outcome * (arguments * globals) :=
  match parse_options options (filter is_option cmdline) st with
  | (Returns 0, st') =>
      parse_options options
        (filter (fun item => negb (is_option item)) cmdline) st'
  | stopped => stopped
  end.

End Argp.

(** ** bg_setenv.c: the merge *)

Section Merge.
Context `{H : env_api_h}.

(** [update_environment (dest, src)]: the result is what [*dest] holds
    afterwards. *)
Definition update_environment (dest src : option BG_ENVDATA)
  : option BG_ENVDATA :=
  match dest, src with
  | Some d, Some s =>
      let d :=
        if negb (to_uint8 (nth 0 (kernelfile s) 0) =? IGNORE_MARKER_BYTE)
        then set_kernelfile d (kernelfile s) else d in
      let d :=
        if negb (to_uint8 (nth 0 (kernelparams s) 0) =? IGNORE_MARKER_BYTE)
        then set_kernelparams d (kernelparams s) else d in
      let d :=
        if negb (to_uint8 (ustate s) =? IGNORE_MARKER_BYTE)
        then set_ustate d (ustate s) else d in
      let d :=
        if negb (to_uint8 (revision s) =? IGNORE_MARKER_BYTE)
        then set_revision d (revision s) else d in
      let d :=
        if negb (to_uint8 (watchdog_timeout_sec s) =? IGNORE_MARKER_BYTE)
        then set_watchdog_timeout_sec d (watchdog_timeout_sec s) else d in
      Some (set_crc32 d
              (zlib.crc32 0 (firstn (sizeof_BG_ENVDATA - 4) (bytes_of d))))
  | _, _ => dest
  end.

(** What the object [dest] holds after
    [update_environment (&dest, &src)]. *)
Definition merged (dest src : BG_ENVDATA) : BG_ENVDATA :=
  match update_environment (Some dest) (Some src) with
  | Some d => d
  | None => dest
  end.

End Merge.

(** ** The environment library and stdio *)

(** A handle on an opened slot: the index of its config partition and its
    record, which the caller may change while the slot is open. *)
Record BGENV : Type := mk_BGENV {
  desc : nat;
  data : BG_ENVDATA
}.

Inductive event : Type :=
| call_bgenv_init
| call_bgenv_get_by_index (i : Z)
| call_bgenv_get_latest
| call_bgenv_get_oldest
| call_bgenv_write (env : BGENV)
| call_bgenv_close (env : BGENV)
| call_dump_env (env : BG_ENVDATA)
| call_fopen (path : option string)
| call_fwrite (bytes : list Z)
| call_fclose.

(** What the process runs against: the slots (a slot that cannot be read
    is [None]), whether the calls of the store and of stdio succeed, and the
    calls made so far, oldest first. *)
Record world : Type := mk_world {
  bgenv_init_ok : bool;
  config_parts : list (option BG_ENVDATA);
  bgenv_write_ok : bool;
  bgenv_close_ok : bool;
  fopen_ok : bool;
  fwrite_errno : option Z;
  fclose_ok : bool;
  trace : list event
}.

Definition log (ev : event) (w : world) : world :=
  mk_world (bgenv_init_ok w) (config_parts w) (bgenv_write_ok w)
    (bgenv_close_ok w) (fopen_ok w) (fwrite_errno w) (fclose_ok w)
    (trace w ++ [ev]).

Definition set_config_parts (w : world) (ps : list (option BG_ENVDATA))
  : world :=
  mk_world (bgenv_init_ok w) ps (bgenv_write_ok w) (bgenv_close_ok w)
    (fopen_ok w) (fwrite_errno w) (fclose_ok w) (trace w).

(** The calls that touch the redundant slot store. *)
Definition is_store_call (ev : event) : bool :=
  match ev with
  | call_bgenv_init | call_bgenv_get_by_index _ | call_bgenv_get_latest
  | call_bgenv_get_oldest | call_bgenv_write _ | call_bgenv_close _ => true
  | _ => false
  end.

(** Steps of [main]: a step continues with a value or leaves [main] with
    an exit code. *)
Inductive step (A : Type) : Type :=
| Continue (a : A)
| Return_main (code : Z).
Arguments Continue {A} a.
Arguments Return_main {A} code.

Definition prog (A : Type) : Type := world -> step A * world.

Definition ret {A : Type} (a : A) : prog A := fun w => (Continue a, w).
Definition return_main {A : Type} (code : Z) : prog A :=
  fun w => (Return_main code, w).
Definition bind {A B : Type} (m : prog A) (k : A -> prog B) : prog B :=
  fun w =>
    match m w with
    | (Continue a, w') => k a w'
    | (Return_main code, w') => (Return_main code, w')
    end.

Notation "x <- m ;; k" := (bind m (fun x => k))
  (at level 61, m at next level, right associativity).
Notation "m ;;; k" := (bind m (fun _ => k))
  (at level 61, right associativity).

Definition when (b : bool) (m : prog unit) : prog unit :=
  if b then m else ret tt.

(** Modelled from the spec: the Store Adapter, that is the functions
    bgenv_init, bgenv_get_by_index, bgenv_get_latest, bgenv_get_oldest,
    bgenv_write and bgenv_close of the environment library.  "Latest: the
    slot with the maximum revision value.  Ties resolve to the lowest slot
    index"; "Oldest: the slot with the minimum revision value, including
    zero"; a query fails when no slot is readable; a handle carries its own
    copy of the record; a successful write stores the record of the handle
    in its slot. *)
Fixpoint select_slot (better : Z -> Z -> bool)
    (ps : list (option BG_ENVDATA)) (i : nat) (best : option BGENV)
  : option BGENV :=
  match ps with
  | [] => best
  | p :: rest =>
      let best' :=
        match p, best with
        | Some d, None => Some (mk_BGENV i d)
        | Some d, Some b =>
            if better (revision d) (revision (data b))
            then Some (mk_BGENV i d) else best
        | None, _ => best
        end in
      select_slot better rest (S i) best'
  end.

Definition latest_slot (ps : list (option BG_ENVDATA)) : option BGENV :=
  select_slot (fun r rbest => rbest <? r) ps 0%nat None.
Definition oldest_slot (ps : list (option BG_ENVDATA)) : option BGENV :=
  select_slot (fun r rbest => r <? rbest) ps 0%nat None.

Fixpoint replace_nth {A : Type} (i : nat) (x : A) (l : list A) : list A :=
  match l, i with
  | [], _ => []
  | _ :: r, O => x :: r
  | y :: r, S i' => y :: replace_nth i' x r
  end.

Definition bgenv_init : prog bool :=
  fun w => (Continue (bgenv_init_ok w), log call_bgenv_init w).

Definition bgenv_get_by_index (i : Z) : prog (option BGENV) :=
  fun w =>
    let env :=
      if i <? 0 then None
      else match nth_error (config_parts w) (Z.to_nat i) with
           | Some (Some d) => Some (mk_BGENV (Z.to_nat i) d)
           | _ => None
           end in
    (Continue env, log (call_bgenv_get_by_index i) w).

Definition bgenv_get_latest : prog (option BGENV) :=
  fun w => (Continue (latest_slot (config_parts w)), log call_bgenv_get_latest w).

Definition bgenv_get_oldest : prog (option BGENV) :=
  fun w => (Continue (oldest_slot (config_parts w)), log call_bgenv_get_oldest w).

Definition bgenv_write (env : BGENV) : prog bool :=
  fun w =>
    let w := log (call_bgenv_write env) w in
    if bgenv_write_ok w
    then (Continue true,
          set_config_parts w
            (replace_nth (desc env) (Some (data env)) (config_parts w)))
    else (Continue false, w).

Definition bgenv_close (env : BGENV) : prog bool :=
  fun w => (Continue (bgenv_close_ok w), log (call_bgenv_close env) w).

(** stdio on the output file: [fopen (path, "wb")] as whether it gave a
    stream, [fwrite] of one object as the errno of its failure, if any,
    [fclose] as whether it succeeded. *)
Definition fopen (path : option string) : prog bool :=
  fun w => (Continue (fopen_ok w), log (call_fopen path) w).
Definition fwrite (bytes : list Z) : prog (option Z) :=
  fun w => (Continue (fwrite_errno w), log (call_fwrite bytes) w).
Definition fclose : prog bool :=
  fun w => (Continue (fclose_ok w), log call_fclose w).

(** Modelled from the spec: [str16to8] of the environment library, the
    other of the "text encoding conversion helpers": the code units before
    the terminator, the first unit that is zero, narrowed to characters.
    [None] when the field has no terminator: the conversion then reads on
    behind the field and writes more characters than the buffer of
    [dump_env], of [ENV_STRING_LENGTH] characters, holds. *)
Fixpoint str16to8 (src : list Z) : option (list Z) :=
  match src with
  | [] => None
  | u :: rest =>
      if u mod 2 ^ 16 =? 0 then Some []
      else option_map (cons (to_uint8 u)) (str16to8 rest)
  end.

(** A record [dump_env] can print: both texts have their terminator inside
    the field and [ustate2str] returns a name for the update state. *)
Definition printable (env : BG_ENVDATA) : bool :=
  match str16to8 (kernelfile env), str16to8 (kernelparams env),
        ustate2str (to_uint8 (ustate env)) with
  | Some _, Some _, Some _ => true
  | _, _, _ => false
  end.

(** The status of a process that a signal has ended, as its parent sees
    it. *)
Definition SIGSEGV : Z := 11.
Definition killed : Z := 128 + SIGSEGV.

(** [dump_env] prints the fields of a record; the call is recorded with the
    record it is given.  For a record that is not [printable] the
    behaviour of the call is undefined (a buffer overrun, or the use of a
    value [ustate2str] does not return): the process does not get past it,
    and the run ends there, [killed].  Other output to stdout and stderr
    is not modelled. *)
Definition dump_env (env : BG_ENVDATA) : prog unit :=
  fun w =>
    if printable env then (Continue tt, log (call_dump_env env) w)
    else (Return_main killed, log (call_dump_env env) w).

(** ** bg_setenv.c: main *)

Section Main.
Context `{H : env_api_h}.

(** The loop over the config partitions: every slot is opened, shown when
    verbose, and closed again. *)
Fixpoint dump_parts (verbose : bool) (indices : list nat) : prog unit :=
  match indices with
  | [] => ret tt
  | i :: rest =>
      env <- bgenv_get_by_index (Z.of_nat i) ;;
      match env with
      | Some e =>
          when verbose (dump_env (data e)) ;;;
          bgenv_close e ;;;
          dump_parts verbose rest
      | None => return_main 1
      end
  end.

(** The slot to write and the staged change, under the auto-update policy:
    the change gets the revision after the latest one, and the record of
    the latest slot is copied into the buffer of the oldest one.  A handle
    of the store always carries a record, so the test for a NULL data
    pointer has no case here. *)
Definition open_auto_update (a : arguments) : prog (arguments * BGENV) :=
  env_current <- bgenv_get_latest ;;
  match env_current with
  | None => return_main 1
  | Some env_current =>
      let a :=
        set_tmpdata a
          (set_revision (tmpdata a)
             (to_uint32 (revision (data env_current) + 1))) in
      env_new <- bgenv_get_oldest ;;
      match env_new with
      | None => return_main 1
      | Some env_new =>
          let env_new := mk_BGENV (desc env_new) (data env_current) in
          bgenv_close env_current ;;;
          ret (a, env_new)
      end
  end.

(** The slot to write when auto-update was not asked for. *)
Definition open_selected (a : arguments) (g : globals)
  : prog (arguments * BGENV) :=
  env_new <- (if part_specified g then bgenv_get_by_index (which_part a)
              else bgenv_get_latest) ;;
  match env_new with
  | None => return_main 1
  | Some env_new => ret (a, env_new)
  end.

Definition open_slot (a : arguments) (g : globals)
  : prog (arguments * BGENV) :=
  if auto_update g then open_auto_update a else open_selected a g.

Definition write_slot (a : arguments) (g : globals) : prog unit :=
  opened <- open_slot a g ;;
  let '(a, env_new) := opened in
  let env_new :=
    mk_BGENV (desc env_new) (merged (data env_new) (tmpdata a)) in
  when (verbosity g) (dump_env (data env_new)) ;;;
  written <- bgenv_write env_new ;;
  if negb written then return_main 1
  else
    closed <- bgenv_close env_new ;;
    if negb closed then return_main 1 else ret tt.

Definition write_file (a : arguments) (g : globals) : prog Z :=
  let data := memset_BG_ENVDATA 0 in
  let data := merged data (tmpdata a) in
  when (verbosity g) (dump_env data) ;;;
  stream <- fopen (envfilepath g) ;;
  if stream then
    failed <- fwrite (bytes_of data) ;;
    let result := match failed with Some e => e | None => 0 end in
    closed <- fclose ;;
    ret (if closed then result else 1)
  else ret 1.

(** What [main] does once the command line is parsed: the slot store, or
    the output file. *)
Definition after_parse (write_mode : bool) (a : arguments) (g : globals)
  : prog Z :=
  if negb (output_to_file a) then
    initialised <- bgenv_init ;;
    if negb initialised then return_main 1
    else
      dump_parts (verbosity g) (seq 0 ENV_NUM_CONFIG_PARTS) ;;;
      when write_mode (write_slot a g) ;;;
      ret 0
  else write_file a g.

Definition main_prog (argv0 : string) (cmdline : list cmdline_item)
  : prog Z :=
  let write_mode := strstr argv0 "bg_setenv" in
  let options := if write_mode then options_setenv else options_printenv in
  let g := mk_globals false false (negb write_mode) None 0 in
  let a := mk_arguments false 0 (memset_BG_ENVDATA IGNORE_MARKER_BYTE) in
  match argp_parse options cmdline (a, g) with
  | (Exits status, _) => return_main status
  | (Returns e, (a, g)) =>
      if negb (e =? 0) then return_main e
      else after_parse write_mode a g
  end.

(** The exit code of a run and the world it leaves. *)
Definition finish (r : step Z * world) : Z * world :=
  match r with
  | (Continue result, w') => (result, w')
  | (Return_main code, w') => (code, w')
  end.

Definition main (argv0 : string) (cmdline : list cmdline_item) (w : world)
  : Z * world :=
  finish (main_prog argv0 cmdline w).

End Main.

(** ** Vocabulary of the properties *)

Section Vocabulary.
Context `{H : env_api_h}.

(** The representation invariant of a record: its two arrays have the
    declared number of elements. *)
Definition wf_BG_ENVDATA (e : BG_ENVDATA) : Prop :=
  List.length (kernelfile e) = ENV_STRING_LENGTH /\
  List.length (kernelparams e) = ENV_STRING_LENGTH.

Definition wf_world (w : world) : Prop :=
  Forall (fun p => match p with Some d => wf_BG_ENVDATA d | None => True end)
    (config_parts w).

(** The state [main] starts the parse from. *)
Definition all_unset : BG_ENVDATA := memset_BG_ENVDATA IGNORE_MARKER_BYTE.

(** A staged change in which, of the content fields, only the update state
    was set, to [u]; its revision may have been given or not. *)
Definition only_ustate_staged (c : BG_ENVDATA) (u : Z) : Prop :=
  kernelfile c = kernelfile all_unset /\
  kernelparams c = kernelparams all_unset /\
  watchdog_timeout_sec c = watchdog_timeout_sec all_unset /\
  ustate c = u.

Definition initial_state (argv0 : string) : arguments * globals :=
  (mk_arguments false 0 all_unset,
   mk_globals false false (negb (strstr argv0 "bg_setenv")) None 0).

(** The fields of the merged record before its checksum is set. *)
Definition copied (d s : BG_ENVDATA) : BG_ENVDATA :=
  {| kernelfile :=
       if to_uint8 (nth 0 (kernelfile s) 0) =? IGNORE_MARKER_BYTE
       then kernelfile d else kernelfile s;
     kernelparams :=
       if to_uint8 (nth 0 (kernelparams s) 0) =? IGNORE_MARKER_BYTE
       then kernelparams d else kernelparams s;
     ustate :=
       if to_uint8 (ustate s) =? IGNORE_MARKER_BYTE
       then ustate d else ustate s;
     revision :=
       if to_uint8 (revision s) =? IGNORE_MARKER_BYTE
       then revision d else revision s;
     watchdog_timeout_sec :=
       if to_uint8 (watchdog_timeout_sec s) =? IGNORE_MARKER_BYTE
       then watchdog_timeout_sec d else watchdog_timeout_sec s;
     crc32 := crc32 d |}.

Definition options_of (argv0 : string) : list ascii :=
  if strstr argv0 "bg_setenv" then options_setenv else options_printenv.

End Vocabulary.

(** The text the cases 'k' and 'a' copy into the staged change. *)
Definition staged_text (arg : string) : list Z :=
  firstn (strlen arg * 2 + 2) (flat_map le16 (str8to16 arg)).

(** The exit code of a parse that did not succeed. *)
Definition parse_status (out : outcome) : Z :=
  match out with Returns e => e | Exits status => status end.

(** The property [Q] of the merged record, for every slot [main] may open
    and for the record of the output file. *)
Definition merges_to `{H : env_api_h} (Q : BG_ENVDATA -> Prop)
    (a : arguments) (g : globals) (w : world) : Prop :=
  Q (merged (memset_BG_ENVDATA 0) (tmpdata a)) /\
  forall w1 a' env w2,
    config_parts w1 = config_parts w ->
    open_slot a g w1 = (Continue (a', env), w2) ->
    Q (merged (data env) (tmpdata a')).

Definition any_event (ev : event) : Prop := True.

(** The command line asks for the help or the usage text. *)
Definition asks_help (cmdline : list cmdline_item) : bool :=
  existsb (fun item => match item with
                       | Opt c _ => Ascii.eqb c "?"
                       | OptUsage => true
                       | _ => false
                       end) cmdline.

(** The world [w] after the calls [evs], none of which changed a slot. *)
Definition appended (w : world) (evs : list event) : world :=
  mk_world (bgenv_init_ok w) (config_parts w) (bgenv_write_ok w)
    (bgenv_close_ok w) (fopen_ok w) (fwrite_errno w) (fclose_ok w)
    (trace w ++ evs).

(** The text field an option stages: the kernel path for 'k', the kernel
    arguments otherwise. *)
Definition text_field (c : ascii) (e : BG_ENVDATA) : list Z :=
  if Ascii.eqb c "k" then kernelfile e else kernelparams e.

(** The spec's [compute_integrity] and [finalize], in its words: the
    checksum "over all fields except the integrity field itself, in fixed
    field order", and "sets the integrity field to
    compute_integrity(record)". *)
Definition compute_integrity (r : BG_ENVDATA) : Z :=
  zlib.crc32 0 (payload_bytes r).
Definition finalize (r : BG_ENVDATA) : BG_ENVDATA :=
  set_crc32 r (compute_integrity r).

Definition crc_valid (r : BG_ENVDATA) : Prop :=
  crc32 r = compute_integrity r.

(** A run of [m] from [w] that only adds calls satisfying [P] to the
    trace; a program all of whose runs do. *)
Definition traced {A : Type} (P : event -> Prop) (m : prog A) (w : world)
  : Prop :=
  exists evs, trace (snd (m w)) = trace w ++ evs /\ Forall P evs.

Definition emits {A : Type} (P : event -> Prop) (m : prog A) : Prop :=
  forall w, traced P m w.

(** Every record that is handed to the store or to the output file
    satisfies [Q], and with [shown] every record that is displayed. *)
Definition carries (Q : BG_ENVDATA -> Prop) (shown : bool) (ev : event)
  : Prop :=
  match ev with
  | call_bgenv_write env => Q (data env)
  | call_fwrite b => exists d, b = bytes_of d /\ Q d
  | call_dump_env d => if shown then Q d else True
  | _ => True
  end.

(** The spec's matching rule for status names, in its words: "matched
    case-insensitively by prefix against the canonical names [...] in
    declared order, first match wins". *)
Fixpoint ci_prefix (name s : string) : bool :=
  match name, s with
  | EmptyString, _ => true
  | String c n', String d s' => (tolower c =? tolower d) && ci_prefix n' s'
  | String _ _, EmptyString => false
  end.

(** A name as a C string literal: no character 0 inside. *)
Fixpoint no_nul (name : string) : bool :=
  match name with
  | EmptyString => true
  | String c n' => negb (char_code c =? 0) && no_nul n'
  end.

Definition first_matching_name (s : string) : Z :=
  match find (fun i => ci_prefix (ustatemap_at i) s)
             [USTATE_OK; USTATE_INSTALLED; USTATE_TESTING; USTATE_FAILED] with
  | Some i => i
  | None => USTATE_UNKNOWN
  end.

(** The records an execution handed to [bgenv_write], the byte images it
    handed to [fwrite], and the calls of the slot store it made. *)
Definition stored_records (t : list event) : list BG_ENVDATA :=
  flat_map (fun ev => match ev with
                      | call_bgenv_write env => [data env]
                      | _ => []
                      end) t.
Definition store_calls (t : list event) : list event :=
  filter is_store_call t.

(** ** Vocabulary of the further properties *)

Definition is_dump (ev : event) : bool :=
  match ev with
  | call_dump_env _ => true
  | _ => false
  end.

(** The world without the calls of [dump_env] in its trace. *)
Definition quiet_world (w : world) : world :=
  mk_world (bgenv_init_ok w) (config_parts w) (bgenv_write_ok w)
    (bgenv_close_ok w) (fopen_ok w) (fwrite_errno w) (fclose_ok w)
    (filter (fun ev => negb (is_dump ev)) (trace w)).

(** A step that [dump_env] has ended: its last call is [dump_env] on a
    record that cannot be printed. *)
Definition killed_showing {A : Type} (r : step A * world) : Prop :=
  fst r = Return_main killed /\
  exists evs d,
    trace (snd r) = evs ++ [call_dump_env d] /\ printable d = false.

(** Two programs that, from worlds equal but for what was shown, give the
    same result and leave worlds equal but for what was shown, unless
    [dump_env] ends the first. *)
Definition agree {A : Type} (m1 m2 : prog A) : Prop :=
  forall w1 w2,
    quiet_world w1 = quiet_world w2 ->
    (fst (m1 w1) = fst (m2 w2) /\
     quiet_world (snd (m1 w1)) = quiet_world (snd (m2 w2))) \/
    killed_showing (m1 w1).

(** The file-scope variables without the verbosity. *)
Definition quiet (g : globals) : globals :=
  mk_globals (auto_update g) (part_specified g) false (envfilepath g)
    (errno g).

(** The records an execution showed with [dump_env]. *)
Definition shown_records (t : list event) : list BG_ENVDATA :=
  flat_map (fun ev => match ev with call_dump_env d => [d] | _ => [] end) t.

(** The calls that neither change a slot nor touch the output file. *)
Definition read_only (ev : event) : Prop :=
  match ev with
  | call_bgenv_write _ | call_fopen _ | call_fwrite _ | call_fclose => False
  | _ => True
  end.

(** A staged update state: still the marker, or one of the four codes the
    parser lets through. *)
Definition staged_ustate_ok (u : Z) : Prop :=
  u = IGNORE_MARKER_BYTE \/ 0 <= u <= 3.

(** The records of the first [n] slots, up to the first that cannot be
    read. *)
Fixpoint readable_prefix (n : nat) (ps : list (option BG_ENVDATA))
  : list BG_ENVDATA :=
  match n, ps with
  | S n', Some d :: rest => d :: readable_prefix n' rest
  | _, _ => []
  end.

(** The calls of the loop over the slots [i], [i + 1], ... that hold the
    records [ds]. *)
Fixpoint dump_events (verbose : bool) (i : nat) (ds : list BG_ENVDATA)
  : list event :=
  match ds with
  | [] => []
  | d :: rest =>
      call_bgenv_get_by_index (Z.of_nat i) ::
      (if verbose then [call_dump_env d] else []) ++
      call_bgenv_close (mk_BGENV i d) :: dump_events verbose (S i) rest
  end.

(** The command line carries the option [c]. *)
Definition given (c : ascii) (cmdline : list cmdline_item) : bool :=
  existsb (fun item => match item with
                       | Opt c' _ => Ascii.eqb c' c
                       | _ => false
                       end) cmdline.

(** An item bg_printenv accepts: the option -v, or a hidden option of
    argp; and a command line of such items only. *)
Definition printenv_accepts (item : cmdline_item) : bool :=
  match item with
  | Opt c _ => Ascii.eqb c "v"
  | OptProgramName _ | OptHang _ => true
  | _ => false
  end.
Definition only_verbose (cmdline : list cmdline_item) : bool :=
  forallb printenv_accepts cmdline.

(** The records of [ds] before the first that cannot be printed. *)
Fixpoint printable_prefix (ds : list BG_ENVDATA) : list BG_ENVDATA :=
  match ds with
  | d :: rest => if printable d then d :: printable_prefix rest else []
  | [] => []
  end.

(** The records the loop over the slots gets past: all of them when it is
    not verbose. *)
Definition passed (verbose : bool) (ds : list BG_ENVDATA)
  : list BG_ENVDATA :=
  if verbose then printable_prefix ds else ds.

(** Which slot is opened, and with which change: under auto-update the
    oldest slot with the record of the latest one and the revision after
    the latest; with -p the slot of that index; otherwise the latest. *)
Definition opened_as (a : arguments) (g : globals)
    (ps : list (option BG_ENVDATA)) (a' : arguments) (env : BGENV) : Prop :=
  if auto_update g then
    exists cur new,
      latest_slot ps = Some cur /\ oldest_slot ps = Some new /\
      env = mk_BGENV (desc new) (data cur) /\
      a' = set_tmpdata a
             (set_revision (tmpdata a)
                (to_uint32 (revision (data cur) + 1)))
  else
    a' = a /\
    if part_specified g then
      0 <= which_part a /\ desc env = Z.to_nat (which_part a) /\
      nth_error ps (desc env) = Some (Some (data env))
    else latest_slot ps = Some env.

(** ** A configuration and sample runs *)

(** A configuration of env_api.h: text fields of 255 characters, two
    slots. *)
Definition sample_env_api : env_api_h :=
  {| ENV_STRING_LENGTH := 255;
     ENV_NUM_CONFIG_PARTS := 2;
     FAT_ENV_FILENAME := "BGENV.DAT" |}.

Definition sample_text (s : string) : list Z :=
  firstn 255 (str8to16 s ++ repeat 0 255).

Definition sample_record (k a : string) (u r w : Z) : BG_ENVDATA :=
  finalize (mk_BG_ENVDATA (sample_text k) (sample_text a) u r w 0).

(** Two readable slots with revisions 5 and 2, every call succeeds. *)
Definition sample_world : world :=
  {| bgenv_init_ok := true;
     config_parts :=
       [Some (sample_record "vmlinuz-5" "root=/dev/sda1" 0 5 30);
        Some (sample_record "vmlinuz-2" "root=/dev/sdb1" 3 2 10)];
     bgenv_write_ok := true;
     bgenv_close_ok := true;
     fopen_ok := true;
     fwrite_errno := None;
     fclose_ok := true;
     trace := [] |}.

(** The parse of "-k vmlinuz-6 -s testing -r 7" and the change it stages. *)
Definition sample_parse : outcome * (arguments * globals) :=
  argp_parse (H := sample_env_api) options_setenv
    [Opt "k" "vmlinuz-6"; Opt "s" "testing"; Opt "r" "7"]
    (initial_state (H := sample_env_api) "bg_setenv").
Definition sample_change : BG_ENVDATA := tmpdata (fst (snd sample_parse)).

(** The parse of "-r 77 -u -s testing". *)
Definition sample_auto_update : list cmdline_item :=
  [Opt "r" "77"; Opt "u" ""; Opt "s" "testing"].
Definition sample_auto_update_parse : outcome * (arguments * globals) :=
  argp_parse (H := sample_env_api) options_setenv sample_auto_update
    (initial_state (H := sample_env_api) "bg_setenv").

(** The parse of "-s failed -f /tmp/out -c". *)
Definition sample_to_file : list cmdline_item :=
  [Opt "s" "failed"; Opt "f" "/tmp/out"; Opt "c" ""].
Definition sample_to_file_parse : outcome * (arguments * globals) :=
  argp_parse (H := sample_env_api) options_setenv sample_to_file
    (initial_state (H := sample_env_api) "bg_setenv").

(** A text of 256 characters. *)
Definition sample_long_text : string :=
  string_of_list_ascii (repeat "a"%char 256).

(** The sample store with its second slot unreadable, the sample store
    when [bgenv_write] fails, and a store whose latest revision is 233. *)
Definition sample_damaged_world : world :=
  set_config_parts sample_world
    [Some (sample_record "vmlinuz-5" "root=/dev/sda1" 0 5 30); None].
Definition sample_write_fails_world : world :=
  {| bgenv_init_ok := true;
     config_parts := config_parts sample_world;
     bgenv_write_ok := false;
     bgenv_close_ok := true;
     fopen_ok := true;
     fwrite_errno := None;
     fclose_ok := true;
     trace := [] |}.
Definition sample_marker_world : world :=
  set_config_parts sample_world
    [Some (sample_record "vmlinuz-2" "root=/dev/sdb1" 0 2 10);
     Some (sample_record "vmlinuz-5" "root=/dev/sda1" 0 233 30)].

(** The parse of "-p 1 -s testing". *)
Definition sample_part : list cmdline_item :=
  [Opt "p" "1"; Opt "s" "testing"].
Definition sample_part_parse : outcome * (arguments * globals) :=
  argp_parse (H := sample_env_api) options_setenv sample_part
    (initial_state (H := sample_env_api) "bg_setenv").

(** A text of 255 characters. *)
Definition sample_full_text : string :=
  string_of_list_ascii (repeat "a"%char 255).

(** A kernel path whose first character has the code 0xEA. *)
Definition sample_marked_text : string :=
  String (ascii_of_nat 234) "vmlinuz".

(** The sample store with a kernel path of 255 characters in its latest
    slot: the text fills its field and has no terminator. *)
Definition sample_full_world : world :=
  set_config_parts sample_world
    [Some (sample_record sample_full_text "root=/dev/sda1" 0 5 30);
     Some (sample_record "vmlinuz-2" "root=/dev/sdb1" 3 2 10)].

(** The parses of "-v -u -s testing", of "-v -k" with a text of 255
    characters and "-f /tmp/out", and of "-v -w 60". *)
Definition sample_verbose_auto_update : list cmdline_item :=
  [Opt "v" ""; Opt "u" ""; Opt "s" "testing"].
Definition sample_verbose_watchdog : list cmdline_item :=
  [Opt "v" ""; Opt "w" "60"].
Definition sample_verbose_watchdog_parse : outcome * (arguments * globals) :=
  argp_parse (H := sample_env_api) options_setenv sample_verbose_watchdog
    (initial_state (H := sample_env_api) "bg_setenv").

(** * Properties *)

Section Properties.
Context `{H : env_api_h}.

(** ** The library models on known values *)

(** The check value of CRC-32: the checksum of "123456789". *)
Lemma crc32_check_value :
  zlib.crc32 0 (map char_code (list_ascii_of_string "123456789")) = 0xCBF43926.
Proof. reflexivity. Qed.

Lemma strtol_values :
  strtol "  -12x" = mk_strtol (-12) true false /\
  strtol "testing" = mk_strtol 0 false false /\
  strtol "99999999999999999999" = mk_strtol LONG_MAX true true /\
  atoi "234" = 234 /\ atoi "4294967297" = 1.
Proof. repeat split; reflexivity. Qed.

(** The selection of the store: with revisions 3, 5, 1 the latest slot is
    slot 1 and the oldest is slot 2; among equal revisions the lowest index
    is taken. *)
Lemma slot_selection (d : BG_ENVDATA) :
  let slot r := Some (set_revision d r) in
  option_map desc (latest_slot [slot 3; slot 5; slot 1]) = Some 1%nat /\
  option_map desc (oldest_slot [slot 3; slot 5; slot 1]) = Some 2%nat /\
  option_map desc (latest_slot [slot 4; None; slot 4]) = Some 0%nat /\
  latest_slot [None; None] = None.
Proof. repeat split; reflexivity. Qed.

(** ** The byte image *)

Lemma length_flat_map_le16 (l : list Z) :
  List.length (flat_map le16 l) = (2 * List.length l)%nat.
Proof.
  induction l as [|u l IH]; simpl; [reflexivity | rewrite IH; lia].
Qed.

Lemma length_payload_bytes (e : BG_ENVDATA) :
  wf_BG_ENVDATA e ->
  List.length (payload_bytes e) = (sizeof_BG_ENVDATA - 4)%nat.
Proof.
  intros [Hf Hp]. unfold payload_bytes, sizeof_BG_ENVDATA.
  rewrite !length_app, !length_flat_map_le16, Hf, Hp. simpl. lia.
Qed.

(** The bytes the CRC is computed over are the image of the fields before
    [crc32]. *)
Lemma firstn_bytes_of (e : BG_ENVDATA) :
  wf_BG_ENVDATA e ->
  firstn (sizeof_BG_ENVDATA - 4) (bytes_of e) = payload_bytes e.
Proof.
  intros We. unfold bytes_of.
  rewrite <- (length_payload_bytes e We), firstn_app, Nat.sub_diag.
  rewrite firstn_all. simpl. apply app_nil_r.
Qed.

(** ** The merge *)

Lemma merged_copied (d s : BG_ENVDATA) :
  merged d s =
  set_crc32 (copied d s)
    (zlib.crc32 0 (firstn (sizeof_BG_ENVDATA - 4) (bytes_of (copied d s)))).
Proof.
  unfold merged, update_environment, copied.
  destruct d as [kf kp u r w c]; simpl.
  destruct (to_uint8 (nth 0 (kernelfile s) 0) =? IGNORE_MARKER_BYTE);
  destruct (to_uint8 (nth 0 (kernelparams s) 0) =? IGNORE_MARKER_BYTE);
  destruct (to_uint8 (ustate s) =? IGNORE_MARKER_BYTE);
  destruct (to_uint8 (revision s) =? IGNORE_MARKER_BYTE);
  destruct (to_uint8 (watchdog_timeout_sec s) =? IGNORE_MARKER_BYTE);
  reflexivity.
Qed.

Lemma wf_copied (d s : BG_ENVDATA) :
  wf_BG_ENVDATA d -> wf_BG_ENVDATA s -> wf_BG_ENVDATA (copied d s).
Proof.
  intros [Hd1 Hd2] [Hs1 Hs2]. unfold wf_BG_ENVDATA, copied; simpl.
  split.
  - destruct (to_uint8 (nth 0 (kernelfile s) 0) =? IGNORE_MARKER_BYTE); assumption.
  - destruct (to_uint8 (nth 0 (kernelparams s) 0) =? IGNORE_MARKER_BYTE); assumption.
Qed.

Lemma wf_set_crc32 (e : BG_ENVDATA) (c : Z) :
  wf_BG_ENVDATA e -> wf_BG_ENVDATA (set_crc32 e c).
Proof. intros We; exact We. Qed.

Lemma wf_merged (d s : BG_ENVDATA) :
  wf_BG_ENVDATA d -> wf_BG_ENVDATA s -> wf_BG_ENVDATA (merged d s).
Proof.
  intros Wd Ws. rewrite merged_copied. apply wf_set_crc32, wf_copied; assumption.
Qed.

(** On records of the declared shape the merge is: copy the staged fields,
    then finalize. *)
Lemma merged_finalize (d s : BG_ENVDATA) :
  wf_BG_ENVDATA d -> wf_BG_ENVDATA s ->
  merged d s = finalize (copied d s).
Proof.
  intros Wd Ws. rewrite merged_copied, firstn_bytes_of by (apply wf_copied; assumption).
  reflexivity.
Qed.

Lemma copied_set_crc32 (d s : BG_ENVDATA) (c : Z) :
  copied (set_crc32 d c) s = set_crc32 (copied d s) c.
Proof. reflexivity. Qed.

Lemma finalize_set_crc32 (d : BG_ENVDATA) (c : Z) :
  finalize (set_crc32 d c) = finalize d.
Proof. reflexivity. Qed.

Lemma copied_idempotent (d s : BG_ENVDATA) :
  copied (copied d s) s = copied d s.
Proof.
  unfold copied; simpl.
  destruct (to_uint8 (nth 0 (kernelfile s) 0) =? IGNORE_MARKER_BYTE);
  destruct (to_uint8 (nth 0 (kernelparams s) 0) =? IGNORE_MARKER_BYTE);
  destruct (to_uint8 (ustate s) =? IGNORE_MARKER_BYTE);
  destruct (to_uint8 (revision s) =? IGNORE_MARKER_BYTE);
  destruct (to_uint8 (watchdog_timeout_sec s) =? IGNORE_MARKER_BYTE);
  reflexivity.
Qed.

(** C4. Merge idempotence: for every record [r] and staged change [c] of
    the declared shape, merging [c] a second time changes nothing, the
    recomputed integrity field included:
    [merge (merge (r, c), c) = merge (r, c)]. *)
Theorem merge_idempotent (r c : BG_ENVDATA) :
  wf_BG_ENVDATA r -> wf_BG_ENVDATA c ->
  merged (merged r c) c = merged r c.
Proof.
  intros Wr Wc.
  rewrite (merged_finalize (merged r c) c) by (try apply wf_merged; assumption).
  rewrite (merged_finalize r c) by assumption.
  unfold finalize at 2. rewrite copied_set_crc32, finalize_set_crc32.
  rewrite copied_idempotent. reflexivity.
Qed.

(** *** The all-unset change *)

Lemma nth_repeat_lt {A : Type} (x d : A) (n i : nat) :
  (i < n)%nat -> nth i (repeat x n) d = x.
Proof.
  revert i; induction n as [|n IH]; intros i Hi; [lia|].
  destruct i; simpl; [reflexivity | apply IH; lia].
Qed.

Lemma map_const_seq {A : Type} (x : A) (f : nat -> A) (start n : nat) :
  (forall i, (start <= i < start + n)%nat -> f i = x) ->
  map f (seq start n) = repeat x n.
Proof.
  revert start; induction n as [|n IH]; intros start Hf; simpl; [reflexivity|].
  rewrite Hf by lia. f_equal. apply IH. intros i Hi. apply Hf. lia.
Qed.

Lemma read_units_repeat (b : Z) (off : nat) :
  (off + 2 * ENV_STRING_LENGTH <= sizeof_BG_ENVDATA)%nat ->
  read_units (repeat b sizeof_BG_ENVDATA) off =
  repeat (b + 256 * b) ENV_STRING_LENGTH.
Proof.
  intros Hoff. unfold read_units. apply map_const_seq. intros i Hi.
  unfold read16, read8. rewrite !nth_repeat_lt by lia. reflexivity.
Qed.

Lemma read32_repeat (b : Z) (off : nat) :
  (off + 4 <= sizeof_BG_ENVDATA)%nat ->
  read32 (repeat b sizeof_BG_ENVDATA) off =
  b + 256 * b + 65536 * b + 16777216 * b.
Proof.
  intros Hoff. unfold read32, read8. rewrite !nth_repeat_lt by lia. reflexivity.
Qed.

(** [memset] fills every field with the same byte. *)
Lemma memset_BG_ENVDATA_fields (c : Z) :
  memset_BG_ENVDATA c =
  let b := to_uint8 c in
  {| kernelfile := repeat (b + 256 * b) ENV_STRING_LENGTH;
     kernelparams := repeat (b + 256 * b) ENV_STRING_LENGTH;
     ustate := b;
     revision := b + 256 * b + 65536 * b + 16777216 * b;
     watchdog_timeout_sec := b + 256 * b + 65536 * b + 16777216 * b;
     crc32 := b + 256 * b + 65536 * b + 16777216 * b |}.
Proof.
  unfold memset_BG_ENVDATA, of_bytes; cbv zeta.
  rewrite !read_units_repeat, !read32_repeat
    by (unfold offsetof_kernelfile, offsetof_kernelparams, offsetof_revision,
        offsetof_watchdog_timeout_sec, offsetof_crc32, sizeof_BG_ENVDATA; lia).
  unfold read8, offsetof_ustate, sizeof_BG_ENVDATA.
  rewrite nth_repeat_lt by lia. reflexivity.
Qed.

Lemma all_unset_fields :
  all_unset =
  {| kernelfile := repeat 0xEAEA ENV_STRING_LENGTH;
     kernelparams := repeat 0xEAEA ENV_STRING_LENGTH;
     ustate := 0xEA;
     revision := 0xEAEAEAEA;
     watchdog_timeout_sec := 0xEAEAEAEA;
     crc32 := 0xEAEAEAEA |}.
Proof. unfold all_unset. rewrite memset_BG_ENVDATA_fields. reflexivity. Qed.

Lemma wf_of_bytes (l : list Z) : wf_BG_ENVDATA (of_bytes l).
Proof.
  unfold wf_BG_ENVDATA, of_bytes, read_units; simpl.
  rewrite !length_map, !length_seq. split; reflexivity.
Qed.

Lemma wf_all_unset : wf_BG_ENVDATA all_unset.
Proof. apply wf_of_bytes. Qed.

(** A text field of an all-unset change is either marked, or the field has
    no element at all. *)
Lemma unset_text_field (l : list Z) :
  List.length l = ENV_STRING_LENGTH ->
  (if to_uint8 (nth 0 (repeat 0xEAEA ENV_STRING_LENGTH) 0) =? IGNORE_MARKER_BYTE
   then l else repeat 0xEAEA ENV_STRING_LENGTH) = l.
Proof.
  intros Hl. destruct ENV_STRING_LENGTH as [|n].
  - destruct l; [reflexivity | discriminate].
  - reflexivity.
Qed.

Lemma copied_all_unset (r : BG_ENVDATA) :
  wf_BG_ENVDATA r -> copied r all_unset = r.
Proof.
  intros [Hf Hp]. rewrite all_unset_fields. unfold copied; simpl.
  rewrite (unset_text_field _ Hf), (unset_text_field _ Hp).
  destruct r; reflexivity.
Qed.

(** C5. Unset-preserving merge: merging the all-unset change (every byte
    the reserved marker) onto a record [r] leaves every content field of [r]
    as it was and recomputes the integrity value:
    [merge (r, all_unset) = finalize (r)]; a record whose integrity value
    was right comes out unchanged. *)
Theorem merge_all_unset (r : BG_ENVDATA) :
  wf_BG_ENVDATA r ->
  merged r all_unset = finalize r /\
  kernelfile (merged r all_unset) = kernelfile r /\
  kernelparams (merged r all_unset) = kernelparams r /\
  ustate (merged r all_unset) = ustate r /\
  revision (merged r all_unset) = revision r /\
  watchdog_timeout_sec (merged r all_unset) = watchdog_timeout_sec r /\
  (crc_valid r -> merged r all_unset = r).
Proof.
  intros Wr.
  assert (E : merged r all_unset = finalize r).
  { rewrite merged_finalize by (try apply wf_all_unset; assumption).
    rewrite copied_all_unset by assumption. reflexivity. }
  rewrite E. repeat split.
  intros Hcrc. unfold finalize. rewrite <- Hcrc. destruct r; reflexivity.
Qed.

Lemma crc_valid_merged (d s : BG_ENVDATA) :
  wf_BG_ENVDATA d -> wf_BG_ENVDATA s -> crc_valid (merged d s).
Proof.
  intros Wd Ws. rewrite merged_finalize by assumption. reflexivity.
Qed.

(** ** Option parsing *)

Lemma has_option_setenv (c : ascii) :
  has_option options_setenv c = true ->
  In c ["k"; "a"; "p"; "r"; "s"; "f"; "w"; "c"; "u"; "v"]%char.
Proof.
  unfold has_option, options_setenv. intros Hc.
  apply existsb_exists in Hc. destruct Hc as [x [Hin Heq]].
  apply Ascii.eqb_eq in Heq. subst x. exact Hin.
Qed.

Lemma has_option_printenv (c : ascii) :
  has_option options_printenv c = true -> has_option options_setenv c = true.
Proof.
  unfold has_option, options_printenv. simpl. rewrite orb_false_r.
  intros Hc. apply Ascii.eqb_eq in Hc. subst c. reflexivity.
Qed.

Lemma has_option_options_of (argv0 : string) (c : ascii) :
  has_option (options_of argv0) c = true -> has_option options_setenv c = true.
Proof.
  unfold options_of. destruct (strstr argv0 "bg_setenv");
    [trivial | apply has_option_printenv].
Qed.

Ltac option_cases Hc :=
  apply has_option_setenv in Hc; simpl in Hc;
  destruct Hc as [Hc|[Hc|[Hc|[Hc|[Hc|[Hc|[Hc|[Hc|[Hc|[Hc|[]]]]]]]]]]];
  subst.

Lemma parse_opt_k arg a g :
  parse_opt (KEY "k") arg (a, g) =
  if (ENV_STRING_LENGTH <? strlen arg)%nat then (Returns 1, (a, g))
  else (Returns 0,
        (set_tmpdata a
           (memcpy_into (tmpdata a) offsetof_kernelfile (staged_text arg)), g)).
Proof. reflexivity. Qed.

Lemma parse_opt_a arg a g :
  parse_opt (KEY "a") arg (a, g) =
  if (ENV_STRING_LENGTH <? strlen arg)%nat then (Returns 1, (a, g))
  else (Returns 0,
        (set_tmpdata a
           (memcpy_into (tmpdata a) offsetof_kernelparams (staged_text arg)), g)).
Proof. reflexivity. Qed.

Lemma parse_opt_c arg a g :
  parse_opt (KEY "c") arg (a, g) =
  (Returns 0, (set_tmpdata a (set_ustate (tmpdata a) 0), g)).
Proof. reflexivity. Qed.

Lemma parse_opt_u arg a g :
  parse_opt (KEY "u") arg (a, g) =
  if part_specified g then (Returns 1, (a, g))
  else (Returns 0,
        (a, mk_globals true (part_specified g) (verbosity g) (envfilepath g)
              (errno g))).
Proof. reflexivity. Qed.

Lemma parse_opt_v arg a g :
  parse_opt (KEY "v") arg (a, g) =
  (Returns 0,
   (a, mk_globals (auto_update g) (part_specified g) true (envfilepath g)
         (errno g))).
Proof. reflexivity. Qed.

Lemma parse_opt_f arg a g :
  parse_opt (KEY "f") arg (a, g) =
  (Returns 0,
   (mk_arguments true (which_part a) (tmpdata a),
    mk_globals (auto_update g) (part_specified g) (verbosity g)
      (Some (arg ++ "/" ++ FAT_ENV_FILENAME)%string) (errno g))).
Proof. reflexivity. Qed.

Lemma parse_opt_r arg a g :
  parse_opt (KEY "r") arg (a, g) =
  (Returns 0,
   (set_tmpdata a (set_revision (tmpdata a) (to_uint32 (atoi arg))),
    set_errno g (strtol_errno (strtol arg) (errno g)))).
Proof. reflexivity. Qed.

Lemma parse_opt_w arg a g :
  parse_opt (KEY "w") arg (a, g) =
  if negb (atoi arg =? 0) then
    (Returns 0,
     (set_tmpdata a
        (set_watchdog_timeout_sec (tmpdata a) (to_uint32 (atoi arg))),
      set_errno g (strtol_errno (strtol arg) (errno g))))
  else (Returns 1, (a, set_errno g (strtol_errno (strtol arg) (errno g)))).
Proof. reflexivity. Qed.

Lemma parse_opt_p_ok arg a g a' g' :
  parse_opt (KEY "p") arg (a, g) = (Returns 0, (a', g')) ->
  exists i e,
    (i = 0 \/ i = 1) /\
    a' = mk_arguments (output_to_file a) i (tmpdata a) /\
    g' = mk_globals (auto_update g) true (verbosity g) (envfilepath g) e.
Proof.
  unfold parse_opt.
  set (r := strtol arg). set (i := to_int (strtol_value r)).
  set (g1 := set_errno g (strtol_errno r (errno g))).
  destruct (strtol_failed r i (errno g1)); [discriminate|].
  destruct ((i =? 0) || (i =? 1)) eqn:Hi; [|discriminate].
  intros E; inversion E; subst a' g'. exists i, (errno g1).
  split; [|split; reflexivity].
  apply orb_true_iff in Hi. destruct Hi as [Hi|Hi]; apply Z.eqb_eq in Hi; auto.
Qed.

Lemma parse_opt_s_ok arg a g a' g' :
  parse_opt (KEY "s") arg (a, g) = (Returns 0, (a', g')) ->
  exists v e,
    0 <= v <= 3 /\
    a' = set_tmpdata a (set_ustate (tmpdata a) v) /\ g' = set_errno g e.
Proof.
  unfold parse_opt.
  set (r := strtol arg). set (i := to_int (strtol_value r)).
  set (g1 := set_errno g (strtol_errno r (errno g))).
  set (parsed := if strtol_failed r i (errno g1) then _ else _).
  destruct parsed as [v|]; [|discriminate].
  destruct ((v <? 0) || (3 <? v)) eqn:Hv; [discriminate|].
  apply orb_false_iff in Hv. destruct Hv as [Hv1 Hv2].
  apply Z.ltb_ge in Hv1, Hv2.
  intros E; inversion E; subst a' g'. exists v, (strtol_errno r (errno g)).
  assert (Hu : to_uint8 v = v) by (unfold to_uint8; apply Z.mod_small; lia).
  rewrite Hu. split; [lia | split; reflexivity].
Qed.

(** What a successful call of [parse_opt] for an option of the table has
    done to the state. *)
Lemma parse_opt_ok_cases c arg a g a' g' :
  has_option options_setenv c = true ->
  parse_opt (KEY c) arg (a, g) = (Returns 0, (a', g')) ->
  (c = "k"%char /\ (strlen arg <= ENV_STRING_LENGTH)%nat /\ g' = g /\
   a' = set_tmpdata a
          (memcpy_into (tmpdata a) offsetof_kernelfile (staged_text arg))) \/
  (c = "a"%char /\ (strlen arg <= ENV_STRING_LENGTH)%nat /\ g' = g /\
   a' = set_tmpdata a
          (memcpy_into (tmpdata a) offsetof_kernelparams (staged_text arg))) \/
  (c = "p"%char /\ exists i e, (i = 0 \/ i = 1) /\
   a' = mk_arguments (output_to_file a) i (tmpdata a) /\
   g' = mk_globals (auto_update g) true (verbosity g) (envfilepath g) e) \/
  (c = "r"%char /\ exists e,
   a' = set_tmpdata a (set_revision (tmpdata a) (to_uint32 (atoi arg))) /\
   g' = set_errno g e) \/
  (c = "s"%char /\ exists v e, 0 <= v <= 3 /\
   a' = set_tmpdata a (set_ustate (tmpdata a) v) /\ g' = set_errno g e) \/
  (c = "f"%char /\
   a' = mk_arguments true (which_part a) (tmpdata a) /\
   g' = mk_globals (auto_update g) (part_specified g) (verbosity g)
          (Some (arg ++ "/" ++ FAT_ENV_FILENAME)%string) (errno g)) \/
  (c = "w"%char /\ atoi arg <> 0 /\ exists e,
   a' = set_tmpdata a
          (set_watchdog_timeout_sec (tmpdata a) (to_uint32 (atoi arg))) /\
   g' = set_errno g e) \/
  (c = "c"%char /\ g' = g /\
   a' = set_tmpdata a (set_ustate (tmpdata a) 0)) \/
  (c = "u"%char /\ part_specified g = false /\ a' = a /\
   g' = mk_globals true (part_specified g) (verbosity g) (envfilepath g)
          (errno g)) \/
  (c = "v"%char /\ a' = a /\
   g' = mk_globals (auto_update g) (part_specified g) true (envfilepath g)
          (errno g)).
Proof.
  intros Hc Hp. option_cases Hc.
  - rewrite parse_opt_k in Hp.
    destruct (ENV_STRING_LENGTH <? strlen arg)%nat eqn:Hlen; [discriminate|].
    apply Nat.ltb_ge in Hlen. inversion Hp; subst. left. auto.
  - rewrite parse_opt_a in Hp.
    destruct (ENV_STRING_LENGTH <? strlen arg)%nat eqn:Hlen; [discriminate|].
    apply Nat.ltb_ge in Hlen. inversion Hp; subst. right; left. auto.
  - apply parse_opt_p_ok in Hp. do 2 right; left. auto.
  - rewrite parse_opt_r in Hp. inversion Hp; subst. do 3 right; left.
    split; [reflexivity|]. eexists; split; reflexivity.
  - apply parse_opt_s_ok in Hp. do 4 right; left. auto.
  - rewrite parse_opt_f in Hp. inversion Hp; subst. do 5 right; left. auto.
  - rewrite parse_opt_w in Hp.
    destruct (atoi arg =? 0) eqn:Hw; [discriminate|]. apply Z.eqb_neq in Hw.
    inversion Hp; subst. do 6 right; left.
    split; [reflexivity|]. split; [assumption|]. eexists; split; reflexivity.
  - rewrite parse_opt_c in Hp. inversion Hp; subst. do 7 right; left. auto.
  - rewrite parse_opt_u in Hp.
    destruct (part_specified g) eqn:Hps; [discriminate|].
    inversion Hp; subst. do 8 right; left. auto.
  - rewrite parse_opt_v in Hp. inversion Hp; subst. do 9 right. auto.
Qed.

Lemma outcome_eq_dec (x y : outcome) : {x = y} + {x <> y}.
Proof. decide equality; apply Z.eq_dec. Qed.

Lemma parse_options_cons_ok options item rest st st2 :
  parse_options options (item :: rest) st = (Returns 0, st2) ->
  exists st1,
    deliver options item st = (Returns 0, st1) /\
    parse_options options rest st1 = (Returns 0, st2).
Proof.
  simpl. destruct (deliver options item st) as [[e|x] st1] eqn:Hd.
  - destruct e; intros E; try discriminate. exists st1. auto.
  - discriminate.
Qed.

(** An item that is handed over with success is an option of the table
    that [parse_opt] accepts, or a hidden option of argp, which leaves the
    state as it is but for [errno]. *)
Lemma deliver_ok options item st st1 :
  deliver options item st = (Returns 0, st1) ->
  (exists c arg,
      item = Opt c arg /\ has_option options c = true /\
      parse_opt (KEY c) arg st = (Returns 0, st1)) \/
  ((forall c arg, item <> Opt c arg) /\
   exists e,
     (e = errno (snd st) \/ e = ERANGE) /\
     st1 = (fst st, set_errno (snd st) e)).
Proof.
  destruct item as [c arg| |arg|name|secs]; simpl.
  - destruct (Ascii.eqb c "?"); [discriminate|].
    destruct (has_option options c) eqn:Hc; [|discriminate].
    intros E. left. exists c, arg. auto.
  - discriminate.
  - destruct st; discriminate.
  - intros E. inversion E; subst st1. right. split; [discriminate|].
    exists (errno (snd st)). split; [left; reflexivity|].
    destruct st as [a [au ps v p e]]; reflexivity.
  - intros E. inversion E; subst st1. right. split; [discriminate|].
    eexists. split; [|reflexivity].
    unfold strtol_errno. destruct (strtol_erange _); auto.
Qed.

Lemma deliver_Opt_ok options c arg st st1 :
  deliver options (Opt c arg) st = (Returns 0, st1) ->
  has_option options c = true /\
  parse_opt (KEY c) arg st = (Returns 0, st1).
Proof.
  intros Hd. apply deliver_ok in Hd.
  destruct Hd as [(c' & arg' & Hi & Hc & Hcall)|[Hn _]].
  - inversion Hi; subst c' arg'. auto.
  - destruct (Hn c arg eq_refl).
Qed.

(** A property of the parse state that every successful call of
    [parse_opt] for an option of the command line keeps, and that a change
    of [errno] by [strtol] keeps, holds after a successful parse. *)
Lemma parse_options_invariant_In (P : arguments * globals -> Prop) options
    cmdline :
  (forall c arg st st',
      In (Opt c arg) cmdline ->
      has_option options c = true ->
      parse_opt (KEY c) arg st = (Returns 0, st') -> P st -> P st') ->
  (forall a g e, e = errno g \/ e = ERANGE ->
                 P (a, g) -> P (a, set_errno g e)) ->
  forall st st',
    parse_options options cmdline st = (Returns 0, st') -> P st -> P st'.
Proof.
  induction cmdline as [|item rest IH]; intros Hstep Herr st st' Hp HP.
  - simpl in Hp. inversion Hp; subst. exact HP.
  - apply parse_options_cons_ok in Hp. destruct Hp as [st1 [Hd Hrest]].
    apply deliver_ok in Hd.
    apply IH with (st := st1); [|exact Herr|exact Hrest|].
    + intros c' arg' s1 s2 Hin. apply Hstep. right. exact Hin.
    + destruct Hd as [(c & arg & Hi & Hc & Hcall)|[_ (e & He & ->)]].
      * apply (Hstep c arg st st1); try assumption. left. exact Hi.
      * destruct st as [a g]. apply Herr; assumption.
Qed.

Lemma parse_options_invariant (P : arguments * globals -> Prop) options :
  (forall c arg st st',
      has_option options c = true ->
      parse_opt (KEY c) arg st = (Returns 0, st') -> P st -> P st') ->
  (forall a g e, e = errno g \/ e = ERANGE ->
                 P (a, g) -> P (a, set_errno g e)) ->
  forall cmdline st st',
    parse_options options cmdline st = (Returns 0, st') -> P st -> P st'.
Proof.
  intros Hstep Herr cmdline. apply parse_options_invariant_In; [|exact Herr].
  intros c arg st st' _. apply Hstep.
Qed.

Lemma parse_options_app options pre rest st :
  parse_options options (pre ++ rest) st =
  match parse_options options pre st with
  | (Returns 0, st1) => parse_options options rest st1
  | stopped => stopped
  end.
Proof.
  revert st. induction pre as [|item pre IH]; intros st; simpl.
  - reflexivity.
  - destruct (deliver options item st) as [[e|x] st1]; [|reflexivity].
    destruct e; try reflexivity. apply IH.
Qed.

Lemma filter_no_positional (cmdline : list cmdline_item) :
  filter (fun item => negb (is_option item)) cmdline = [] ->
  filter is_option cmdline = cmdline.
Proof.
  induction cmdline as [|item rest IH]; simpl; [reflexivity|].
  destruct (is_option item); simpl; [|discriminate].
  intros Hrest. rewrite IH by exact Hrest. reflexivity.
Qed.

Lemma parse_options_positionals options cmdline st st' :
  parse_options options
    (filter (fun item => negb (is_option item)) cmdline) st = (Returns 0, st') ->
  filter (fun item => negb (is_option item)) cmdline = [].
Proof.
  destruct (filter (fun item => negb (is_option item)) cmdline)
    as [|item rest] eqn:Hf; [reflexivity|].
  intros Hp. exfalso.
  assert (Hitem : In item (filter (fun item => negb (is_option item)) cmdline))
    by (rewrite Hf; left; reflexivity).
  apply filter_In in Hitem. destruct Hitem as [_ Hitem].
  destruct item as [c arg| |arg|name|secs]; try discriminate.
  apply parse_options_cons_ok in Hp. destruct Hp as [st1 [Hd _]].
  destruct st; discriminate.
Qed.

(** A parse that succeeds had options only, and handed them over in their
    order. *)
Lemma argp_parse_ok options cmdline st st' :
  argp_parse options cmdline st = (Returns 0, st') ->
  parse_options options cmdline st = (Returns 0, st').
Proof.
  unfold argp_parse.
  destruct (parse_options options (filter is_option cmdline) st)
    as [[e|x] st1] eqn:Hopts; [|discriminate].
  destruct e; try discriminate. intros Hpos.
  assert (Hnone := parse_options_positionals _ _ _ _ Hpos).
  rewrite Hnone in Hpos. simpl in Hpos. inversion Hpos; subst st1.
  rewrite (filter_no_positional _ Hnone) in Hopts. exact Hopts.
Qed.

Lemma main_after_failed_parse argv0 cmdline out st w :
  argp_parse (options_of argv0) cmdline (initial_state argv0) = (out, st) ->
  out <> Returns 0 ->
  main argv0 cmdline w = (parse_status out, w).
Proof.
  intros Hp Hout. unfold main, main_prog.
  change (argp_parse _ cmdline _)
    with (argp_parse (options_of argv0) cmdline (initial_state argv0)).
  rewrite Hp. destruct out as [e|x]; destruct st as [a g].
  - destruct (e =? 0) eqn:He.
    + apply Z.eqb_eq in He. subst e. contradiction.
    + reflexivity.
  - reflexivity.
Qed.

Lemma main_after_parse argv0 cmdline a g w :
  argp_parse (options_of argv0) cmdline (initial_state argv0)
    = (Returns 0, (a, g)) ->
  main argv0 cmdline w = finish (after_parse (strstr argv0 "bg_setenv") a g w).
Proof.
  intros Hp. unfold main, main_prog.
  change (argp_parse _ cmdline _)
    with (argp_parse (options_of argv0) cmdline (initial_state argv0)).
  rewrite Hp. reflexivity.
Qed.

(** ** Traces *)

Lemma emits_ret {A : Type} (P : event -> Prop) (a : A) : emits P (ret a).
Proof. intros w. exists []. simpl. rewrite app_nil_r. auto. Qed.

Lemma emits_return_main {A : Type} (P : event -> Prop) (code : Z) :
  emits P (@return_main A code).
Proof. intros w. exists []. simpl. rewrite app_nil_r. auto. Qed.

Lemma emits_bind {A B : Type} (P : event -> Prop) (m : prog A)
    (k : A -> prog B) :
  emits P m -> (forall a, emits P (k a)) -> emits P (bind m k).
Proof.
  intros Hm Hk w. unfold traced, bind. destruct (Hm w) as [evs [Ht HP]].
  destruct (m w) as [[a|code] w1]; simpl in *.
  - destruct (Hk a w1) as [evs' [Ht' HP']]. exists (evs ++ evs').
    rewrite Ht', Ht, app_assoc. split; [reflexivity|].
    apply Forall_app; auto.
  - exists evs. auto.
Qed.

Lemma emits_when (P : event -> Prop) (b : bool) (m : prog unit) :
  emits P m -> emits P (when b m).
Proof. destruct b; simpl; [trivial | intros _; apply emits_ret]. Qed.

Lemma emits_log {A : Type} (P : event -> Prop) (ev : event)
    (f : world -> step A * world) :
  P ev -> (forall w, trace (snd (f w)) = trace w ++ [ev]) -> emits P f.
Proof. intros HP Hf w. exists [ev]. rewrite Hf. auto. Qed.

Lemma emits_bgenv_init P : P call_bgenv_init -> emits P bgenv_init.
Proof. intros HP. eapply emits_log; [exact HP | reflexivity]. Qed.

Lemma emits_bgenv_get_by_index P i :
  P (call_bgenv_get_by_index i) -> emits P (bgenv_get_by_index i).
Proof. intros HP. eapply emits_log; [exact HP | reflexivity]. Qed.

Lemma emits_bgenv_get_latest P :
  P call_bgenv_get_latest -> emits P bgenv_get_latest.
Proof. intros HP. eapply emits_log; [exact HP | reflexivity]. Qed.

Lemma emits_bgenv_get_oldest P :
  P call_bgenv_get_oldest -> emits P bgenv_get_oldest.
Proof. intros HP. eapply emits_log; [exact HP | reflexivity]. Qed.

Lemma emits_bgenv_close P env :
  P (call_bgenv_close env) -> emits P (bgenv_close env).
Proof. intros HP. eapply emits_log; [exact HP | reflexivity]. Qed.

Lemma emits_bgenv_write P env :
  P (call_bgenv_write env) -> emits P (bgenv_write env).
Proof.
  intros HP. eapply emits_log; [exact HP|]. intros w. unfold bgenv_write.
  simpl. destruct (bgenv_write_ok w); reflexivity.
Qed.

Lemma emits_dump_env P d : P (call_dump_env d) -> emits P (dump_env d).
Proof.
  intros HP. eapply emits_log; [exact HP|]. intros w. unfold dump_env.
  destruct (printable d); reflexivity.
Qed.

Lemma emits_fopen P path : P (call_fopen path) -> emits P (fopen path).
Proof. intros HP. eapply emits_log; [exact HP | reflexivity]. Qed.

Lemma emits_fwrite P bytes : P (call_fwrite bytes) -> emits P (fwrite bytes).
Proof. intros HP. eapply emits_log; [exact HP | reflexivity]. Qed.

Lemma emits_fclose P : P call_fclose -> emits P fclose.
Proof. intros HP. eapply emits_log; [exact HP | reflexivity]. Qed.

Lemma emits_dump_parts (P : event -> Prop) verbose indices :
  (forall i, P (call_bgenv_get_by_index i)) ->
  (forall d, P (call_dump_env d)) ->
  (forall env, P (call_bgenv_close env)) ->
  emits P (dump_parts verbose indices).
Proof.
  intros Hget Hdump Hclose.
  induction indices as [|i rest IH]; simpl.
  - apply emits_ret.
  - apply emits_bind; [apply emits_bgenv_get_by_index, Hget|].
    intros [e|]; [|apply emits_return_main].
    apply emits_bind; [apply emits_when, emits_dump_env, Hdump|]. intros _.
    apply emits_bind; [apply emits_bgenv_close, Hclose|]. intros _.
    exact IH.
Qed.

Lemma emits_write_slot a g : emits any_event (write_slot a g).
Proof.
  unfold write_slot, open_slot. apply emits_bind.
  - destruct (auto_update g).
    + unfold open_auto_update.
      apply emits_bind; [apply emits_bgenv_get_latest; exact I|].
      intros [cur|]; [|apply emits_return_main].
      apply emits_bind; [apply emits_bgenv_get_oldest; exact I|].
      intros [new|]; [|apply emits_return_main].
      apply emits_bind; [apply emits_bgenv_close; exact I|]. intros _.
      apply emits_ret.
    + unfold open_selected. apply emits_bind.
      * destruct (part_specified g);
          [apply emits_bgenv_get_by_index | apply emits_bgenv_get_latest];
          exact I.
      * intros [new|]; [apply emits_ret | apply emits_return_main].
  - intros [a' env_new].
    apply emits_bind; [apply emits_when, emits_dump_env; exact I|]. intros _.
    apply emits_bind; [apply emits_bgenv_write; exact I|]. intros written.
    destruct written; simpl; [|apply emits_return_main].
    apply emits_bind; [apply emits_bgenv_close; exact I|]. intros closed.
    destruct closed; simpl; [apply emits_ret | apply emits_return_main].
Qed.

(** In slot mode the first call is the initialisation of the store. *)
Lemma after_parse_opens_store write_mode a g w :
  output_to_file a = false ->
  exists evs,
    trace (snd (after_parse write_mode a g w)) =
    trace w ++ call_bgenv_init :: evs.
Proof.
  intros Hf. unfold after_parse. rewrite Hf. cbn [negb].
  unfold bind at 1, bgenv_init at 1. cbv beta iota.
  destruct (bgenv_init_ok w); cbn [negb].
  - assert (E : emits any_event
                  (dump_parts (verbosity g) (seq 0 ENV_NUM_CONFIG_PARTS) ;;;
                   when write_mode (write_slot a g) ;;; ret 0)).
    { apply emits_bind; [apply emits_dump_parts; intros; exact I|]. intros _.
      apply emits_bind; [apply emits_when, emits_write_slot|]. intros _.
      apply emits_ret. }
    destruct (E (log call_bgenv_init w)) as [evs [Ht _]].
    exists evs. rewrite Ht. simpl. rewrite <- app_assoc. reflexivity.
  - exists []. reflexivity.
Qed.

Lemma parse_opt_exits c arg st status st' :
  has_option options_setenv c = true ->
  parse_opt (KEY c) arg st <> (Exits status, st').
Proof.
  intros Hc. destruct st as [a g]. option_cases Hc.
  - rewrite parse_opt_k. destruct (_ <? _)%nat; discriminate.
  - rewrite parse_opt_a. destruct (_ <? _)%nat; discriminate.
  - unfold parse_opt.
    set (r := strtol arg). set (i := to_int (strtol_value r)).
    set (g1 := set_errno g (strtol_errno r (errno g))).
    destruct (strtol_failed r i (errno g1)); [discriminate|].
    destruct ((i =? 0) || (i =? 1)); discriminate.
  - rewrite parse_opt_r. discriminate.
  - unfold parse_opt.
    set (r := strtol arg). set (i := to_int (strtol_value r)).
    set (g1 := set_errno g (strtol_errno r (errno g))).
    set (parsed := if strtol_failed r i (errno g1) then _ else _).
    destruct parsed as [v|]; [|discriminate].
    destruct ((v <? 0) || (3 <? v)); discriminate.
  - rewrite parse_opt_f. discriminate.
  - rewrite parse_opt_w. destruct (negb _); discriminate.
  - rewrite parse_opt_c. discriminate.
  - rewrite parse_opt_u. destruct (part_specified g); discriminate.
  - rewrite parse_opt_v. discriminate.
Qed.

Lemma asks_help_filter (f : cmdline_item -> bool) cmdline :
  asks_help cmdline = false -> asks_help (filter f cmdline) = false.
Proof.
  unfold asks_help. induction cmdline as [|item rest IH]; simpl; [trivial|].
  intros Hh. apply orb_false_iff in Hh. destruct Hh as [Hitem Hrest].
  destruct (f item); simpl; [rewrite Hitem|]; apply IH; exact Hrest.
Qed.

(** Without a request for help the only exit status of a parse is the
    usage status. *)
Lemma parse_options_exits argv0 items st status st' :
  parse_options (options_of argv0) items st = (Exits status, st') ->
  asks_help items = false ->
  status = argp_err_exit_status.
Proof.
  revert st. induction items as [|item rest IH]; intros st; simpl.
  - discriminate.
  - intros Hp Hh. apply orb_false_iff in Hh. destruct Hh as [Hitem Hrest].
    destruct (deliver (options_of argv0) item st) as [[e|x] st1] eqn:Hd.
    + destruct e; try discriminate. eapply IH; eassumption.
    + inversion Hp; subst x st1. clear Hp.
      destruct item as [c arg| |arg|name|secs]; simpl in Hd.
      * rewrite Hitem in Hd.
        destruct (has_option (options_of argv0) c) eqn:Hc.
        -- apply has_option_options_of in Hc.
           exfalso. eapply parse_opt_exits; eassumption.
        -- inversion Hd. reflexivity.
      * discriminate.
      * destruct st. inversion Hd. reflexivity.
      * discriminate.
      * discriminate.
Qed.

Lemma argp_parse_exits argv0 cmdline st status st' :
  argp_parse (options_of argv0) cmdline st = (Exits status, st') ->
  asks_help cmdline = false ->
  status = argp_err_exit_status.
Proof.
  unfold argp_parse. intros Hp Hh.
  destruct (parse_options (options_of argv0) (filter is_option cmdline) st)
    as [[e|x] st1] eqn:Hopts.
  - destruct e; try discriminate.
    eapply parse_options_exits; [exact Hp | apply asks_help_filter, Hh].
  - inversion Hp; subst x st1.
    eapply parse_options_exits; [exact Hopts | apply asks_help_filter, Hh].
Qed.

(** A parse that does not succeed ends the run with the world as it was,
    and, unless the command line asks for help, with a non-zero exit
    code. *)
Lemma main_rejects argv0 cmdline w :
  (forall st', argp_parse (options_of argv0) cmdline (initial_state argv0)
               <> (Returns 0, st')) ->
  snd (main argv0 cmdline w) = w /\
  (asks_help cmdline = false -> fst (main argv0 cmdline w) <> 0).
Proof.
  intros Hno.
  destruct (argp_parse (options_of argv0) cmdline (initial_state argv0))
    as [out st] eqn:Hp.
  assert (Hout : out <> Returns 0) by (intros ->; apply (Hno st); reflexivity).
  rewrite (main_after_failed_parse _ _ _ _ w Hp Hout). simpl.
  split; [reflexivity|]. intros Hh.
  destruct out as [e|status]; simpl.
  - intros ->. apply Hout. reflexivity.
  - rewrite (argp_parse_exits _ _ _ _ _ Hp Hh). discriminate.
Qed.

Lemma parse_options_app_ok options pre rest st st2 :
  parse_options options (pre ++ rest) st = (Returns 0, st2) ->
  exists st1,
    parse_options options pre st = (Returns 0, st1) /\
    parse_options options rest st1 = (Returns 0, st2).
Proof.
  rewrite parse_options_app.
  destruct (parse_options options pre st) as [[e|x] st1]; [|discriminate].
  destruct e; try discriminate. intros E. exists st1. auto.
Qed.

Lemma part_specified_stays argv0 cmdline st st' :
  parse_options (options_of argv0) cmdline st = (Returns 0, st') ->
  part_specified (snd st) = true -> part_specified (snd st') = true.
Proof.
  apply (parse_options_invariant (fun st => part_specified (snd st) = true));
    [|intros a g e _ HP; exact HP].
  clear. intros c arg [a g] [a' g'] Hc Hp Hps. simpl in *.
  apply has_option_options_of in Hc.
  destruct (parse_opt_ok_cases _ _ _ _ _ _ Hc Hp)
    as [C|[C|[C|[C|[C|[C|[C|[C|[C|C]]]]]]]]].
  - destruct C as (_ & _ & -> & _). assumption.
  - destruct C as (_ & _ & -> & _). assumption.
  - destruct C as (_ & i & e & _ & _ & ->). reflexivity.
  - destruct C as (_ & e & _ & ->). assumption.
  - destruct C as (_ & v & e & _ & _ & ->). assumption.
  - destruct C as (_ & _ & ->). assumption.
  - destruct C as (_ & _ & e & _ & ->). assumption.
  - destruct C as (_ & -> & _). assumption.
  - destruct C as (_ & Hn & _). congruence.
  - destruct C as (_ & _ & ->). assumption.
Qed.

(** A command line with -p somewhere before -u does not parse. *)
Lemma part_then_auto_update_rejected argv0 pre x mid y post st st' :
  parse_options (options_of argv0)
    (pre ++ Opt "p" x :: mid ++ Opt "u" y :: post) st <> (Returns 0, st').
Proof.
  intros Hp.
  apply parse_options_app_ok in Hp. destruct Hp as [st1 [_ Hp]].
  apply parse_options_cons_ok in Hp. destruct Hp as [st2 [Hd Hp]].
  apply deliver_Opt_ok in Hd. destruct Hd as [_ Hcall].
  destruct st1 as [a1 g1], st2 as [a2 g2].
  apply parse_opt_p_ok in Hcall. destruct Hcall as (i & e & _ & _ & Hg2).
  apply parse_options_app_ok in Hp. destruct Hp as [st3 [Hmid Hp]].
  apply part_specified_stays in Hmid; [|subst g2; reflexivity].
  apply parse_options_cons_ok in Hp. destruct Hp as [st4 [Hd _]].
  apply deliver_Opt_ok in Hd. destruct Hd as [_ Hcall].
  destruct st3 as [a3 g3]. simpl in Hmid.
  rewrite parse_opt_u, Hmid in Hcall. discriminate.
Qed.

(** C2. Conflict rejection.  With the explicit slot index given before
    auto-update the invocation fails while the flags are staged: the world
    is untouched, no call is made, and the exit code is non-zero (unless
    the command line asks for help before that).  With auto-update given
    first the explicit index is accepted as well: the parse succeeds and
    the run goes on to open the slot store. *)
Theorem part_and_auto_update_conflict :
  (forall argv0 pre x mid y post w,
      let cmdline := pre ++ Opt "p" x :: mid ++ Opt "u" y :: post in
      snd (main argv0 cmdline w) = w /\
      (asks_help cmdline = false -> fst (main argv0 cmdline w) <> 0)) /\
  (forall w,
      argp_parse options_setenv [Opt "u" ""; Opt "p" "0"]
        (initial_state "bg_setenv")
      = (Returns 0,
         (mk_arguments false 0 all_unset, mk_globals true true false None 0)) /\
      exists evs,
        trace (snd (main "bg_setenv" [Opt "u" ""; Opt "p" "0"] w)) =
        trace w ++ call_bgenv_init :: evs).
Proof.
  split.
  - intros argv0 pre x mid y post w cmdline. apply main_rejects.
    intros st' Hp. apply argp_parse_ok in Hp.
    eapply part_then_auto_update_rejected; exact Hp.
  - intros w.
    assert (Hp : argp_parse (options_of "bg_setenv") [Opt "u" ""; Opt "p" "0"]
                   (initial_state "bg_setenv")
                 = (Returns 0,
                    (mk_arguments false 0 all_unset,
                     mk_globals true true false None 0))) by reflexivity.
    split; [exact Hp|].
    rewrite (main_after_parse _ _ _ _ w Hp).
    destruct (after_parse_opens_store (strstr "bg_setenv" "bg_setenv")
                (mk_arguments false 0 all_unset)
                (mk_globals true true false None 0) w eq_refl) as [evs Ht].
    exists evs. rewrite <- Ht.
    destruct (after_parse _ _ _ w) as [[r|code] w']; reflexivity.
Qed.

(** ** Copies into the staged change *)

Lemma nth_read_units (l : list Z) (off i : nat) :
  (i < ENV_STRING_LENGTH)%nat ->
  nth i (read_units l off) 0 = read16 l (off + 2 * i).
Proof.
  intros Hi. unfold read_units.
  rewrite (nth_indep _ 0 (read16 l (off + 2 * 0)))
    by (rewrite length_map, length_seq; exact Hi).
  rewrite (map_nth (fun i => read16 l (off + 2 * i))), seq_nth by exact Hi.
  reflexivity.
Qed.

Lemma nth_poke (l : list Z) (off : nat) (data : list Z) (i : nat) :
  (i < sizeof_BG_ENVDATA)%nat ->
  nth i (poke l off data) 0 =
  if ((off <=? i) && (i <? off + List.length data))%nat
  then nth (i - off) data 0 else nth i l 0.
Proof.
  intros Hi. unfold poke.
  set (f := fun i : nat => if ((off <=? i) && (i <? off + List.length data))%nat
                           then nth (i - off) data 0 else nth i l 0).
  rewrite (nth_indep _ 0 (f 0%nat)) by (rewrite length_map, length_seq; exact Hi).
  rewrite (map_nth f), seq_nth by exact Hi. reflexivity.
Qed.

Lemma length_list_ascii_of_string (s : string) :
  List.length (list_ascii_of_string s) = String.length s.
Proof. induction s as [|c s IH]; simpl; [reflexivity | rewrite IH; reflexivity]. Qed.

Lemma char_code_range (c : ascii) : 0 <= char_code c < 256.
Proof.
  unfold char_code. pose proof (nat_ascii_bounded c). lia.
Qed.

Lemma staged_text_eq (arg : string) :
  staged_text arg =
  flat_map le16 (map char_code (list_ascii_of_string arg)) ++ [0; 0].
Proof.
  unfold staged_text, str8to16. rewrite flat_map_app. simpl (flat_map le16 [0]).
  apply firstn_all2.
  rewrite length_app, length_flat_map_le16, length_map,
    length_list_ascii_of_string.
  unfold strlen. simpl. lia.
Qed.

Lemma length_staged_text (arg : string) :
  List.length (staged_text arg) = (2 * strlen arg + 2)%nat.
Proof.
  rewrite staged_text_eq, length_app, length_flat_map_le16, length_map,
    length_list_ascii_of_string.
  unfold strlen. simpl. lia.
Qed.

Lemma nth_flat_map_le16 (us : list Z) (i : nat) :
  nth (2 * i) (flat_map le16 us) 0 = nth i us 0 mod 256 /\
  nth (2 * i + 1) (flat_map le16 us) 0 = (nth i us 0 / 256) mod 256.
Proof.
  revert i. induction us as [|u us IH]; intros i.
  - simpl flat_map. rewrite !nth_overflow by (simpl; lia). auto.
  - destruct i as [|i].
    + simpl. auto.
    + replace (2 * S i)%nat with (S (S (2 * i))) by lia.
      replace (S (S (2 * i)) + 1)%nat with (S (S (2 * i + 1))) by lia.
      simpl flat_map. simpl nth. apply IH.
Qed.

(** The code units of the staged text: the characters, then zeros. *)
Lemma staged_text_unit (arg : string) (i : nat) :
  nth (2 * i) (staged_text arg) 0 +
  256 * nth (2 * i + 1) (staged_text arg) 0 =
  nth i (map char_code (list_ascii_of_string arg)) 0.
Proof.
  rewrite staged_text_eq.
  set (us := map char_code (list_ascii_of_string arg)).
  assert (Hlen : List.length (flat_map le16 us) = (2 * List.length us)%nat)
    by apply length_flat_map_le16.
  destruct (Nat.lt_ge_cases i (List.length us)) as [Hi|Hi].
  - rewrite !app_nth1 by lia.
    destruct (nth_flat_map_le16 us i) as [-> ->].
    assert (Hr : 0 <= nth i us 0 < 256).
    { unfold us in *. rewrite (nth_indep _ 0 (char_code "000"%char)) by exact Hi.
      rewrite (map_nth char_code). apply char_code_range. }
    rewrite (Z.mod_small (nth i us 0)) by lia.
    rewrite (Z.div_small (nth i us 0)) by lia. simpl. lia.
  - rewrite !app_nth2 by lia. rewrite (nth_overflow us) by lia.
    destruct (2 * i - List.length (flat_map le16 us))%nat as [|[|k]] eqn:E1;
    destruct (2 * i + 1 - List.length (flat_map le16 us))%nat as [|[|k']] eqn:E2;
    simpl; try reflexivity; try lia;
    destruct k; try destruct k'; reflexivity.
Qed.

(** Behind the characters the staged text holds only zero bytes. *)
Lemma staged_text_tail (arg : string) (j : nat) :
  (2 * strlen arg <= j)%nat -> nth j (staged_text arg) 0 = 0.
Proof.
  intros Hj. rewrite staged_text_eq.
  rewrite app_nth2
    by (rewrite length_flat_map_le16, length_map, length_list_ascii_of_string;
        exact Hj).
  destruct (j - _)%nat as [|[|k]]; simpl; try reflexivity.
  destruct k; reflexivity.
Qed.

Lemma read16_poke_staged_text (l : list Z) (off i : nat) (arg : string) :
  (off + 2 * i + 1 < sizeof_BG_ENVDATA)%nat ->
  (i <= strlen arg)%nat ->
  read16 (poke l off (staged_text arg)) (off + 2 * i) =
  nth i (map char_code (list_ascii_of_string arg)) 0.
Proof.
  intros Hoff Hi. unfold read16, read8.
  rewrite !nth_poke by lia. rewrite length_staged_text.
  replace ((off <=? off + 2 * i) && (off + 2 * i <? off + (2 * strlen arg + 2)))%nat
    with true
    by (symmetry; apply andb_true_iff; split;
        [apply Nat.leb_le | apply Nat.ltb_lt]; lia).
  replace ((off <=? off + 2 * i + 1) &&
           (off + 2 * i + 1 <? off + (2 * strlen arg + 2)))%nat
    with true
    by (symmetry; apply andb_true_iff; split;
        [apply Nat.leb_le | apply Nat.ltb_lt]; lia).
  replace (off + 2 * i - off)%nat with (2 * i)%nat by lia.
  replace (off + 2 * i + 1 - off)%nat with (2 * i + 1)%nat by lia.
  apply staged_text_unit.
Qed.

(** After the copy the field starts with the characters of the text, and
    the terminator follows where the field has room for it. *)
Lemma staged_text_field (c : ascii) (e : BG_ENVDATA) (arg : string) (i : nat) :
  (i <= strlen arg)%nat -> (i < ENV_STRING_LENGTH)%nat ->
  nth i (text_field c
           (memcpy_into e
              (if Ascii.eqb c "k" then offsetof_kernelfile
               else offsetof_kernelparams)
              (staged_text arg))) 0 =
  nth i (map char_code (list_ascii_of_string arg)) 0.
Proof.
  intros Hi HN. unfold text_field, memcpy_into, of_bytes.
  destruct (Ascii.eqb c "k"); cbn [kernelfile kernelparams];
    rewrite nth_read_units by exact HN;
    apply read16_poke_staged_text; try exact Hi;
    unfold offsetof_kernelfile, offsetof_kernelparams, sizeof_BG_ENVDATA; lia.
Qed.

Lemma parse_options_ok_In options cmdline st st' c arg :
  parse_options options cmdline st = (Returns 0, st') ->
  In (Opt c arg) cmdline ->
  exists st1 st2, parse_opt (KEY c) arg st1 = (Returns 0, st2).
Proof.
  revert st. induction cmdline as [|item rest IH]; intros st Hp Hin.
  - destruct Hin.
  - apply parse_options_cons_ok in Hp. destruct Hp as [st1 [Hd Hrest]].
    destruct Hin as [->|Hin].
    + apply deliver_Opt_ok in Hd. destruct Hd as [_ Hcall].
      exists st, st1. exact Hcall.
    + eapply IH; eassumption.
Qed.

(** C9. Staging a kernel path ('k') or a kernel-arguments text ('a') that
    is longer than [ENV_STRING_LENGTH] characters fails with the error code
    of the length check, and every invocation that carries such an option
    ends before any call is made, the world untouched, with a non-zero exit
    code (unless the command line asks for help before that); a text of at
    most [ENV_STRING_LENGTH] characters is accepted and its characters are
    staged at the start of the field, followed by the terminator where the
    field has room for it. *)
Theorem text_capacity_check (c : ascii) (arg : string)
    (a : arguments) (g : globals) :
  c = "k"%char \/ c = "a"%char ->
  ((ENV_STRING_LENGTH < strlen arg)%nat ->
   parse_opt (KEY c) arg (a, g) = (Returns 1, (a, g)) /\
   forall argv0 cmdline w,
     In (Opt c arg) cmdline ->
     snd (main argv0 cmdline w) = w /\
     (asks_help cmdline = false -> fst (main argv0 cmdline w) <> 0)) /\
  ((strlen arg <= ENV_STRING_LENGTH)%nat ->
   exists a',
     parse_opt (KEY c) arg (a, g) = (Returns 0, (a', g)) /\
     firstn (strlen arg) (text_field c (tmpdata a')) =
       map char_code (list_ascii_of_string arg) /\
     ((strlen arg < ENV_STRING_LENGTH)%nat ->
      nth (strlen arg) (text_field c (tmpdata a')) 0 = 0)).
Proof.
  intros Hc.
  assert (Hcall : parse_opt (KEY c) arg (a, g) =
                  if (ENV_STRING_LENGTH <? strlen arg)%nat
                  then (Returns 1, (a, g))
                  else (Returns 0,
                        (set_tmpdata a
                           (memcpy_into (tmpdata a)
                              (if Ascii.eqb c "k" then offsetof_kernelfile
                               else offsetof_kernelparams)
                              (staged_text arg)), g))).
  { destruct Hc as [-> | ->]; reflexivity. }
  assert (Hfail : forall a0 g0, (ENV_STRING_LENGTH < strlen arg)%nat ->
            parse_opt (KEY c) arg (a0, g0) = (Returns 1, (a0, g0))).
  { intros a0 g0 Hlong. apply Nat.ltb_lt in Hlong.
    destruct Hc as [-> | ->];
      [rewrite parse_opt_k | rewrite parse_opt_a]; rewrite Hlong; reflexivity. }
  split.
  - intros Hlong. split; [apply Hfail; exact Hlong|].
    intros argv0 cmdline w Hin. apply main_rejects. intros st' Hp.
    apply argp_parse_ok in Hp.
    destruct (parse_options_ok_In _ _ _ _ _ _ Hp Hin) as [[a1 g1] [st2 Hok]].
    rewrite (Hfail a1 g1 Hlong) in Hok. discriminate.
  - intros Hshort. rewrite Hcall.
    assert (Hlt : (ENV_STRING_LENGTH <? strlen arg)%nat = false)
      by (apply Nat.ltb_ge; exact Hshort).
    rewrite Hlt. eexists. split; [reflexivity|]. cbn [tmpdata set_tmpdata].
    split.
    + apply (nth_ext _ _ 0 0).
      * rewrite length_firstn, length_map, length_list_ascii_of_string.
        assert (Hwf := wf_of_bytes
                  (poke (bytes_of (tmpdata a))
                     (if Ascii.eqb c "k" then offsetof_kernelfile
                      else offsetof_kernelparams) (staged_text arg))).
        destruct Hwf as [Hf Hp]. unfold text_field, memcpy_into, strlen in *.
        destruct (Ascii.eqb c "k"); [rewrite Hf | rewrite Hp]; lia.
      * intros i Hi. rewrite length_firstn in Hi.
        rewrite nth_firstn.
        assert (Hi' : (i < strlen arg)%nat) by lia.
        apply Nat.ltb_lt in Hi'. rewrite Hi'. apply Nat.ltb_lt in Hi'.
        apply staged_text_field; lia.
    + intros Hroom. rewrite staged_text_field by lia.
      apply nth_overflow. rewrite length_map, length_list_ascii_of_string.
      unfold strlen. lia.
Qed.

(** ** The marker byte *)

Lemma to_uint8_to_uint32 (z : Z) : to_uint8 (to_uint32 z) = to_uint8 z.
Proof.
  unfold to_uint8, to_uint32. apply Z.mod_mod_divide.
  exists (2 ^ 24). reflexivity.
Qed.

Lemma merged_marked_revision (d s : BG_ENVDATA) :
  to_uint8 (revision s) = IGNORE_MARKER_BYTE ->
  revision (merged d s) = revision d.
Proof.
  intros Hm. rewrite merged_copied. unfold copied; simpl.
  rewrite Hm. reflexivity.
Qed.

Lemma merged_marked_watchdog (d s : BG_ENVDATA) :
  to_uint8 (watchdog_timeout_sec s) = IGNORE_MARKER_BYTE ->
  watchdog_timeout_sec (merged d s) = watchdog_timeout_sec d.
Proof.
  intros Hm. rewrite merged_copied. unfold copied; simpl.
  rewrite Hm. reflexivity.
Qed.

(** C10. A revision or a watchdog timeout given on the command line whose
    least-significant byte is the marker byte 0xEA (234 for example) is
    staged without an error, and the merge then takes the field for unset:
    the target keeps its own revision, or its own watchdog timeout. *)
Theorem marker_byte_collision (arg : string) (a : arguments) (g : globals)
    (d : BG_ENVDATA) :
  to_uint8 (atoi arg) = IGNORE_MARKER_BYTE ->
  (exists a' g',
      parse_opt (KEY "r") arg (a, g) = (Returns 0, (a', g')) /\
      revision (tmpdata a') = to_uint32 (atoi arg) /\
      revision (merged d (tmpdata a')) = revision d) /\
  (exists a' g',
      parse_opt (KEY "w") arg (a, g) = (Returns 0, (a', g')) /\
      watchdog_timeout_sec (tmpdata a') = to_uint32 (atoi arg) /\
      watchdog_timeout_sec (merged d (tmpdata a')) = watchdog_timeout_sec d).
Proof.
  intros Hm. split.
  - rewrite parse_opt_r. do 2 eexists. split; [reflexivity|].
    split; [reflexivity|].
    apply merged_marked_revision. cbn [tmpdata set_tmpdata revision set_revision].
    rewrite to_uint8_to_uint32. exact Hm.
  - rewrite parse_opt_w.
    assert (Hnz : (atoi arg =? 0) = false).
    { apply Z.eqb_neq. intros E. rewrite E in Hm. discriminate. }
    rewrite Hnz. cbn [negb]. do 2 eexists. split; [reflexivity|].
    split; [reflexivity|].
    apply merged_marked_watchdog.
    cbn [tmpdata set_tmpdata watchdog_timeout_sec set_watchdog_timeout_sec].
    rewrite to_uint8_to_uint32. exact Hm.
Qed.

(** ** Status names *)

Lemma tolower_pos (c : ascii) : (char_code c =? 0) = false -> 0 < tolower c.
Proof.
  intros Hc. apply Z.eqb_neq in Hc. pose proof (char_code_range c).
  unfold tolower. destruct ((65 <=? char_code c) && (char_code c <=? 90)); lia.
Qed.

Lemma strncasecmp_ci_prefix (name s : string) :
  no_nul name = true ->
  (strncasecmp s name (strlen name) =? 0) = ci_prefix name s.
Proof.
  revert s. induction name as [|c name IH]; intros s Hn.
  - destruct s; reflexivity.
  - simpl in Hn. apply andb_true_iff in Hn. destruct Hn as [Hc Hn].
    apply negb_true_iff in Hc. apply tolower_pos in Hc.
    destruct s as [|d s]; simpl.
    + apply Z.eqb_neq. lia.
    + rewrite (Z.eqb_sym (tolower c) (tolower d)).
      destruct (tolower d =? tolower c) eqn:E; simpl.
      * apply IH. exact Hn.
      * apply Z.eqb_neq in E. apply Z.eqb_neq. lia.
Qed.

Lemma strtol_failed_not_converted (r : strtol_result) (i e : Z) :
  strtol_converted r = false -> strtol_failed r i e = true.
Proof. intros Hr. unfold strtol_failed. rewrite Hr. apply orb_true_r. Qed.

Lemma str2ustate_first_match (s : string) :
  str2ustate (Some s) = first_matching_name s.
Proof.
  unfold str2ustate, first_matching_name.
  change (Z.to_nat (USTATE_MAX - USTATE_MIN)) with 4%nat.
  cbn [str2ustate_from find].
  change (USTATE_MIN + 1) with USTATE_INSTALLED.
  change (USTATE_INSTALLED + 1) with USTATE_TESTING.
  change (USTATE_TESTING + 1) with USTATE_FAILED.
  change USTATE_MIN with USTATE_OK.
  rewrite !strncasecmp_ci_prefix by reflexivity.
  destruct (ci_prefix (ustatemap_at USTATE_OK) s); [reflexivity|].
  destruct (ci_prefix (ustatemap_at USTATE_INSTALLED) s); [reflexivity|].
  destruct (ci_prefix (ustatemap_at USTATE_TESTING) s); [reflexivity|].
  destruct (ci_prefix (ustatemap_at USTATE_FAILED) s); reflexivity.
Qed.

(** C6. The status names: "ok" is OK = 0, "INSTALLED" is 1, "testing" is 2,
    "FAILED" is 3, an input that matches no name ("bogus") and the null
    string give UNKNOWN = 4.  A name matches when it is a prefix of the input
    up to case; the names OK, INSTALLED, TESTING, FAILED are tried in this
    order and the first match wins; the name UNKNOWN is not among them, and
    given as a status on the command line it is refused.  [ustate2str]
    gives the canonical name of each code from 0 to 4, and [str2ustate]
    maps that name back to the code. *)
Theorem ustate_names :
  str2ustate (Some "ok"%string) = USTATE_OK /\ USTATE_OK = 0 /\
  str2ustate (Some "INSTALLED"%string) = USTATE_INSTALLED /\ USTATE_INSTALLED = 1 /\
  str2ustate (Some "testing"%string) = USTATE_TESTING /\ USTATE_TESTING = 2 /\
  str2ustate (Some "FAILED"%string) = USTATE_FAILED /\ USTATE_FAILED = 3 /\
  str2ustate (Some "bogus"%string) = USTATE_UNKNOWN /\ USTATE_UNKNOWN = 4 /\
  str2ustate None = USTATE_UNKNOWN /\
  (forall s, str2ustate (Some s) = first_matching_name s) /\
  (forall a g, fst (parse_opt (KEY "s") "UNKNOWN" (a, g)) = Returns 1) /\
  map ustate2str [0; 1; 2; 3; 4] =
    [Some "OK"; Some "INSTALLED"; Some "TESTING"; Some "FAILED";
     Some "UNKNOWN"]%string /\
  Forall (fun code => str2ustate (ustate2str code) = code) [0; 1; 2; 3; 4].
Proof.
  repeat (split; [reflexivity|]).
  split; [exact str2ustate_first_match|].
  split.
  { intros a g. unfold parse_opt.
    change (strtol "UNKNOWN") with (mk_strtol 0 false false).
    rewrite strtol_failed_not_converted by reflexivity. reflexivity. }
  split; [reflexivity|].
  repeat constructor.
Qed.

(** ** Records on their way to the store or to the file *)

Lemma traced_bind {A B : Type} (P : event -> Prop) (m : prog A)
    (k : A -> prog B) (w : world) :
  traced P m w ->
  (forall a w1, m w = (Continue a, w1) -> traced P (k a) w1) ->
  traced P (bind m k) w.
Proof.
  intros [evs [Ht HP]] Hk. unfold traced, bind.
  destruct (m w) as [[a|code] w1] eqn:Hm; simpl in *.
  - destruct (Hk a w1 eq_refl) as [evs' [Ht' HP']]. exists (evs ++ evs').
    rewrite Ht', Ht, app_assoc. split; [reflexivity|].
    apply Forall_app; auto.
  - exists evs. auto.
Qed.

Lemma In_select_slot better ps i best env :
  select_slot better ps i best = Some env ->
  best = Some env \/ In (Some (data env)) ps.
Proof.
  revert i best. induction ps as [|p ps IH]; intros i best Hsel.
  - left. exact Hsel.
  - simpl in Hsel. apply IH in Hsel. destruct Hsel as [Hbest|Hin].
    + destruct p as [d|]; [|left; exact Hbest].
      destruct best as [b|].
      * destruct (better (revision d) (revision (data b)));
          [|left; exact Hbest].
        inversion Hbest; subst env. right. left. reflexivity.
      * inversion Hbest; subst env. right. left. reflexivity.
    + right. right. exact Hin.
Qed.

Lemma In_latest_slot ps env :
  latest_slot ps = Some env -> In (Some (data env)) ps.
Proof.
  intros Hl. apply In_select_slot in Hl.
  destruct Hl as [E|Hin]; [discriminate | exact Hin].
Qed.

(** The slot that is opened for writing holds a record of the store, and
    the change is the staged one, but for its revision under auto-update. *)
Lemma opened_slot a g w a' env w1 :
  open_slot a g w = (Continue (a', env), w1) ->
  In (Some (data env)) (config_parts w) /\
  (tmpdata a' = tmpdata a \/
   exists v, tmpdata a' = set_revision (tmpdata a) v).
Proof.
  unfold open_slot. destruct (auto_update g).
  - unfold open_auto_update, bind, bgenv_get_latest, bgenv_get_oldest,
      bgenv_close, ret, return_main.
    destruct (latest_slot (config_parts w)) as [cur|] eqn:Hl; [|discriminate].
    simpl. destruct (oldest_slot (config_parts w)) as [new|]; [|discriminate].
    intros E. inversion E; subst a' env. simpl.
    split; [apply In_latest_slot; exact Hl|].
    right. eexists. reflexivity.
  - unfold open_selected, bind, ret, return_main.
    destruct (part_specified g).
    + unfold bgenv_get_by_index.
      destruct (which_part a <? 0); [discriminate|].
      destruct (nth_error (config_parts w) (Z.to_nat (which_part a)))
        as [[d|]|] eqn:Hn; try discriminate.
      intros E. inversion E; subst a' env. simpl.
      split; [eapply nth_error_In; exact Hn | left; reflexivity].
    + unfold bgenv_get_latest.
      destruct (latest_slot (config_parts w)) as [e|] eqn:Hl; [|discriminate].
      intros E. inversion E; subst a' env.
      split; [apply In_latest_slot; exact Hl | left; reflexivity].
Qed.

Lemma wf_opened a g w a' env w1 :
  wf_world w -> wf_BG_ENVDATA (tmpdata a) ->
  open_slot a g w = (Continue (a', env), w1) ->
  wf_BG_ENVDATA (data env) /\ wf_BG_ENVDATA (tmpdata a').
Proof.
  intros Hw Ha Hopen. apply opened_slot in Hopen.
  destruct Hopen as [Hin Hchange]. split.
  - unfold wf_world in Hw. rewrite Forall_forall in Hw. apply (Hw _ Hin).
  - destruct Hchange as [-> | [v ->]]; exact Ha.
Qed.

Lemma emits_open_slot (P : event -> Prop) a g :
  (forall i, P (call_bgenv_get_by_index i)) ->
  P call_bgenv_get_latest -> P call_bgenv_get_oldest ->
  (forall env, P (call_bgenv_close env)) ->
  emits P (open_slot a g).
Proof.
  intros Hget Hlatest Holdest Hclose. unfold open_slot.
  destruct (auto_update g).
  - unfold open_auto_update.
    apply emits_bind; [apply emits_bgenv_get_latest, Hlatest|].
    intros [cur|]; [|apply emits_return_main].
    apply emits_bind; [apply emits_bgenv_get_oldest, Holdest|].
    intros [new|]; [|apply emits_return_main].
    apply emits_bind; [apply emits_bgenv_close, Hclose|]. intros _.
    apply emits_ret.
  - unfold open_selected. apply emits_bind.
    + destruct (part_specified g);
        [apply emits_bgenv_get_by_index, Hget
        | apply emits_bgenv_get_latest, Hlatest].
    + intros [new|]; [apply emits_ret | apply emits_return_main].
Qed.

(** If the merge into the opened slot yields a record with property [Q],
    then [Q] holds of what [write_slot] shows and stores. *)
Lemma traced_write_slot (Q : BG_ENVDATA -> Prop) a g w :
  (forall a' env w1,
      open_slot a g w = (Continue (a', env), w1) ->
      Q (merged (data env) (tmpdata a'))) ->
  traced (carries Q true) (write_slot a g) w.
Proof.
  intros HQ. unfold write_slot. apply traced_bind.
  - apply emits_open_slot; intros; exact I.
  - intros [a' env] w1 Hopen. specialize (HQ _ _ _ Hopen).
    clear Hopen. revert w1.
    change (emits (carries Q true)
              (when (verbosity g)
                 (dump_env (data (mk_BGENV (desc env)
                                    (merged (data env) (tmpdata a'))))) ;;;
               written <- bgenv_write (mk_BGENV (desc env)
                                         (merged (data env) (tmpdata a'))) ;;
               (if negb written then return_main 1
                else closed <- bgenv_close (mk_BGENV (desc env)
                                  (merged (data env) (tmpdata a'))) ;;
                     (if negb closed then return_main 1 else ret tt)))).
    apply emits_bind; [apply emits_when, emits_dump_env; exact HQ|]. intros _.
    apply emits_bind; [apply emits_bgenv_write; exact HQ|]. intros written.
    destruct written; simpl; [|apply emits_return_main].
    apply emits_bind; [apply emits_bgenv_close; exact I|]. intros closed.
    destruct closed; simpl; [apply emits_ret | apply emits_return_main].
Qed.

Lemma wf_memset_BG_ENVDATA c : wf_BG_ENVDATA (memset_BG_ENVDATA c).
Proof. apply wf_of_bytes. Qed.

Lemma emits_write_file (Q : BG_ENVDATA -> Prop) a g :
  Q (merged (memset_BG_ENVDATA 0) (tmpdata a)) ->
  emits (carries Q true) (write_file a g).
Proof.
  intros HQ. unfold write_file.
  apply emits_bind; [apply emits_when, emits_dump_env; exact HQ|]. intros _.
  apply emits_bind; [apply emits_fopen; exact I|]. intros stream.
  destruct stream; [|apply emits_ret].
  apply emits_bind; [apply emits_fwrite; eexists; split; [reflexivity|exact HQ]|].
  intros failed.
  apply emits_bind; [apply emits_fclose; exact I|]. intros closed.
  apply emits_ret.
Qed.

Lemma config_parts_dump_parts verbose indices w :
  config_parts (snd (dump_parts verbose indices w)) = config_parts w.
Proof.
  revert w. induction indices as [|i rest IH]; intros w; simpl.
  - reflexivity.
  - unfold bind at 1, bgenv_get_by_index at 1. cbv beta iota.
    match goal with
    | |- context [match ?e with Some _ => _ | None => return_main 1 end] =>
        destruct e as [env|]
    end; [|reflexivity].
    unfold bind at 1. destruct verbose; simpl when.
    + unfold dump_env at 1. destruct (printable (data env)); [|reflexivity].
      unfold bind at 1, bgenv_close at 1. cbv beta iota. rewrite IH. reflexivity.
    + unfold ret at 1. cbv beta iota.
      unfold bind at 1, bgenv_close at 1. cbv beta iota. rewrite IH. reflexivity.
Qed.

Lemma traced_weaken {A : Type} (P Q : event -> Prop) (m : prog A) w :
  (forall ev, P ev -> Q ev) -> traced P m w -> traced Q m w.
Proof.
  intros HPQ [evs [Ht HP]]. exists evs.
  split; [assumption|]. eapply Forall_impl; eassumption.
Qed.

Lemma carries_shown (Q : BG_ENVDATA -> Prop) ev :
  carries Q true ev -> carries Q false ev.
Proof. destruct ev; simpl; trivial. Qed.

Lemma wf_set_tmpdata_cases c arg a g a' g' :
  has_option options_setenv c = true ->
  parse_opt (KEY c) arg (a, g) = (Returns 0, (a', g')) ->
  wf_BG_ENVDATA (tmpdata a) -> wf_BG_ENVDATA (tmpdata a').
Proof.
  intros Hc Hp Wa.
  destruct (parse_opt_ok_cases _ _ _ _ _ _ Hc Hp)
    as [C|[C|[C|[C|[C|[C|[C|[C|[C|C]]]]]]]]].
  - destruct C as (_ & _ & _ & ->). apply wf_of_bytes.
  - destruct C as (_ & _ & _ & ->). apply wf_of_bytes.
  - destruct C as (_ & i & e & _ & -> & _). exact Wa.
  - destruct C as (_ & e & -> & _). exact Wa.
  - destruct C as (_ & v & e & _ & -> & _). exact Wa.
  - destruct C as (_ & -> & _). exact Wa.
  - destruct C as (_ & _ & e & -> & _). exact Wa.
  - destruct C as (_ & _ & ->). exact Wa.
  - destruct C as (_ & _ & -> & _). exact Wa.
  - destruct C as (_ & -> & _). exact Wa.
Qed.

(** The staged change a successful parse leaves has the declared shape. *)
Lemma wf_parsed argv0 cmdline a g :
  argp_parse (options_of argv0) cmdline (initial_state argv0)
    = (Returns 0, (a, g)) ->
  wf_BG_ENVDATA (tmpdata a).
Proof.
  intros Hp.
  apply (parse_options_invariant
           (fun st => wf_BG_ENVDATA (tmpdata (fst st)))
           (options_of argv0)) with (cmdline := cmdline)
           (st := initial_state argv0) (st' := (a, g)).
  - intros c arg [a0 g0] [a1 g1] Hc Hcall. simpl.
    apply has_option_options_of in Hc.
    eapply wf_set_tmpdata_cases; eassumption.
  - intros a0 g0 e _ HP. exact HP.
  - apply argp_parse_ok. exact Hp.
  - simpl. apply wf_all_unset.
Qed.

Lemma traced_after_parse (Q : BG_ENVDATA -> Prop) write_mode a g w :
  merges_to Q a g w ->
  traced (carries Q false) (after_parse write_mode a g) w.
Proof.
  intros [HQfile HQslot]. unfold after_parse.
  destruct (output_to_file a); cbn [negb].
  - eapply traced_weaken;
      [apply carries_shown | apply emits_write_file; exact HQfile].
  - apply traced_bind; [apply emits_bgenv_init; exact I|].
    intros initialised w1 Hinit.
    assert (Hw1 : config_parts w1 = config_parts w).
    { unfold bgenv_init in Hinit. inversion Hinit; subst. reflexivity. }
    destruct initialised; cbn [negb]; [|apply emits_return_main].
    apply traced_bind; [apply emits_dump_parts; intros; exact I|].
    intros [] w2 Hdump.
    assert (Hw2 : config_parts w2 = config_parts w).
    { rewrite <- Hw1.
      rewrite <- (config_parts_dump_parts (verbosity g)
                    (seq 0 ENV_NUM_CONFIG_PARTS) w1).
      rewrite Hdump. reflexivity. }
    apply traced_bind; [|intros; apply emits_ret].
    destruct write_mode; simpl when; [|apply emits_ret].
    eapply traced_weaken; [apply carries_shown|].
    apply traced_write_slot. intros a' env w3. apply HQslot. exact Hw2.
Qed.

Lemma traced_main_prog (Q : BG_ENVDATA -> Prop) argv0 cmdline w :
  (forall a g,
      argp_parse (options_of argv0) cmdline (initial_state argv0)
        = (Returns 0, (a, g)) ->
      merges_to Q a g w) ->
  traced (carries Q false) (main_prog argv0 cmdline) w.
Proof.
  intros HQ. unfold main_prog.
  change (argp_parse _ cmdline _)
    with (argp_parse (options_of argv0) cmdline (initial_state argv0)).
  destruct (argp_parse (options_of argv0) cmdline (initial_state argv0))
    as [[e|status] [a g]] eqn:Hp; [|apply emits_return_main].
  destruct (e =? 0) eqn:He; cbn [negb]; [|apply emits_return_main].
  apply Z.eqb_eq in He. subst e.
  apply traced_after_parse, HQ. reflexivity.
Qed.

Lemma traced_main (P : event -> Prop) argv0 cmdline w :
  traced P (main_prog argv0 cmdline) w ->
  exists evs,
    trace (snd (main argv0 cmdline w)) = trace w ++ evs /\ Forall P evs.
Proof.
  intros [evs [Ht HP]]. exists evs. split; [|exact HP].
  rewrite <- Ht. unfold main.
  destruct (main_prog argv0 cmdline w) as [[r|code] w']; reflexivity.
Qed.

Lemma merges_to_crc_valid argv0 cmdline a g w :
  wf_world w ->
  argp_parse (options_of argv0) cmdline (initial_state argv0)
    = (Returns 0, (a, g)) ->
  merges_to crc_valid a g w.
Proof.
  intros Hw Hp. assert (Wa := wf_parsed _ _ _ _ Hp). split.
  - apply crc_valid_merged; [apply wf_memset_BG_ENVDATA | exact Wa].
  - intros w1 a' env w2 Hparts Hopen.
    assert (Hw1 : wf_world w1) by (unfold wf_world; rewrite Hparts; exact Hw).
    destruct (wf_opened _ _ _ _ _ _ Hw1 Wa Hopen).
    apply crc_valid_merged; assumption.
Qed.

(** C7. After every merge the integrity field of the record is the CRC-32
    of the bytes before it, the image of every other field in field order.
    Whatever a run shows after a merge, hands to the slot store or writes to
    the output file carries the recomputed value. *)
Theorem integrity_recomputed :
  (forall d s,
      wf_BG_ENVDATA d -> wf_BG_ENVDATA s ->
      crc32 (merged d s) = zlib.crc32 0 (payload_bytes (merged d s)) /\
      payload_bytes (merged d s) =
        firstn (sizeof_BG_ENVDATA - 4) (bytes_of (merged d s))) /\
  (forall a g w,
      wf_world w -> wf_BG_ENVDATA (tmpdata a) ->
      traced (carries crc_valid true) (write_slot a g) w) /\
  (forall a g w,
      wf_BG_ENVDATA (tmpdata a) ->
      traced (carries crc_valid true) (write_file a g) w) /\
  (forall argv0 cmdline w,
      wf_world w ->
      exists evs,
        trace (snd (main argv0 cmdline w)) = trace w ++ evs /\
        Forall (carries crc_valid false) evs).
Proof.
  split; [|split; [|split]].
  - intros d s Wd Ws. split.
    + apply crc_valid_merged; assumption.
    + symmetry. apply firstn_bytes_of, wf_merged; assumption.
  - intros a g w Hw Ha. apply traced_write_slot. intros a' env w1 Hopen.
    destruct (wf_opened _ _ _ _ _ _ Hw Ha Hopen).
    apply crc_valid_merged; assumption.
  - intros a g w Ha. apply emits_write_file.
    apply crc_valid_merged; [apply wf_memset_BG_ENVDATA | exact Ha].
  - intros argv0 cmdline w Hw. apply traced_main, traced_main_prog.
    intros a g. apply merges_to_crc_valid. exact Hw.
Qed.

(** ** Output to a file *)

Lemma file_flags_frame c arg a g a' g' :
  has_option options_setenv c = true ->
  parse_opt (KEY c) arg (a, g) = (Returns 0, (a', g')) ->
  c <> "f"%char ->
  output_to_file a' = output_to_file a /\ envfilepath g' = envfilepath g.
Proof.
  intros Hc Hp Hnf.
  destruct (parse_opt_ok_cases _ _ _ _ _ _ Hc Hp)
    as [C|[C|[C|[C|[C|[C|[C|[C|[C|C]]]]]]]]].
  - destruct C as (_ & _ & -> & ->). auto.
  - destruct C as (_ & _ & -> & ->). auto.
  - destruct C as (_ & i & e & _ & -> & ->). auto.
  - destruct C as (_ & e & -> & ->). auto.
  - destruct C as (_ & v & e & _ & -> & ->). auto.
  - destruct C as (E & _). contradiction.
  - destruct C as (_ & _ & e & -> & ->). auto.
  - destruct C as (_ & -> & ->). auto.
  - destruct C as (_ & _ & -> & ->). auto.
  - destruct C as (_ & -> & ->). auto.
Qed.

(** After a successful parse the output path comes from the last -f of the
    command line; without a -f the file mode is as before the parse. *)
Lemma output_file_path argv0 cmdline st st' :
  parse_options (options_of argv0) cmdline st = (Returns 0, st') ->
  (exists dir,
      In (Opt "f" dir) cmdline /\ output_to_file (fst st') = true /\
      envfilepath (snd st') = Some (dir ++ "/" ++ FAT_ENV_FILENAME)%string) \/
  ((forall dir, ~ In (Opt "f" dir) cmdline) /\
   output_to_file (fst st') = output_to_file (fst st) /\
   envfilepath (snd st') = envfilepath (snd st)).
Proof.
  revert st. induction cmdline as [|item rest IH]; intros st Hp.
  - simpl in Hp. inversion Hp; subst. right. auto.
  - apply parse_options_cons_ok in Hp. destruct Hp as [st1 [Hd Hrest]].
    destruct (IH st1 Hrest) as [[dir [Hin [Ho He]]] | [Hno [Ho He]]].
    + left. exists dir. split; [right; exact Hin | auto].
    + apply deliver_ok in Hd.
      destruct Hd as [(c & arg & -> & Hc & Hcall)|[Hn (e & _ & ->)]].
      2:{ right. split; [|rewrite Ho, He; auto].
          intros dir [E|Hin]; [exact (Hn _ _ E) | apply (Hno dir Hin)]. }
      apply has_option_options_of in Hc.
      destruct st as [a g], st1 as [a1 g1]. cbn [fst snd] in *.
      destruct (ascii_dec c "f") as [->|Hnf].
      * left. exists arg. split; [left; reflexivity|].
        rewrite parse_opt_f in Hcall. inversion Hcall; subst a1 g1.
        rewrite Ho, He. auto.
      * right. destruct (file_flags_frame _ _ _ _ _ _ Hc Hcall Hnf) as [E1 E2].
        split; [|rewrite Ho, He; auto].
        intros dir [E|Hin]; [inversion E; congruence | apply (Hno dir Hin)].
Qed.

(** What [write_file] does, call by call: the file is opened when the
    record is not shown, or is shown and can be printed. *)
Lemma write_file_run a g w :
  let r := merged (memset_BG_ENVDATA 0) (tmpdata a) in
  let passed := negb (verbosity g) || printable r in
  finish (write_file a g w) =
  ((if passed
    then if fopen_ok w
         then if fclose_ok w
              then match fwrite_errno w with Some e => e | None => 0 end
              else 1
         else 1
    else killed),
   mk_world (bgenv_init_ok w) (config_parts w) (bgenv_write_ok w)
     (bgenv_close_ok w) (fopen_ok w) (fwrite_errno w) (fclose_ok w)
     (trace w ++
      (if verbosity g then [call_dump_env r] else []) ++
      (if passed
       then call_fopen (envfilepath g) ::
            (if fopen_ok w then [call_fwrite (bytes_of r); call_fclose]
             else [])
       else []))).
Proof.
  intros r. unfold write_file. fold r.
  unfold bind, when, dump_env, fopen, fwrite, fclose, ret, log, finish.
  destruct (verbosity g), (printable r), (fopen_ok w) eqn:Hopen,
    (fclose_ok w) eqn:Hclose;
    cbn [bgenv_init_ok config_parts bgenv_write_ok bgenv_close_ok fopen_ok
         fwrite_errno fclose_ok trace fst snd app];
    rewrite ?Hopen, ?Hclose;
    cbn [bgenv_init_ok config_parts bgenv_write_ok bgenv_close_ok fopen_ok
         fwrite_errno fclose_ok trace fst snd app];
    rewrite ?Hopen, ?Hclose;
    repeat rewrite <- app_assoc; try reflexivity.
Qed.



(** ** Auto-update *)

Lemma appended_appended w evs evs' :
  appended (appended w evs) evs' = appended w (evs ++ evs').
Proof. unfold appended; simpl. rewrite app_assoc. reflexivity. Qed.

(** When every slot of the loop can be read, and printed where it is
    shown, the loop runs to its end and leaves the slots as they are. *)
Lemma dump_parts_readable verbose indices w :
  (forall i, In i indices ->
     exists d, nth_error (config_parts w) i = Some (Some d) /\
               (verbose = true -> printable d = true)) ->
  exists evs, dump_parts verbose indices w = (Continue tt, appended w evs).
Proof.
  revert w. induction indices as [|i rest IH]; intros w Hread.
  - exists []. unfold appended. rewrite app_nil_r. destruct w; reflexivity.
  - destruct (Hread i (or_introl eq_refl)) as [d [Hd Hprint]].
    assert (Hget : bgenv_get_by_index (Z.of_nat i) w =
                   (Continue (Some (mk_BGENV i d)),
                    appended w [call_bgenv_get_by_index (Z.of_nat i)])).
    { unfold bgenv_get_by_index.
      replace (Z.of_nat i <? 0) with false by (symmetry; apply Z.ltb_ge; lia).
      rewrite Nat2Z.id, Hd. reflexivity. }
    simpl dump_parts. unfold bind at 1. rewrite Hget.
    unfold bind at 1.
    assert (Hwhen : exists evs1,
               when verbose (dump_env (data (mk_BGENV i d)))
                 (appended w [call_bgenv_get_by_index (Z.of_nat i)])
               = (Continue tt, appended w evs1)).
    { destruct verbose; simpl when.
      - eexists. unfold dump_env. cbn [data]. rewrite (Hprint eq_refl).
        change (log ?ev ?x) with (appended x [ev]).
        rewrite appended_appended. reflexivity.
      - eexists. reflexivity. }
    destruct Hwhen as [evs1 ->].
    unfold bind at 1, bgenv_close at 1.
    change (log ?ev ?x) with (appended x [ev]). rewrite appended_appended.
    destruct (IH (appended w (evs1 ++ [call_bgenv_close (mk_BGENV i d)])))
      as [evs2 Hrest].
    { intros j Hj. apply Hread. right. exact Hj. }
    rewrite Hrest, appended_appended. eexists. reflexivity.
Qed.

Lemma write_slot_auto_update a g w cur new :
  auto_update g = true ->
  latest_slot (config_parts w) = Some cur ->
  oldest_slot (config_parts w) = Some new ->
  bgenv_write_ok w = true ->
  (verbosity g = true ->
   printable (merged (data cur)
                (set_revision (tmpdata a)
                   (to_uint32 (revision (data cur) + 1)))) = true) ->
  config_parts (snd (write_slot a g w)) =
  replace_nth (desc new)
    (Some (merged (data cur)
             (set_revision (tmpdata a)
                (to_uint32 (revision (data cur) + 1)))))
    (config_parts w).
Proof.
  intros Hauto Hl Ho Hw Hprint. unfold write_slot, open_slot. rewrite Hauto.
  unfold open_auto_update, bind, bgenv_get_latest, bgenv_get_oldest,
    bgenv_close, bgenv_write, when, dump_env, ret, return_main, log,
    set_config_parts.
  cbn [config_parts bgenv_write_ok bgenv_close_ok trace fst snd].
  rewrite Hl. cbn [config_parts]. rewrite Ho.
  cbn [config_parts bgenv_write_ok bgenv_close_ok trace fst snd tmpdata
       set_tmpdata desc data].
  destruct (verbosity g); [rewrite (Hprint eq_refl)|];
    cbn [config_parts bgenv_write_ok bgenv_close_ok trace fst snd];
    rewrite Hw; cbn [negb config_parts bgenv_close_ok snd];
    destruct (bgenv_close_ok w); reflexivity.
Qed.

Lemma after_parse_slot_mode a g w :
  output_to_file a = false -> bgenv_init_ok w = true ->
  (forall i, (i < ENV_NUM_CONFIG_PARTS)%nat ->
     exists d, nth_error (config_parts w) i = Some (Some d) /\
               (verbosity g = true -> printable d = true)) ->
  exists evs,
    snd (after_parse true a g w) = snd (write_slot a g (appended w evs)).
Proof.
  intros Hf Hinit Hread. unfold after_parse. rewrite Hf. cbn [negb].
  unfold bind at 1, bgenv_init at 1. rewrite Hinit. cbn [negb].
  change (log ?ev ?x) with (appended x [ev]).
  destruct (dump_parts_readable (verbosity g) (seq 0 ENV_NUM_CONFIG_PARTS)
              (appended w [call_bgenv_init])) as [evs Hdump].
  { intros i Hi. apply in_seq in Hi. apply Hread. lia. }
  unfold bind at 1. rewrite Hdump, appended_appended.
  exists ([call_bgenv_init] ++ evs). simpl when.
  unfold bind at 1.
  destruct (write_slot a g (appended w ([call_bgenv_init] ++ evs)))
    as [[[]|code] w2]; reflexivity.
Qed.

(** C3. Auto-update carry-forward.  Two slots with revisions 5 and 2, a
    change in which only the update state is staged, as TESTING, whatever
    revision the command line gave; the run is not verbose, or the two
    records can be printed.  After the run the slot that held revision 2
    holds revision 6, update state TESTING, and the kernel path, the kernel
    arguments and the watchdog timeout of the slot with revision 5, under a
    recomputed integrity value.  It holds the merge of the change, its
    revision set to the latest revision plus one, into a copy of the latest
    record. *)
Theorem auto_update_carry_forward argv0 cmdline a g w L O :
  ENV_NUM_CONFIG_PARTS = 2%nat ->
  strstr argv0 "bg_setenv" = true ->
  argp_parse (options_of argv0) cmdline (initial_state argv0)
    = (Returns 0, (a, g)) ->
  auto_update g = true -> output_to_file a = false ->
  only_ustate_staged (tmpdata a) USTATE_TESTING ->
  config_parts w = [Some L; Some O] ->
  wf_BG_ENVDATA L -> revision L = 5 -> revision O = 2 ->
  bgenv_init_ok w = true -> bgenv_write_ok w = true ->
  (verbosity g = true -> printable L = true /\ printable O = true) ->
  exists O',
    config_parts (snd (main argv0 cmdline w)) = [Some L; Some O'] /\
    O' = merged L (set_revision (tmpdata a) (to_uint32 (revision L + 1))) /\
    revision O' = 6 /\
    ustate O' = USTATE_TESTING /\
    kernelfile O' = kernelfile L /\
    kernelparams O' = kernelparams L /\
    watchdog_timeout_sec O' = watchdog_timeout_sec L /\
    crc_valid O'.
Proof.
  intros HK Hmode Hp Hauto Hf (Hkf & Hkp & Hwd & Hus) Hparts WL HrL HrO
    Hinit Hwrite Hshown.
  assert (Wa : wf_BG_ENVDATA (tmpdata a)) by (eapply wf_parsed; exact Hp).
  set (O' := merged L (set_revision (tmpdata a) (to_uint32 (revision L + 1)))).
  assert (Hfields : revision O' = 6 /\ ustate O' = USTATE_TESTING /\
                    kernelfile O' = kernelfile L /\
                    kernelparams O' = kernelparams L /\
                    watchdog_timeout_sec O' = watchdog_timeout_sec L /\
                    crc_valid O').
  { unfold O'. rewrite (merged_finalize L) by assumption.
    unfold finalize, copied.
    cbn [revision ustate kernelfile kernelparams watchdog_timeout_sec
         set_crc32 set_revision].
    rewrite Hkf, Hkp, Hwd, Hus, HrL, all_unset_fields.
    cbn [kernelfile kernelparams watchdog_timeout_sec].
    destruct WL as [WL1 WL2].
    rewrite (unset_text_field _ WL1), (unset_text_field _ WL2).
    repeat split. }
  assert (Hprint : verbosity g = true -> printable O' = true).
  { intros Hv. destruct (Hshown Hv) as [HL _].
    destruct Hfields as (_ & Hu & Hk & Hkp' & _).
    unfold printable in *. rewrite Hk, Hkp', Hu.
    destruct (str16to8 (kernelfile L)); [|discriminate].
    destruct (str16to8 (kernelparams L)); [|discriminate].
    reflexivity. }
  rewrite (main_after_parse _ _ _ _ w Hp), Hmode.
  destruct (after_parse_slot_mode a g w Hf Hinit) as [evs Hrun].
  { intros i Hi. rewrite Hparts, HK in *.
    destruct i as [|[|i]]; [| |lia]; eexists; (split; [reflexivity|]);
      intros Hv; apply (Hshown Hv). }
  assert (Hsnd : forall r, snd (finish r) = snd r)
    by (intros [[x|code] w1]; reflexivity).
  rewrite Hsnd, Hrun.
  assert (Hl : latest_slot (config_parts (appended w evs))
               = Some (mk_BGENV 0 L)).
  { cbn [appended config_parts]. rewrite Hparts. unfold latest_slot. simpl.
    rewrite HrL, HrO. reflexivity. }
  assert (Ho : oldest_slot (config_parts (appended w evs))
               = Some (mk_BGENV 1 O)).
  { cbn [appended config_parts]. rewrite Hparts. unfold oldest_slot. simpl.
    rewrite HrL, HrO. reflexivity. }
  rewrite (write_slot_auto_update a g _ _ _ Hauto Hl Ho Hwrite Hprint).
  cbn [appended config_parts desc data]. rewrite Hparts. cbn [replace_nth].
  exists O'. split; [reflexivity|]. split; [reflexivity|]. exact Hfields.
Qed.

(** ** Confirm *)

Lemma nth_bytes_of_ustate (e : BG_ENVDATA) :
  wf_BG_ENVDATA e -> nth offsetof_ustate (bytes_of e) 0 = ustate e mod 256.
Proof.
  intros [Hf Hp]. unfold bytes_of, payload_bytes, offsetof_ustate.
  assert (Lf := length_flat_map_le16 (kernelfile e)).
  assert (Lp := length_flat_map_le16 (kernelparams e)).
  rewrite app_nth1 by (rewrite !length_app, Lf, Lp; simpl; lia).
  rewrite app_nth2 by lia. rewrite app_nth2 by lia.
  replace (4 * ENV_STRING_LENGTH - List.length (flat_map le16 (kernelfile e))
           - List.length (flat_map le16 (kernelparams e)))%nat
    with 0%nat by lia.
  reflexivity.
Qed.

(** Copying a text into a text field leaves a zero update state zero: the
    copy either ends before the update state, or reaches it with the
    terminator. *)
Lemma ustate_memcpy_into_text (e : BG_ENVDATA) (off : nat) (arg : string) :
  wf_BG_ENVDATA e -> ustate e = 0 ->
  (off + 2 * strlen arg <= offsetof_ustate)%nat ->
  ustate (memcpy_into e off (staged_text arg)) = 0.
Proof.
  intros We Hu Hoff. unfold memcpy_into, of_bytes. cbn [ustate].
  unfold read8. rewrite nth_poke
    by (unfold offsetof_ustate, sizeof_BG_ENVDATA; lia).
  destruct ((off <=? offsetof_ustate) &&
            (offsetof_ustate <? off + List.length (staged_text arg)))%nat.
  - apply staged_text_tail. lia.
  - rewrite nth_bytes_of_ustate by exact We. rewrite Hu. reflexivity.
Qed.

Lemma confirmed_step c arg a g a' g' :
  has_option options_setenv c = true ->
  parse_opt (KEY c) arg (a, g) = (Returns 0, (a', g')) ->
  c <> "s"%char ->
  wf_BG_ENVDATA (tmpdata a) /\ ustate (tmpdata a) = 0 ->
  wf_BG_ENVDATA (tmpdata a') /\ ustate (tmpdata a') = 0.
Proof.
  intros Hc Hp Hns [Wa Hu].
  split; [eapply wf_set_tmpdata_cases; eassumption|].
  destruct (parse_opt_ok_cases _ _ _ _ _ _ Hc Hp)
    as [C|[C|[C|[C|[C|[C|[C|[C|[C|C]]]]]]]]].
  - destruct C as (_ & Hlen & _ & ->). cbn [tmpdata set_tmpdata].
    apply ustate_memcpy_into_text; try assumption.
    unfold offsetof_kernelfile, offsetof_ustate. lia.
  - destruct C as (_ & Hlen & _ & ->). cbn [tmpdata set_tmpdata].
    apply ustate_memcpy_into_text; try assumption.
    unfold offsetof_kernelparams, offsetof_ustate. lia.
  - destruct C as (_ & i & e & _ & -> & _). exact Hu.
  - destruct C as (_ & e & -> & _). exact Hu.
  - destruct C as (E & _). contradiction.
  - destruct C as (_ & -> & _). exact Hu.
  - destruct C as (_ & _ & e & -> & _). exact Hu.
  - destruct C as (_ & _ & ->). reflexivity.
  - destruct C as (_ & _ & -> & _). exact Hu.
  - destruct C as (_ & -> & _). exact Hu.
Qed.

Lemma ustate_merged_ok (d s : BG_ENVDATA) :
  ustate s = USTATE_OK -> ustate (merged d s) = USTATE_OK.
Proof.
  intros Hu. rewrite merged_copied. unfold copied; simpl.
  rewrite Hu. reflexivity.
Qed.

(** With confirm behind every status flag the staged update state is
    OK. *)
Lemma confirm_staged argv0 pre arg post a g :
  (forall x, ~ In (Opt "s" x) post) ->
  argp_parse (options_of argv0) (pre ++ Opt "c" arg :: post)
    (initial_state argv0) = (Returns 0, (a, g)) ->
  ustate (tmpdata a) = USTATE_OK.
Proof.
  intros Hns Hp. apply argp_parse_ok in Hp.
  apply parse_options_app_ok in Hp. destruct Hp as [[a1 g1] [Hpre Hp]].
  assert (W1 : wf_BG_ENVDATA (tmpdata a1)).
  { apply (parse_options_invariant
             (fun st => wf_BG_ENVDATA (tmpdata (fst st)))
             (options_of argv0)) with (cmdline := pre)
             (st := initial_state argv0) (st' := (a1, g1)).
    - intros c x [a0 g0] [a2 g2] Hc Hcall. simpl.
      apply has_option_options_of in Hc.
      eapply wf_set_tmpdata_cases; eassumption.
    - intros a0 g0 e _ HP. exact HP.
    - exact Hpre.
    - simpl. apply wf_all_unset. }
  apply parse_options_cons_ok in Hp. destruct Hp as [[a2 g2] [Hd Hpost]].
  apply deliver_Opt_ok in Hd. destruct Hd as [_ Hcall].
  rewrite parse_opt_c in Hcall.
  inversion Hcall; subst a2 g2.
  assert (Hinv : wf_BG_ENVDATA (tmpdata (fst (a, g))) /\
                 ustate (tmpdata (fst (a, g))) = 0).
  { apply (parse_options_invariant_In
             (fun st => wf_BG_ENVDATA (tmpdata (fst st)) /\
                        ustate (tmpdata (fst st)) = 0)
             (options_of argv0) post)
      with (st := (set_tmpdata a1 (set_ustate (tmpdata a1) 0), g1)).
    - intros c x [a0 g0] [a3 g3] Hin Hc Hcall' Hinv. cbn [fst] in *.
      apply has_option_options_of in Hc.
      eapply confirmed_step; try eassumption.
      intros ->. apply (Hns x Hin).
    - intros a0 g0 e _ HP. exact HP.
    - exact Hpost.
    - cbn [fst tmpdata set_tmpdata ustate set_ustate].
      split; [exact W1 | reflexivity]. }
  apply Hinv.
Qed.

(** C1, amended. Confirm and an explicit update status: when confirm comes
    after every status flag of the command line, the staged update state is
    OK, every merge of the staged change yields a record with update state
    OK, and so does every record the run hands to the slot store or writes
    to the output file. *)
Theorem confirm_after_status_wins argv0 pre arg post :
  (forall x, ~ In (Opt "s" x) post) ->
  (forall a g,
      argp_parse (options_of argv0) (pre ++ Opt "c" arg :: post)
        (initial_state argv0) = (Returns 0, (a, g)) ->
      ustate (tmpdata a) = USTATE_OK /\
      forall d, ustate (merged d (tmpdata a)) = USTATE_OK) /\
  (forall w,
      exists evs,
        trace (snd (main argv0 (pre ++ Opt "c" arg :: post) w)) =
          trace w ++ evs /\
        Forall (carries (fun d => ustate d = USTATE_OK) false) evs).
Proof.
  intros Hns. split.
  - intros a g Hp.
    assert (Hu := confirm_staged _ _ _ _ _ _ Hns Hp).
    split; [exact Hu|]. intros d. apply ustate_merged_ok. exact Hu.
  - intros w. apply traced_main, traced_main_prog. intros a g Hp.
    assert (Hu := confirm_staged _ _ _ _ _ _ Hns Hp). split.
    + apply ustate_merged_ok. exact Hu.
    + intros w1 a' env w2 _ Hopen. apply opened_slot in Hopen.
      destruct Hopen as [_ [E | [v E]]]; rewrite E;
        apply ustate_merged_ok; exact Hu.
Qed.

(** ** Verbosity *)

Ltac split_ifs :=
  repeat match goal with
         | |- context [if ?b then _ else _] => destruct b
         | |- context [match ?o with Some _ => _ | None => _ end] => destruct o
         end.

(** No case of [parse_opt] reads the verbosity. *)
Lemma parse_opt_quiet c arg a g1 g2 :
  has_option options_setenv c = true ->
  quiet g1 = quiet g2 ->
  fst (parse_opt (KEY c) arg (a, g1)) = fst (parse_opt (KEY c) arg (a, g2)) /\
  fst (snd (parse_opt (KEY c) arg (a, g1))) =
    fst (snd (parse_opt (KEY c) arg (a, g2))) /\
  quiet (snd (snd (parse_opt (KEY c) arg (a, g1)))) =
    quiet (snd (snd (parse_opt (KEY c) arg (a, g2)))).
Proof.
  intros Hc Hq.
  destruct g1 as [au1 ps1 v1 p1 e1], g2 as [au2 ps2 v2 p2 e2].
  unfold quiet in Hq; simpl in Hq. inversion Hq; subst au2 ps2 p2 e2. clear Hq.
  option_cases Hc.
  - rewrite !parse_opt_k. split_ifs; auto.
  - rewrite !parse_opt_a. split_ifs; auto.
  - unfold parse_opt.
    cbn [set_errno errno auto_update part_specified verbosity envfilepath].
    split_ifs; auto.
  - rewrite !parse_opt_r. auto.
  - unfold parse_opt.
    cbn [set_errno errno auto_update part_specified verbosity envfilepath].
    split_ifs; auto.
  - rewrite !parse_opt_f. auto.
  - rewrite !parse_opt_w. split_ifs; auto.
  - rewrite !parse_opt_c. auto.
  - rewrite !parse_opt_u. cbn [part_specified]. split_ifs; auto.
  - rewrite !parse_opt_v. auto.
Qed.

Lemma deliver_quiet argv0 item a g1 g2 :
  quiet g1 = quiet g2 ->
  fst (deliver (options_of argv0) item (a, g1)) =
    fst (deliver (options_of argv0) item (a, g2)) /\
  fst (snd (deliver (options_of argv0) item (a, g1))) =
    fst (snd (deliver (options_of argv0) item (a, g2))) /\
  quiet (snd (snd (deliver (options_of argv0) item (a, g1)))) =
    quiet (snd (snd (deliver (options_of argv0) item (a, g2)))).
Proof.
  intros Hq. destruct item as [c arg| |arg|name|secs]; simpl.
  - destruct (Ascii.eqb c "?"); [auto|].
    destruct (has_option (options_of argv0) c) eqn:Hc; [|auto].
    apply parse_opt_quiet; [apply (has_option_options_of argv0), Hc | exact Hq].
  - auto.
  - auto.
  - auto.
  - assert (He : errno g1 = errno g2) by exact (f_equal errno Hq).
    rewrite He. split; [reflexivity|]. split; [reflexivity|].
    destruct g1, g2. unfold quiet in *. cbn in *. congruence.
Qed.

(** The parse does not look at the verbosity. *)
Lemma parse_options_quiet argv0 items a g1 g2 :
  quiet g1 = quiet g2 ->
  fst (parse_options (options_of argv0) items (a, g1)) =
    fst (parse_options (options_of argv0) items (a, g2)) /\
  fst (snd (parse_options (options_of argv0) items (a, g1))) =
    fst (snd (parse_options (options_of argv0) items (a, g2))) /\
  quiet (snd (snd (parse_options (options_of argv0) items (a, g1)))) =
    quiet (snd (snd (parse_options (options_of argv0) items (a, g2)))).
Proof.
  revert a g1 g2. induction items as [|item rest IH]; intros a g1 g2 Hq.
  - simpl. auto.
  - simpl. destruct (deliver_quiet argv0 item a g1 g2 Hq) as (Ho & Ha & Hg).
    destruct (deliver (options_of argv0) item (a, g1)) as [o1 [a1 g1']].
    destruct (deliver (options_of argv0) item (a, g2)) as [o2 [a2 g2']].
    simpl in Ho, Ha, Hg. subst o2 a2.
    destruct o1 as [e|x]; [|auto]. destruct e; auto.
Qed.

Lemma has_option_v argv0 : has_option (options_of argv0) "v" = true.
Proof. unfold options_of. destruct (strstr argv0 "bg_setenv"); reflexivity. Qed.

Lemma deliver_v argv0 x a g :
  deliver (options_of argv0) (Opt "v" x) (a, g) =
  (Returns 0,
   (a, mk_globals (auto_update g) (part_specified g) true (envfilepath g)
         (errno g))).
Proof.
  unfold deliver. change (Ascii.eqb "v" "?") with false. cbv iota.
  rewrite has_option_v. apply parse_opt_v.
Qed.

(** An option -v somewhere in the items changes the verbosity at most. *)
Lemma parse_options_verbose argv0 pre x post st :
  fst (parse_options (options_of argv0) (pre ++ Opt "v" x :: post) st) =
    fst (parse_options (options_of argv0) (pre ++ post) st) /\
  fst (snd (parse_options (options_of argv0) (pre ++ Opt "v" x :: post) st)) =
    fst (snd (parse_options (options_of argv0) (pre ++ post) st)) /\
  quiet (snd (snd (parse_options (options_of argv0)
                     (pre ++ Opt "v" x :: post) st))) =
    quiet (snd (snd (parse_options (options_of argv0) (pre ++ post) st))).
Proof.
  rewrite !parse_options_app.
  destruct (parse_options (options_of argv0) pre st) as [[e|s] [a1 g1]];
    [|auto].
  destruct e; auto.
  change (parse_options (options_of argv0) (Opt "v" x :: post) (a1, g1))
    with (match deliver (options_of argv0) (Opt "v" x) (a1, g1) with
          | (Returns 0, st') => parse_options (options_of argv0) post st'
          | stopped => stopped
          end).
  rewrite deliver_v. apply parse_options_quiet. reflexivity.
Qed.

Lemma filter_option_verbose pre x post :
  filter is_option (pre ++ Opt "v" x :: post) =
  filter is_option pre ++ Opt "v" x :: filter is_option post.
Proof. rewrite filter_app. reflexivity. Qed.

Lemma filter_positional_verbose pre x post :
  filter (fun item => negb (is_option item)) (pre ++ Opt "v" x :: post) =
  filter (fun item => negb (is_option item)) (pre ++ post).
Proof. rewrite !filter_app. reflexivity. Qed.

Lemma argp_parse_verbose argv0 pre x post st :
  fst (argp_parse (options_of argv0) (pre ++ Opt "v" x :: post) st) =
    fst (argp_parse (options_of argv0) (pre ++ post) st) /\
  fst (snd (argp_parse (options_of argv0) (pre ++ Opt "v" x :: post) st)) =
    fst (snd (argp_parse (options_of argv0) (pre ++ post) st)) /\
  quiet (snd (snd (argp_parse (options_of argv0)
                     (pre ++ Opt "v" x :: post) st))) =
    quiet (snd (snd (argp_parse (options_of argv0) (pre ++ post) st))).
Proof.
  unfold argp_parse.
  rewrite filter_option_verbose, filter_positional_verbose.
  rewrite (filter_app is_option pre post).
  destruct (parse_options_verbose argv0 (filter is_option pre) x
              (filter is_option post) st) as (Ho & Ha & Hg).
  destruct (parse_options (options_of argv0)
              (filter is_option pre ++ Opt "v" x :: filter is_option post) st)
    as [o1 [a1 g1]].
  destruct (parse_options (options_of argv0)
              (filter is_option pre ++ filter is_option post) st)
    as [o2 [a2 g2]].
  simpl in Ho, Ha, Hg. subst o2 a2.
  destruct o1 as [e|s]; [|auto]. destruct e; auto.
  apply parse_options_quiet. exact Hg.
Qed.


Lemma quiet_world_log ev w :
  quiet_world (log ev w) =
  if is_dump ev then quiet_world w else log ev (quiet_world w).
Proof.
  unfold quiet_world, log. cbn [trace bgenv_init_ok config_parts
    bgenv_write_ok bgenv_close_ok fopen_ok fwrite_errno fclose_ok].
  rewrite filter_app. cbn [filter]. destruct (is_dump ev); cbn [negb].
  - rewrite app_nil_r. reflexivity.
  - reflexivity.
Qed.

Lemma quiet_world_set_config_parts w ps :
  quiet_world (set_config_parts w ps) = set_config_parts (quiet_world w) ps.
Proof. reflexivity. Qed.

Lemma agree_ret {A : Type} (x : A) : agree (ret x) (ret x).
Proof. intros w1 w2 Hq. left. split; [reflexivity | exact Hq]. Qed.

Lemma agree_return_main {A : Type} code :
  agree (@return_main A code) (return_main code).
Proof. intros w1 w2 Hq. left. split; [reflexivity | exact Hq]. Qed.

Lemma agree_bind {A B : Type} (m1 m2 : prog A) (k1 k2 : A -> prog B) :
  agree m1 m2 -> (forall x, agree (k1 x) (k2 x)) ->
  agree (bind m1 k1) (bind m2 k2).
Proof.
  intros Hm Hk w1 w2 Hq. unfold bind.
  destruct (Hm w1 w2 Hq) as [[Hr Hw]|[Hcode Hlast]].
  - destruct (m1 w1) as [r1 w1'], (m2 w2) as [r2 w2'].
    cbn [fst snd] in Hr, Hw. subst r2.
    destruct r1 as [x|code].
    + apply Hk, Hw.
    + left. split; [reflexivity | exact Hw].
  - destruct (m1 w1) as [r1 w1']. cbn [fst snd] in Hcode, Hlast. subst r1.
    right. split; [reflexivity | exact Hlast].
Qed.

(** A call that is recorded and whose result is read off the world without
    its trace. *)
Lemma agree_call {A : Type} (f : world -> A) ev :
  is_dump ev = false ->
  (forall w, f (quiet_world w) = f w) ->
  agree (fun w => (Continue (f w), log ev w))
        (fun w => (Continue (f w), log ev w)).
Proof.
  intros Hev Hf w1 w2 Hq. left. cbn [fst snd]. split.
  - rewrite <- (Hf w1), <- (Hf w2), Hq. reflexivity.
  - rewrite !quiet_world_log, Hev, Hq. reflexivity.
Qed.

Lemma agree_bgenv_init : agree bgenv_init bgenv_init.
Proof. apply (agree_call bgenv_init_ok); reflexivity. Qed.

Lemma agree_bgenv_get_by_index i :
  agree (bgenv_get_by_index i) (bgenv_get_by_index i).
Proof.
  apply (agree_call
           (fun w => if i <? 0 then None
                     else match nth_error (config_parts w) (Z.to_nat i) with
                          | Some (Some d) => Some (mk_BGENV (Z.to_nat i) d)
                          | _ => None
                          end)); reflexivity.
Qed.

Lemma agree_bgenv_get_latest : agree bgenv_get_latest bgenv_get_latest.
Proof.
  apply (agree_call (fun w => latest_slot (config_parts w))); reflexivity.
Qed.

Lemma agree_bgenv_get_oldest : agree bgenv_get_oldest bgenv_get_oldest.
Proof.
  apply (agree_call (fun w => oldest_slot (config_parts w))); reflexivity.
Qed.

Lemma agree_bgenv_close env : agree (bgenv_close env) (bgenv_close env).
Proof. apply (agree_call bgenv_close_ok); reflexivity. Qed.

Lemma agree_fopen path : agree (fopen path) (fopen path).
Proof. apply (agree_call fopen_ok); reflexivity. Qed.

Lemma agree_fwrite bytes : agree (fwrite bytes) (fwrite bytes).
Proof. apply (agree_call fwrite_errno); reflexivity. Qed.

Lemma agree_fclose : agree fclose fclose.
Proof. apply (agree_call fclose_ok); reflexivity. Qed.

Lemma agree_bgenv_write env : agree (bgenv_write env) (bgenv_write env).
Proof.
  intros w1 w2 Hq. left. unfold bgenv_write. cbv zeta.
  assert (Hl : quiet_world (log (call_bgenv_write env) w1) =
               quiet_world (log (call_bgenv_write env) w2))
    by (rewrite !quiet_world_log, Hq; reflexivity).
  assert (Hok : bgenv_write_ok (log (call_bgenv_write env) w1) =
                bgenv_write_ok (log (call_bgenv_write env) w2))
    by exact (f_equal bgenv_write_ok Hq).
  assert (Hps : config_parts (log (call_bgenv_write env) w1) =
                config_parts (log (call_bgenv_write env) w2))
    by exact (f_equal config_parts Hq).
  rewrite Hok.
  destruct (bgenv_write_ok (log (call_bgenv_write env) w2)); cbn [fst snd].
  - split; [reflexivity|].
    rewrite !quiet_world_set_config_parts, Hl, Hps. reflexivity.
  - split; [reflexivity | exact Hl].
Qed.

(** A record that is shown in the second run is shown in the first: the
    first is ended by [dump_env], or the two go on alike. *)
Lemma agree_dump_env (b1 b2 : bool) d :
  (b2 = true -> b1 = true) ->
  agree (when b1 (dump_env d)) (when b2 (dump_env d)).
Proof.
  intros Hb w1 w2 Hq. unfold when, dump_env, ret.
  destruct b1.
  - destruct (printable d) eqn:Hd.
    + left. destruct b2; rewrite ?Hd; cbn [fst snd];
        rewrite ?quiet_world_log; cbn [is_dump]; auto.
    + right. split; [reflexivity|]. exists (trace w1), d.
      split; [reflexivity | exact Hd].
  - destruct b2; [discriminate (Hb eq_refl)|]. left. auto.
Qed.

Lemma agree_dump_parts (v1 v2 : bool) indices :
  (v2 = true -> v1 = true) ->
  agree (dump_parts v1 indices) (dump_parts v2 indices).
Proof.
  intros Hv. induction indices as [|i rest IH]; cbn [dump_parts].
  - apply agree_ret.
  - apply agree_bind; [apply agree_bgenv_get_by_index|].
    intros [e|]; [|apply agree_return_main].
    apply agree_bind; [apply agree_dump_env, Hv|]. intros _.
    apply agree_bind; [apply agree_bgenv_close|]. intros _. exact IH.
Qed.

Lemma agree_open_slot a g1 g2 :
  quiet g1 = quiet g2 -> agree (open_slot a g1) (open_slot a g2).
Proof.
  intros Hq.
  assert (Hau : auto_update g1 = auto_update g2)
    by exact (f_equal auto_update Hq).
  assert (Hps : part_specified g1 = part_specified g2)
    by exact (f_equal part_specified Hq).
  unfold open_slot, open_auto_update, open_selected. rewrite Hau, Hps.
  destruct (auto_update g2).
  - apply agree_bind; [apply agree_bgenv_get_latest|].
    intros [cur|]; [|apply agree_return_main].
    apply agree_bind; [apply agree_bgenv_get_oldest|].
    intros [new|]; [|apply agree_return_main].
    apply agree_bind; [apply agree_bgenv_close|]. intros _. apply agree_ret.
  - apply agree_bind.
    + destruct (part_specified g2);
        [apply agree_bgenv_get_by_index | apply agree_bgenv_get_latest].
    + intros [new|]; [apply agree_ret | apply agree_return_main].
Qed.

Lemma agree_write_slot a g1 g2 :
  quiet g1 = quiet g2 -> (verbosity g2 = true -> verbosity g1 = true) ->
  agree (write_slot a g1) (write_slot a g2).
Proof.
  intros Hq Hv. unfold write_slot.
  apply agree_bind; [apply agree_open_slot, Hq|].
  intros [a' env]. cbv zeta.
  apply agree_bind; [apply agree_dump_env, Hv|]. intros _.
  apply agree_bind; [apply agree_bgenv_write|].
  intros written. destruct written; cbn [negb]; [|apply agree_return_main].
  apply agree_bind; [apply agree_bgenv_close|].
  intros closed. destruct closed; [apply agree_ret | apply agree_return_main].
Qed.

Lemma agree_write_file a g1 g2 :
  quiet g1 = quiet g2 -> (verbosity g2 = true -> verbosity g1 = true) ->
  agree (write_file a g1) (write_file a g2).
Proof.
  intros Hq Hv.
  assert (Hp : envfilepath g1 = envfilepath g2)
    by exact (f_equal envfilepath Hq).
  unfold write_file. cbv zeta. rewrite Hp.
  apply agree_bind; [apply agree_dump_env, Hv|]. intros _.
  apply agree_bind; [apply agree_fopen|].
  intros stream. destruct stream; [|apply agree_ret].
  apply agree_bind; [apply agree_fwrite|]. intros failed.
  apply agree_bind; [apply agree_fclose|]. intros closed. apply agree_ret.
Qed.

Lemma agree_after_parse mode a g1 g2 :
  quiet g1 = quiet g2 -> (verbosity g2 = true -> verbosity g1 = true) ->
  agree (after_parse mode a g1) (after_parse mode a g2).
Proof.
  intros Hq Hv. unfold after_parse.
  destruct (negb (output_to_file a)); [|apply agree_write_file; assumption].
  apply agree_bind; [apply agree_bgenv_init|].
  intros initialised. destruct initialised; cbn [negb];
    [|apply agree_return_main].
  apply agree_bind; [apply agree_dump_parts, Hv|]. intros _.
  apply agree_bind; [|intros _; apply agree_ret].
  destruct mode; cbn [when];
    [apply agree_write_slot; assumption | apply agree_ret].
Qed.

(** Once set, the verbosity stays. *)
Lemma verbosity_stays argv0 cmdline st st' :
  parse_options (options_of argv0) cmdline st = (Returns 0, st') ->
  verbosity (snd st) = true -> verbosity (snd st') = true.
Proof.
  apply (parse_options_invariant (fun st => verbosity (snd st) = true));
    [|intros a g e _ HP; exact HP].
  clear. intros c arg [a g] [a' g'] Hc Hp Hv. cbn [snd] in *.
  apply has_option_options_of in Hc.
  destruct (parse_opt_ok_cases _ _ _ _ _ _ Hc Hp)
    as [C|[C|[C|[C|[C|[C|[C|[C|[C|C]]]]]]]]].
  - destruct C as (_ & _ & -> & _). assumption.
  - destruct C as (_ & _ & -> & _). assumption.
  - destruct C as (_ & i & e & _ & _ & ->). assumption.
  - destruct C as (_ & e & _ & ->). assumption.
  - destruct C as (_ & v & e & _ & _ & ->). assumption.
  - destruct C as (_ & _ & ->). assumption.
  - destruct C as (_ & _ & e & _ & ->). assumption.
  - destruct C as (_ & -> & _). assumption.
  - destruct C as (_ & _ & _ & ->). assumption.
  - destruct C as (_ & _ & ->). reflexivity.
Qed.

Lemma verbose_parsed argv0 pre x post st a g :
  argp_parse (options_of argv0) (pre ++ Opt "v" x :: post) st
    = (Returns 0, (a, g)) ->
  verbosity g = true.
Proof.
  intros Hp. apply argp_parse_ok in Hp.
  apply parse_options_app_ok in Hp. destruct Hp as ([a1 g1] & _ & Hp).
  apply parse_options_cons_ok in Hp. destruct Hp as (st2 & Hd & Hp).
  rewrite deliver_v in Hd. inversion Hd; subst st2.
  exact (verbosity_stays _ _ _ _ Hp eq_refl).
Qed.

(** X1. -v changes what is shown, and nothing else unless it ends the
    run.  With the option, at any place of the command line, a run of
    either tool ends with the same exit code as without it, leaves the
    same slots and makes the same calls of the store and of stdio, in the
    same order; or it is ended by a call of [dump_env] on a record that
    cannot be printed. *)
Theorem verbose_only_shows argv0 pre x post w :
  let loud := main argv0 (pre ++ Opt "v" x :: post) w in
  let base := main argv0 (pre ++ post) w in
  (fst loud = fst base /\ quiet_world (snd loud) = quiet_world (snd base)) \/
  (fst loud = killed /\
   exists evs d,
     trace (snd loud) = evs ++ [call_dump_env d] /\ printable d = false).
Proof.
  cbv zeta.
  pose proof (verbose_parsed argv0 pre x post (initial_state argv0)) as Hloud.
  unfold main, main_prog. cbv zeta.
  change (if strstr argv0 "bg_setenv" then options_setenv
          else options_printenv) with (options_of argv0).
  change (mk_arguments false 0 (memset_BG_ENVDATA IGNORE_MARKER_BYTE),
          mk_globals false false (negb (strstr argv0 "bg_setenv")) None 0)
    with (initial_state argv0).
  destruct (argp_parse_verbose argv0 pre x post (initial_state argv0))
    as (Ho & Ha & Hg).
  destruct (argp_parse (options_of argv0) (pre ++ Opt "v" x :: post)
              (initial_state argv0)) as [o1 [a1 g1]].
  destruct (argp_parse (options_of argv0) (pre ++ post) (initial_state argv0))
    as [o2 [a2 g2]].
  cbn [fst snd] in Ho, Ha, Hg. subst o2 a2.
  assert (Hfin : forall m1 m2 : prog Z, agree m1 m2 ->
            (fst (finish (m1 w)) = fst (finish (m2 w)) /\
             quiet_world (snd (finish (m1 w))) =
               quiet_world (snd (finish (m2 w)))) \/
            (fst (finish (m1 w)) = killed /\
             exists evs d,
               trace (snd (finish (m1 w))) = evs ++ [call_dump_env d] /\
               printable d = false)).
  { intros m1 m2 Hm. destruct (Hm w w eq_refl) as [[Hr Hw]|[Hcode Hlast]].
    - left. destruct (m1 w) as [r1 w1], (m2 w) as [r2 w2].
      cbn [fst snd] in Hr, Hw. subst r2.
      destruct r1; cbn [finish fst snd]; auto.
    - right. destruct (m1 w) as [r1 w1]. cbn [fst snd] in Hcode, Hlast.
      subst r1. cbn [finish fst snd]. auto. }
  destruct o1 as [e|status].
  - destruct (negb (e =? 0)) eqn:He.
    + apply Hfin, agree_return_main.
    + apply Hfin, agree_after_parse; [exact Hg|]. intros _.
      apply negb_false_iff, Z.eqb_eq in He. subst e.
      exact (Hloud a1 g1 eq_refl).
  - apply Hfin, agree_return_main.
Qed.

(** ** The loop over the slots *)

Lemma log_appended ev w : log ev w = appended w [ev].
Proof. reflexivity. Qed.

Lemma appended_nil w : appended w [] = w.
Proof. unfold appended. rewrite app_nil_r. destruct w; reflexivity. Qed.

Lemma nth_error_length {A : Type} (l : list A) :
  nth_error l (List.length l) = None.
Proof. apply nth_error_None. lia. Qed.

Lemma printable_prefix_all ds :
  forallb printable ds = true -> printable_prefix ds = ds.
Proof.
  induction ds as [|d rest IH]; [reflexivity|]. cbn [forallb printable_prefix].
  intros Hall. apply andb_true_iff in Hall. destruct Hall as [Hd Hrest].
  rewrite Hd, (IH Hrest). reflexivity.
Qed.

Lemma passed_all verbose ds :
  (verbose = true -> forallb printable ds = true) -> passed verbose ds = ds.
Proof.
  intros Hall. unfold passed. destruct verbose; [|reflexivity].
  apply printable_prefix_all, Hall. reflexivity.
Qed.

(** The loop stops at the first slot that cannot be read, and when it is
    verbose it is ended at the first record that cannot be printed. *)
Lemma dump_parts_run verbose n : forall k w pre ps,
  config_parts w = pre ++ ps -> List.length pre = k ->
  dump_parts verbose (seq k n) w =
  let ds := readable_prefix n ps in
  let shown := passed verbose ds in
  match nth_error ds (List.length shown) with
  | Some d =>
      (Return_main killed,
       appended w (dump_events verbose k shown ++
                   [call_bgenv_get_by_index (Z.of_nat (k + List.length shown));
                    call_dump_env d]))
  | None =>
      if (List.length ds =? n)%nat
      then (Continue tt, appended w (dump_events verbose k ds))
      else (Return_main 1,
            appended w (dump_events verbose k ds ++
                        [call_bgenv_get_by_index
                           (Z.of_nat (k + List.length ds))]))
  end.
Proof.
  induction n as [|n IH]; intros k w pre ps Hps Hk.
  - cbn. destruct verbose; cbn; rewrite appended_nil; reflexivity.
  - cbn [seq dump_parts]. unfold bind at 1, bgenv_get_by_index at 1.
    replace (Z.of_nat k <? 0) with false by (symmetry; apply Z.ltb_ge; lia).
    rewrite Nat2Z.id, Hps, nth_error_app2 by lia.
    replace (k - List.length pre)%nat with 0%nat by lia.
    rewrite log_appended.
    destruct ps as [|[d|] rest]; cbn [nth_error readable_prefix].
    + destruct verbose; cbn; rewrite ?Nat.add_0_r; reflexivity.
    + unfold bind at 1.
      assert (Hrest : config_parts
                        (appended w [call_bgenv_get_by_index (Z.of_nat k)]) =
                      (pre ++ [Some d]) ++ rest)
        by (cbn [appended config_parts]; rewrite Hps, <- app_assoc;
            reflexivity).
      assert (Hlen : List.length (pre ++ [Some d]) = S k)
        by (rewrite length_app; cbn; lia).
      destruct verbose; cbn [when passed printable_prefix].
      * unfold dump_env. cbn [data]. destruct (printable d) eqn:Hd.
        -- unfold bind at 1, bgenv_close at 1.
           rewrite !log_appended, !appended_appended. cbn [app List.length].
           rewrite (IH (S k) _ (pre ++ [Some d]) rest) by assumption.
           cbv zeta. cbn [passed nth_error Nat.eqb].
           replace (S k + List.length
                            (printable_prefix (readable_prefix n rest)))%nat
             with (k + S (List.length
                            (printable_prefix (readable_prefix n rest))))%nat
             by lia.
           replace (S k + List.length (readable_prefix n rest))%nat
             with (k + S (List.length (readable_prefix n rest)))%nat by lia.
           destruct (nth_error (readable_prefix n rest)
                       (List.length
                          (printable_prefix (readable_prefix n rest))));
             [|destruct (List.length (readable_prefix n rest) =? n)%nat];
             rewrite appended_appended; cbn [dump_events app];
             rewrite <- ?app_assoc; reflexivity.
        -- rewrite log_appended, appended_appended. cbn [List.length nth_error].
           rewrite Nat.add_0_r. reflexivity.
      * unfold ret at 1. unfold bind at 1, bgenv_close at 1.
        rewrite !log_appended, !appended_appended. cbn [app List.length].
        rewrite (IH (S k) _ (pre ++ [Some d]) rest) by assumption.
        cbv zeta. cbn [passed nth_error Nat.eqb].
        replace (S k + List.length (readable_prefix n rest))%nat
          with (k + S (List.length (readable_prefix n rest)))%nat by lia.
        destruct (nth_error (readable_prefix n rest)
                    (List.length (readable_prefix n rest)));
          [|destruct (List.length (readable_prefix n rest) =? n)%nat];
          rewrite appended_appended; cbn [dump_events app];
          rewrite <- ?app_assoc; reflexivity.
    + destruct verbose; cbn; rewrite ?Nat.add_0_r; reflexivity.
Qed.


Lemma shown_records_dump_events_quiet i ds :
  shown_records (dump_events false i ds) = [].
Proof.
  revert i. induction ds as [|d rest IH]; intros i; [reflexivity|].
  cbn. apply IH.
Qed.

Lemma read_only_dump_events verbose i ds :
  Forall read_only (dump_events verbose i ds).
Proof.
  revert i. induction ds as [|d rest IH]; intros i; cbn; [constructor|].
  constructor; [exact I|]. destruct verbose; cbn; repeat constructor; apply IH.
Qed.

(** ** Runs against the store *)

(** Once the command line is parsed and no output file was asked for:
    the store is initialised, the loop runs, and in write mode the slot is
    written. *)
Lemma after_parse_store_run mode a g w :
  output_to_file a = false ->
  after_parse mode a g w =
  if bgenv_init_ok w then
    let ds := readable_prefix ENV_NUM_CONFIG_PARTS (config_parts w) in
    let shown := passed (verbosity g) ds in
    match nth_error ds (List.length shown) with
    | Some d =>
        (Return_main killed,
         appended w
           (call_bgenv_init :: dump_events (verbosity g) 0 shown ++
            [call_bgenv_get_by_index (Z.of_nat (List.length shown));
             call_dump_env d]))
    | None =>
        let w1 :=
          appended w (call_bgenv_init :: dump_events (verbosity g) 0 ds) in
        if (List.length ds =? ENV_NUM_CONFIG_PARTS)%nat
        then (when mode (write_slot a g) ;;; ret 0) w1
        else (Return_main 1,
              appended w1
                [call_bgenv_get_by_index (Z.of_nat (List.length ds))])
    end
  else (Return_main 1, appended w [call_bgenv_init]).
Proof.
  intros Hf. unfold after_parse. rewrite Hf. cbn [negb].
  unfold bind at 1, bgenv_init at 1. rewrite log_appended.
  destruct (bgenv_init_ok w); cbn [negb]; [|reflexivity].
  unfold bind at 1.
  rewrite (dump_parts_run (verbosity g) ENV_NUM_CONFIG_PARTS 0
             (appended w [call_bgenv_init]) [] (config_parts w))
    by reflexivity.
  cbv zeta.
  destruct (nth_error (readable_prefix ENV_NUM_CONFIG_PARTS (config_parts w))
              (List.length
                 (passed (verbosity g)
                    (readable_prefix ENV_NUM_CONFIG_PARTS (config_parts w)))));
    [|destruct (List.length
                  (readable_prefix ENV_NUM_CONFIG_PARTS (config_parts w))
                =? ENV_NUM_CONFIG_PARTS)%nat];
    rewrite !appended_appended; cbn [app Nat.add]; rewrite <- ?app_assoc;
    reflexivity.
Qed.

(** Opening the slot to write makes calls that read, and fails with 1. *)
Lemma open_slot_world a g w :
  exists evs,
    snd (open_slot a g w) = appended w evs /\ Forall read_only evs /\
    forall code, fst (open_slot a g w) = Return_main code -> code = 1.
Proof.
  unfold open_slot, open_auto_update, open_selected, bind, bgenv_get_latest,
    bgenv_get_oldest, bgenv_get_by_index, bgenv_close, ret, return_main.
  cbv beta iota zeta.
  destruct (auto_update g); [|destruct (part_specified g)];
    cbv beta iota zeta; cbn [config_parts log];
    repeat match goal with
           | |- context [match ?o with Some _ => _ | None => _ end] =>
               destruct o; cbv beta iota zeta; cbn [config_parts log]
           | |- context [if ?b then _ else _] =>
               destruct b; cbv beta iota zeta; cbn [config_parts log]
           end;
    rewrite ?log_appended, ?appended_appended; cbn [fst snd app];
    eexists; (split; [reflexivity|]);
    (split; [repeat constructor | congruence]).
Qed.

Lemma write_slot_not_opened a g w code w1 :
  open_slot a g w = (Return_main code, w1) ->
  write_slot a g w = (Return_main code, w1).
Proof. intros Ho. unfold write_slot, bind at 1. rewrite Ho. reflexivity. Qed.

(** With the slot opened, the merged record is shown when verbose, which
    ends the run when it cannot be printed, and written; its slot holds it
    when the write succeeds, whatever the close says. *)
Lemma write_slot_opened a g w a' env w1 :
  open_slot a g w = (Continue (a', env), w1) ->
  let r := merged (data env) (tmpdata a') in
  let envr := mk_BGENV (desc env) r in
  let shown := if verbosity g then [call_dump_env r] else [] in
  write_slot a g w =
  if negb (verbosity g) || printable r then
    if bgenv_write_ok w1 then
      (if bgenv_close_ok w1 then Continue tt else Return_main 1,
       set_config_parts
         (appended w1 (shown ++ [call_bgenv_write envr; call_bgenv_close envr]))
         (replace_nth (desc env) (Some r) (config_parts w1)))
    else (Return_main 1, appended w1 (shown ++ [call_bgenv_write envr]))
  else (Return_main killed, appended w1 shown).
Proof.
  intros Ho. cbv zeta. unfold write_slot, bind at 1. rewrite Ho.
  cbv beta iota zeta.
  unfold bind, when, dump_env, bgenv_write, bgenv_close, ret, return_main,
    log, appended, set_config_parts.
  cbn [data].
  destruct (verbosity g); [destruct (printable _)|]; cbv beta iota zeta;
    cbn [negb orb];
    cbn [app bgenv_init_ok bgenv_write_ok bgenv_close_ok fopen_ok
         fwrite_errno fclose_ok config_parts trace fst snd];
    try reflexivity;
    destruct (bgenv_write_ok w1); cbn [negb]; cbv beta iota zeta;
    cbn [app bgenv_init_ok bgenv_write_ok bgenv_close_ok fopen_ok
         fwrite_errno fclose_ok config_parts trace fst snd];
    try (destruct (bgenv_close_ok w1); cbn [negb]);
    rewrite <- ?app_assoc; reflexivity.
Qed.

(** ** bg_printenv *)

Lemma options_of_printenv argv0 :
  strstr argv0 "bg_setenv" = false -> options_of argv0 = options_printenv.
Proof. intros Hm. unfold options_of. rewrite Hm. reflexivity. Qed.

Lemma has_option_printenv_v c :
  has_option options_printenv c = true -> c = "v"%char.
Proof.
  unfold has_option, options_printenv. cbn [existsb]. rewrite orb_false_r.
  apply Ascii.eqb_eq.
Qed.

Lemma deliver_printenv item a g :
  verbosity g = true ->
  if printenv_accepts item
  then exists e, deliver options_printenv item (a, g)
                 = (Returns 0, (a, set_errno g e))
  else exists status, deliver options_printenv item (a, g)
                      = (Exits status, (a, g)).
Proof.
  intros Hv. destruct item as [c arg| |arg|name|secs]; cbn [printenv_accepts].
  - destruct (Ascii.eqb c "v") eqn:Hc.
    + apply Ascii.eqb_eq in Hc. subst c. exists (errno g).
      change (deliver options_printenv (Opt "v" arg) (a, g))
        with (parse_opt (KEY "v") arg (a, g)).
      rewrite parse_opt_v. destruct g; cbn in *; subst; reflexivity.
    + unfold deliver. destruct (Ascii.eqb c "?"); [eexists; reflexivity|].
      destruct (has_option options_printenv c) eqn:Ht.
      * apply has_option_printenv_v in Ht. subst c. discriminate.
      * eexists; reflexivity.
  - eexists; reflexivity.
  - eexists; reflexivity.
  - exists (errno g). cbn. destruct g; reflexivity.
  - eexists. reflexivity.
Qed.

(** bg_printenv's parse: it succeeds on options -v and hidden options of
    argp only, changes nothing but [errno] then, and otherwise ends the
    process. *)
Lemma parse_options_printenv items a : forall g,
  verbosity g = true ->
  if only_verbose items
  then exists e, parse_options options_printenv items (a, g)
                 = (Returns 0, (a, set_errno g e))
  else exists status st',
      parse_options options_printenv items (a, g) = (Exits status, st').
Proof.
  induction items as [|item rest IH]; intros g Hv.
  - exists (errno g). cbn. destruct g; reflexivity.
  - cbn [only_verbose forallb parse_options].
    pose proof (deliver_printenv item a g Hv) as Hd.
    destruct (printenv_accepts item); cbn [andb].
    + destruct Hd as [e1 ->].
      specialize (IH (set_errno g e1) Hv). fold (only_verbose rest).
      destruct (only_verbose rest).
      * destruct IH as [e ->]. exists e. reflexivity.
      * exact IH.
    + destruct Hd as [status ->]. eauto.
Qed.

Lemma only_verbose_filter cmdline :
  only_verbose cmdline = true ->
  filter is_option cmdline = cmdline /\
  filter (fun item => negb (is_option item)) cmdline = [].
Proof.
  induction cmdline as [|item rest IH]; [split; reflexivity|].
  cbn [only_verbose forallb filter]. intros Hall.
  apply andb_true_iff in Hall. destruct Hall as [Hitem Hrest].
  destruct (IH Hrest) as [Ho Hp].
  destruct item; try discriminate; cbn [is_option negb]; rewrite Ho, Hp;
    split; reflexivity.
Qed.

Lemma only_verbose_filter_false cmdline :
  only_verbose cmdline = false ->
  only_verbose (filter is_option cmdline) = false \/
  filter (fun item => negb (is_option item)) cmdline <> [].
Proof.
  induction cmdline as [|item rest IH]; [discriminate|].
  cbn [only_verbose forallb filter]. intros Hall.
  destruct item as [c arg| |arg|name|secs]; cbn [is_option negb].
  - cbn [only_verbose forallb printenv_accepts] in *.
    destruct (Ascii.eqb c "v"); cbn [andb] in *.
    + apply IH, Hall.
    + left. reflexivity.
  - left. reflexivity.
  - right. discriminate.
  - cbn [only_verbose forallb printenv_accepts andb] in *. apply IH, Hall.
  - cbn [only_verbose forallb printenv_accepts andb] in *. apply IH, Hall.
Qed.

Lemma argp_parse_printenv argv0 cmdline :
  strstr argv0 "bg_setenv" = false ->
  if only_verbose cmdline
  then exists e,
      argp_parse (options_of argv0) cmdline (initial_state argv0) =
      (Returns 0,
       (fst (initial_state argv0), set_errno (snd (initial_state argv0)) e))
  else exists status st',
      argp_parse (options_of argv0) cmdline (initial_state argv0) =
      (Exits status, st').
Proof.
  intros Hm. rewrite (options_of_printenv argv0 Hm).
  unfold initial_state. rewrite Hm. cbn [negb fst snd].
  set (a := mk_arguments false 0 all_unset).
  set (g := mk_globals false false true None 0).
  unfold argp_parse.
  destruct (only_verbose cmdline) eqn:Hall.
  - destruct (only_verbose_filter cmdline Hall) as [-> ->].
    pose proof (parse_options_printenv cmdline a g eq_refl) as Hp.
    rewrite Hall in Hp. destruct Hp as [e ->]. exists e. reflexivity.
  - pose proof (parse_options_printenv (filter is_option cmdline) a g eq_refl)
      as Hp.
    destruct (only_verbose (filter is_option cmdline)) eqn:Hopts.
    + destruct Hp as [e ->].
      destruct (only_verbose_filter_false cmdline Hall) as [Hc|Hc];
        [congruence|].
      destruct (filter (fun item => negb (is_option item)) cmdline)
        as [|item rest] eqn:Hpos; [congruence|].
      assert (Hin : In item (filter (fun item => negb (is_option item)) cmdline))
        by (rewrite Hpos; left; reflexivity).
      apply filter_In in Hin. destruct Hin as [_ Hitem].
      destruct item; try discriminate.
      cbn [parse_options deliver]. eexists; eexists; reflexivity.
    + destruct Hp as (status & st' & ->). eauto.
Qed.


(** X2. bg_printenv never writes: under a program name that does not
    contain bg_setenv, whatever the command line, the run leaves the world
    as it was but for the calls it adds to the trace, and none of them
    writes a slot or touches an output file. *)
Theorem printenv_never_writes argv0 cmdline w :
  strstr argv0 "bg_setenv" = false ->
  exists evs,
    snd (main argv0 cmdline w) = appended w evs /\ Forall read_only evs.
Proof.
  intros Hm. pose proof (argp_parse_printenv argv0 cmdline Hm) as Hp.
  destruct (only_verbose cmdline).
  - destruct Hp as [e Hp].
    rewrite (main_after_parse _ _ _ _ w Hp), Hm.
    rewrite after_parse_store_run by reflexivity.
    destruct (bgenv_init_ok w); cbv zeta.
    + destruct (nth_error _ _);
        [|destruct (List.length
                      (readable_prefix ENV_NUM_CONFIG_PARTS (config_parts w))
                    =? ENV_NUM_CONFIG_PARTS)%nat].
      * eexists. split; [reflexivity|].
        constructor; [exact I|]. apply Forall_app.
        split; [apply read_only_dump_events | repeat constructor].
      * eexists. split; [reflexivity|].
        constructor; [exact I | apply read_only_dump_events].
      * rewrite appended_appended. eexists. split; [reflexivity|].
        constructor; [exact I|]. apply Forall_app.
        split; [apply read_only_dump_events | repeat constructor].
    + eexists. split; [reflexivity | repeat constructor].
  - destruct Hp as (status & st' & Hp).
    rewrite (main_after_failed_parse _ _ _ _ w Hp) by discriminate.
    exists []. rewrite appended_nil. split; [reflexivity | constructor].
Qed.


(** X4. bg_printenv takes no option of its own but -v.  Beside -v and the
    two hidden options every argp parser has, an item on its command line
    ends the run before any call is made, the world untouched, with the
    usage status unless the command line asks for help. *)
Theorem printenv_rejects_options argv0 cmdline w :
  strstr argv0 "bg_setenv" = false ->
  only_verbose cmdline = false ->
  snd (main argv0 cmdline w) = w /\
  (asks_help cmdline = false ->
   fst (main argv0 cmdline w) = argp_err_exit_status).
Proof.
  intros Hm Hall. pose proof (argp_parse_printenv argv0 cmdline Hm) as Hp.
  rewrite Hall in Hp. destruct Hp as (status & st' & Hp).
  rewrite (main_after_failed_parse _ _ _ _ w Hp) by discriminate.
  split; [reflexivity|]. intros Hhelp. cbn [fst parse_status].
  exact (argp_parse_exits _ _ _ _ _ Hp Hhelp).
Qed.

(** X5. Neither tool takes an operand: a command line with a positional
    argument ends the run before any call is made, the world untouched,
    with a non-zero exit code unless the command line asks for help. *)
Theorem operand_rejected argv0 cmdline arg w :
  In (Positional arg) cmdline ->
  snd (main argv0 cmdline w) = w /\
  (asks_help cmdline = false -> fst (main argv0 cmdline w) <> 0).
Proof.
  intros Hin. apply main_rejects. intros st' Hp.
  unfold argp_parse in Hp.
  destruct (parse_options (options_of argv0) (filter is_option cmdline)
              (initial_state argv0)) as [[e|s] st1]; [|discriminate].
  destruct (e =? 0) eqn:He.
  - apply Z.eqb_eq in He. subst e.
    apply parse_options_positionals in Hp.
    assert (Hf : In (Positional arg)
                   (filter (fun item => negb (is_option item)) cmdline))
      by (apply filter_In; split; [exact Hin | reflexivity]).
    rewrite Hp in Hf. destruct Hf.
  - apply Z.eqb_neq in He. destruct e; try congruence; discriminate.
Qed.

(** ** The slot that is opened *)

Lemma select_slot_nth better ps : forall k best env,
  select_slot better ps k best = Some env ->
  best = Some env \/
  ((k <= desc env < k + List.length ps)%nat /\
   nth_error ps (desc env - k) = Some (Some (data env))).
Proof.
  induction ps as [|p rest IH]; intros k best env Hs; cbn in Hs.
  - left. exact Hs.
  - apply IH in Hs. cbn [List.length].
    assert (Hhere : forall d, Some (mk_BGENV k d) = Some env ->
              (k <= desc env < k + S (List.length rest))%nat /\
              nth_error (p :: rest) (desc env - k) = Some (Some (data env)) ->
              best = Some env \/
              ((k <= desc env < k + S (List.length rest))%nat /\
               nth_error (p :: rest) (desc env - k) = Some (Some (data env))))
      by (intros; right; assumption).
    destruct Hs as [Hs|[Hk Hn]].
    + destruct p as [d|]; [|left; exact Hs].
      assert (Hd : Some (mk_BGENV k d) = Some env ->
                (k <= desc env < k + S (List.length rest))%nat /\
                nth_error (Some d :: rest) (desc env - k)
                  = Some (Some (data env))).
      { intros E. inversion E; subst env. cbn [desc data].
        rewrite Nat.sub_diag. split; [lia | reflexivity]. }
      destruct best as [b|].
      * destruct (better (revision d) (revision (data b)));
          [right; exact (Hd Hs) | left; exact Hs].
      * right. exact (Hd Hs).
    + right. split; [lia|].
      replace (desc env - k)%nat with (S (desc env - S k)) by lia.
      exact Hn.
Qed.

Lemma latest_slot_nth ps env :
  latest_slot ps = Some env ->
  (desc env < List.length ps)%nat /\
  nth_error ps (desc env) = Some (Some (data env)).
Proof.
  intros Hl. apply select_slot_nth in Hl.
  destruct Hl as [Hl|[Hk Hn]]; [discriminate|].
  rewrite Nat.sub_0_r in Hn. split; [lia | exact Hn].
Qed.

Lemma oldest_slot_nth ps env :
  oldest_slot ps = Some env ->
  (desc env < List.length ps)%nat /\
  nth_error ps (desc env) = Some (Some (data env)).
Proof.
  intros Hl. apply select_slot_nth in Hl.
  destruct Hl as [Hl|[Hk Hn]]; [discriminate|].
  rewrite Nat.sub_0_r in Hn. split; [lia | exact Hn].
Qed.

Lemma open_slot_opened a g w a' env w1 :
  open_slot a g w = (Continue (a', env), w1) ->
  opened_as a g (config_parts w) a' env.
Proof.
  unfold open_slot, opened_as. destruct (auto_update g).
  - unfold open_auto_update, bind, bgenv_get_latest, bgenv_get_oldest,
      bgenv_close, ret, return_main.
    destruct (latest_slot (config_parts w)) as [cur|] eqn:Hl; [|discriminate].
    cbn [config_parts log].
    destruct (oldest_slot (config_parts w)) as [new|] eqn:Ho; [|discriminate].
    intros E. inversion E; subst a' env. exists cur, new. auto.
  - unfold open_selected, bind, ret, return_main.
    destruct (part_specified g).
    + unfold bgenv_get_by_index.
      destruct (which_part a <? 0) eqn:Hneg; [discriminate|].
      destruct (nth_error (config_parts w) (Z.to_nat (which_part a)))
        as [[d|]|] eqn:Hn; try discriminate.
      intros E. inversion E; subst a' env. cbn [desc data].
      apply Z.ltb_ge in Hneg. auto.
    + unfold bgenv_get_latest.
      destruct (latest_slot (config_parts w)) as [e|] eqn:Hl; [|discriminate].
      intros E. inversion E; subst a' env. auto.
Qed.

(** The slot that is opened is one of the store. *)
Lemma opened_as_slot a g ps a' env :
  opened_as a g ps a' env -> (desc env < List.length ps)%nat.
Proof.
  unfold opened_as. destruct (auto_update g).
  - intros (cur & new & _ & Ho & -> & _). cbn [desc].
    apply (oldest_slot_nth _ _ Ho).
  - intros [_ Hs]. destruct (part_specified g).
    + destruct Hs as (_ & _ & Hn). apply nth_error_Some. congruence.
    + apply (latest_slot_nth _ _ Hs).
Qed.

Lemma open_slot_part a g w d :
  auto_update g = false -> part_specified g = true ->
  0 <= which_part a ->
  nth_error (config_parts w) (Z.to_nat (which_part a)) = Some (Some d) ->
  open_slot a g w =
  (Continue (a, mk_BGENV (Z.to_nat (which_part a)) d),
   appended w [call_bgenv_get_by_index (which_part a)]).
Proof.
  intros Hu Hp Hi Hd. unfold open_slot, open_selected. rewrite Hu, Hp.
  unfold bind, bgenv_get_by_index.
  replace (which_part a <? 0) with false by (symmetry; apply Z.ltb_ge; lia).
  rewrite Hd. reflexivity.
Qed.

Lemma open_slot_latest a g w env :
  auto_update g = false -> part_specified g = false ->
  latest_slot (config_parts w) = Some env ->
  open_slot a g w = (Continue (a, env), appended w [call_bgenv_get_latest]).
Proof.
  intros Hu Hp Hl. unfold open_slot, open_selected. rewrite Hu, Hp.
  unfold bind, bgenv_get_latest. rewrite Hl. reflexivity.
Qed.

Lemma open_slot_auto_update a g w cur new :
  auto_update g = true ->
  latest_slot (config_parts w) = Some cur ->
  oldest_slot (config_parts w) = Some new ->
  open_slot a g w =
  (Continue
     (set_tmpdata a
        (set_revision (tmpdata a) (to_uint32 (revision (data cur) + 1))),
      mk_BGENV (desc new) (data cur)),
   appended w [call_bgenv_get_latest; call_bgenv_get_oldest;
               call_bgenv_close cur]).
Proof.
  intros Hu Hl Ho. unfold open_slot, open_auto_update. rewrite Hu.
  unfold bind, bgenv_get_latest, bgenv_get_oldest, bgenv_close, ret.
  rewrite Hl. cbn [config_parts log]. rewrite Ho.
  rewrite !log_appended, !appended_appended. reflexivity.
Qed.

(** ** The runs of [main] *)

Lemma stored_records_read_only evs :
  Forall read_only evs -> stored_records evs = [].
Proof.
  induction 1 as [|ev evs Hev _ IH]; [reflexivity|].
  unfold stored_records in *. cbn [flat_map]. rewrite IH.
  destruct ev; try reflexivity; destruct Hev.
Qed.

Lemma stored_records_app evs evs' :
  stored_records (evs ++ evs') = stored_records evs ++ stored_records evs'.
Proof. apply flat_map_app. Qed.

(** Every run of [main] is one of these: the parse fails and nothing
    happens; the record goes to the output file; the run fails, or is
    ended in [dump_env], after calls that only read; bg_printenv ends
    after the loop; or the slot is opened and the merged record shown when
    verbose, and written. *)
Lemma main_cases argv0 cmdline w :
  (exists out st,
      argp_parse (options_of argv0) cmdline (initial_state argv0) = (out, st) /\
      out <> Returns 0 /\
      main argv0 cmdline w = (parse_status out, w)) \/
  (exists a g,
      argp_parse (options_of argv0) cmdline (initial_state argv0)
        = (Returns 0, (a, g)) /\
      ((output_to_file a = true /\
        main argv0 cmdline w = finish (write_file a g w)) \/
       (output_to_file a = false /\
        exists evs,
          Forall read_only evs /\
          ((exists code, (code = 1 \/ code = killed) /\
                         main argv0 cmdline w = (code, appended w evs)) \/
           (strstr argv0 "bg_setenv" = false /\
            bgenv_init_ok w = true /\
            List.length (readable_prefix ENV_NUM_CONFIG_PARTS (config_parts w))
              = ENV_NUM_CONFIG_PARTS /\
            main argv0 cmdline w = (0, appended w evs)) \/
           (strstr argv0 "bg_setenv" = true /\
            bgenv_init_ok w = true /\
            List.length (readable_prefix ENV_NUM_CONFIG_PARTS (config_parts w))
              = ENV_NUM_CONFIG_PARTS /\
            exists a' env w0,
              config_parts w0 = config_parts w /\
              open_slot a g w0 = (Continue (a', env), appended w evs) /\
              let r := merged (data env) (tmpdata a') in
              let envr := mk_BGENV (desc env) r in
              let shown := if verbosity g then [call_dump_env r] else [] in
              main argv0 cmdline w =
              if negb (verbosity g) || printable r then
                if bgenv_write_ok w then
                  (if bgenv_close_ok w then 0 else 1,
                   set_config_parts
                     (appended w (evs ++ shown ++
                                  [call_bgenv_write envr;
                                   call_bgenv_close envr]))
                     (replace_nth (desc env) (Some r) (config_parts w)))
                else (1, appended w (evs ++ shown ++ [call_bgenv_write envr]))
              else (killed, appended w (evs ++ shown))))))).
Proof.
  destruct (argp_parse (options_of argv0) cmdline (initial_state argv0))
    as [out [a g]] eqn:Hp.
  destruct (outcome_eq_dec out (Returns 0)) as [->|Hout].
  2:{ left. exists out, (a, g). split; [reflexivity|]. split; [exact Hout|].
      exact (main_after_failed_parse _ _ _ _ w Hp Hout). }
  right. exists a, g. split; [reflexivity|].
  rewrite (main_after_parse _ _ _ _ w Hp).
  destruct (output_to_file a) eqn:Hf.
  { left. split; [reflexivity|]. unfold after_parse. rewrite Hf. reflexivity. }
  right. split; [reflexivity|].
  rewrite after_parse_store_run by exact Hf.
  destruct (bgenv_init_ok w) eqn:Hinit.
  2:{ eexists. split; [|left; exists 1; split; [left|]; reflexivity].
      repeat constructor. }
  cbv zeta.
  set (ds := readable_prefix ENV_NUM_CONFIG_PARTS (config_parts w)).
  destruct (nth_error ds (List.length (passed (verbosity g) ds))) as [d|].
  { eexists. split; [|left; exists killed; split; [right|]; reflexivity].
    constructor; [exact I|]. apply Forall_app.
    split; [apply read_only_dump_events | repeat constructor]. }
  set (evs1 := call_bgenv_init :: dump_events (verbosity g) 0 ds).
  assert (Hevs1 : Forall read_only evs1)
    by (constructor; [exact I | apply read_only_dump_events]).
  destruct (List.length ds =? ENV_NUM_CONFIG_PARTS)%nat eqn:Hall.
  2:{ rewrite appended_appended. eexists.
      split; [|left; exists 1; split; [left|]; reflexivity].
      apply Forall_app. split; [exact Hevs1 | repeat constructor]. }
  apply Nat.eqb_eq in Hall.
  destruct (strstr argv0 "bg_setenv") eqn:Hm.
  2:{ exists evs1. split; [exact Hevs1|]. right. left.
      repeat split; try reflexivity. exact Hall. }
  cbn [when]. unfold bind.
  destruct (open_slot_world a g (appended w evs1)) as (evs2 & Hw2 & Hevs2 & Hc).
  destruct (open_slot a g (appended w evs1)) as [[[a' env]|code] w2] eqn:Ho;
    cbn [fst snd] in Hw2, Hc; subst w2; rewrite appended_appended in Ho.
  - exists (evs1 ++ evs2). split; [apply Forall_app; split; assumption|].
    right. right. split; [reflexivity|]. split; [reflexivity|].
    split; [exact Hall|].
    exists a', env, (appended w evs1). split; [reflexivity|].
    split; [exact Ho|]. cbv zeta.
    rewrite (write_slot_opened _ _ _ _ _ _ Ho). cbv zeta.
    cbn [appended bgenv_write_ok bgenv_close_ok config_parts].
    destruct (negb (verbosity g) ||
              printable (merged (data env) (tmpdata a'))).
    + destruct (bgenv_write_ok w).
      * rewrite appended_appended.
        destruct (bgenv_close_ok w); reflexivity.
      * rewrite appended_appended. reflexivity.
    + rewrite appended_appended. reflexivity.
  - rewrite (write_slot_not_opened _ _ _ _ _ Ho).
    rewrite (Hc code eq_refl).
    exists (evs1 ++ evs2). split; [apply Forall_app; split; assumption|].
    left. exists 1. split; [left|]; reflexivity.
Qed.

Lemma replace_nth_length {A : Type} i (x : A) l :
  List.length (replace_nth i x l) = List.length l.
Proof.
  revert i. induction l as [|y r IH]; intros [|i]; cbn; auto.
Qed.

Lemma nth_error_replace_nth_ne {A : Type} i j (x : A) l :
  j <> i -> nth_error (replace_nth i x l) j = nth_error l j.
Proof.
  revert i j. induction l as [|y r IH]; intros [|i] [|j] Hne; cbn; auto;
    try congruence.
Qed.

Lemma nth_error_replace_nth_eq {A : Type} i (x : A) l :
  (i < List.length l)%nat -> nth_error (replace_nth i x l) i = Some x.
Proof.
  revert i. induction l as [|y r IH]; intros [|i] Hi; cbn in *; try lia; auto.
  apply IH. lia.
Qed.

Lemma replace_nth_out {A : Type} i (x : A) l :
  (List.length l <= i)%nat -> replace_nth i x l = l.
Proof.
  revert i. induction l as [|y r IH]; intros [|i] Hi; cbn in *; try lia; auto.
  rewrite IH by lia. reflexivity.
Qed.

Lemma parse_status_failed argv0 cmdline out st :
  argp_parse (options_of argv0) cmdline (initial_state argv0) = (out, st) ->
  out <> Returns 0 -> asks_help cmdline = false -> parse_status out <> 0.
Proof.
  intros Hp Hout Hhelp. destruct out as [e|status]; cbn [parse_status].
  - congruence.
  - rewrite (argp_parse_exits _ _ _ _ _ Hp Hhelp). discriminate.
Qed.

Lemma parsed_without_file argv0 cmdline a g :
  argp_parse (options_of argv0) cmdline (initial_state argv0)
    = (Returns 0, (a, g)) ->
  (forall dir, ~ In (Opt "f" dir) cmdline) ->
  output_to_file a = false.
Proof.
  intros Hp Hnf. apply argp_parse_ok in Hp.
  destruct (output_file_path _ _ _ _ Hp) as [(dir & Hin & _)|(_ & Hf & _)].
  - destruct (Hnf dir Hin).
  - exact Hf.
Qed.

(** X6. The store must be usable as a whole: when it does not initialise,
    or one of the [ENV_NUM_CONFIG_PARTS] slots cannot be read, every run of
    either tool that does not write to a file fails, after calls that only
    read: no slot is written, also not one that could be read. *)
Theorem unusable_store_blocks_update argv0 cmdline w :
  (forall dir, ~ In (Opt "f" dir) cmdline) ->
  asks_help cmdline = false ->
  bgenv_init_ok w = false \/
  List.length (readable_prefix ENV_NUM_CONFIG_PARTS (config_parts w))
    <> ENV_NUM_CONFIG_PARTS ->
  fst (main argv0 cmdline w) <> 0 /\
  exists evs,
    snd (main argv0 cmdline w) = appended w evs /\ Forall read_only evs.
Proof.
  intros Hnf Hhelp Hbad.
  destruct (main_cases argv0 cmdline w)
    as [(out & st & Hp & Hout & ->)|(a & g & Hp & Hrun)].
  - split; [exact (parse_status_failed _ _ _ _ Hp Hout Hhelp)|].
    exists []. rewrite appended_nil. split; [reflexivity | constructor].
  - pose proof (parsed_without_file _ _ _ _ Hp Hnf) as Hf.
    destruct Hrun as [[Hf' _]|[_ (evs & Hevs & Hrun)]]; [congruence|].
    destruct Hrun
      as [(code & Hcode & ->)|[(_ & Hi & Hall & _)|(_ & Hi & Hall & _)]].
    + split; [destruct Hcode as [->| ->]; discriminate|].
      exists evs. split; [reflexivity | exact Hevs].
    + destruct Hbad; congruence.
    + destruct Hbad; congruence.
Qed.

(** X7. A run that fails has changed no slot, unless what failed is the
    close after the write: when [bgenv_close] succeeds, a non-zero exit
    code means that every slot holds what it held before. *)
Theorem failed_run_changes_no_slot argv0 cmdline w :
  bgenv_close_ok w = true ->
  fst (main argv0 cmdline w) <> 0 ->
  config_parts (snd (main argv0 cmdline w)) = config_parts w.
Proof.
  intros Hclose.
  destruct (main_cases argv0 cmdline w)
    as [(out & st & Hp & Hout & ->)|(a & g & Hp & Hrun)]; [reflexivity|].
  destruct Hrun as [[_ ->]|[_ (evs & Hevs & Hrun)]].
  - intros _. pose proof (write_file_run a g w) as Hfile. cbv zeta in Hfile.
    rewrite Hfile. reflexivity.
  - destruct Hrun as [(code & _ & ->)|[(_ & _ & _ & ->)|(_ & _ & _ & Hrun)]];
      [reflexivity | reflexivity |].
    destruct Hrun as (a' & env & w0 & _ & _ & Hmain). cbv zeta in Hmain.
    rewrite Hmain.
    destruct (negb (verbosity g) ||
              printable (merged (data env) (tmpdata a'))); [|reflexivity].
    destruct (bgenv_write_ok w); [|reflexivity].
    rewrite Hclose. intros Hcode. destruct (Hcode eq_refl).
Qed.

(** X8. Exit code 0 can be trusted: when bg_setenv, run without an output
    file and without a request for help, ends with 0, the command line was
    parsed and the store read in full; the slot the run selected (the
    oldest with -u, the one of -p, the latest otherwise) is a slot of the
    store and now holds the merge of the staged change (with the revision
    after the latest under -u) onto the selected record (the one of the
    latest slot with -u, the slot's own otherwise); that record is the one
    record handed to [bgenv_write], and write and close have succeeded. *)
Theorem success_means_stored argv0 cmdline w :
  strstr argv0 "bg_setenv" = true ->
  (forall dir, ~ In (Opt "f" dir) cmdline) ->
  asks_help cmdline = false ->
  fst (main argv0 cmdline w) = 0 ->
  exists a g i base evs,
    argp_parse (options_of argv0) cmdline (initial_state argv0)
      = (Returns 0, (a, g)) /\
    (if auto_update g then
       exists cur new,
         latest_slot (config_parts w) = Some cur /\
         oldest_slot (config_parts w) = Some new /\
         base = data cur /\ i = desc new
     else if part_specified g then
       i = Z.to_nat (which_part a) /\
       nth_error (config_parts w) i = Some (Some base)
     else latest_slot (config_parts w) = Some (mk_BGENV i base)) /\
    let change :=
      if auto_update g
      then set_revision (tmpdata a) (to_uint32 (revision base + 1))
      else tmpdata a in
    let r := merged base change in
    In (Some base) (config_parts w) /\
    (i < List.length (config_parts w))%nat /\
    snd (main argv0 cmdline w) =
      set_config_parts (appended w evs)
        (replace_nth i (Some r) (config_parts w)) /\
    nth_error (config_parts (snd (main argv0 cmdline w))) i = Some (Some r) /\
    (forall j, j <> i ->
       nth_error (config_parts (snd (main argv0 cmdline w))) j =
       nth_error (config_parts w) j) /\
    stored_records evs = [r] /\
    bgenv_init_ok w = true /\ bgenv_write_ok w = true /\
    bgenv_close_ok w = true /\
    List.length (readable_prefix ENV_NUM_CONFIG_PARTS (config_parts w))
      = ENV_NUM_CONFIG_PARTS.
Proof.
  intros Hm Hnf Hhelp.
  destruct (main_cases argv0 cmdline w)
    as [(out & st & Hp & Hout & ->)|(a & g & Hp & Hrun)].
  - intros Hcode. destruct (parse_status_failed _ _ _ _ Hp Hout Hhelp Hcode).
  - pose proof (parsed_without_file _ _ _ _ Hp Hnf) as Hf.
    destruct Hrun as [[Hf' _]|[_ (evs & Hevs & Hrun)]]; [congruence|].
    destruct Hrun as [(code & [->| ->] & ->)|[(Hm' & _)|(_ & Hi & Hall & Hrun)]];
      [discriminate | discriminate | congruence |].
    destruct Hrun as (a' & env & w0 & Hw0 & Ho & Hmain). cbv zeta in Hmain.
    rewrite Hmain.
    destruct (negb (verbosity g) ||
              printable (merged (data env) (tmpdata a'))); [|discriminate].
    destruct (bgenv_write_ok w); [|discriminate].
    destruct (bgenv_close_ok w); [|discriminate]. intros _.
    destruct (opened_slot _ _ _ _ _ _ Ho) as [Hin _]. rewrite Hw0 in Hin.
    pose proof (open_slot_opened _ _ _ _ _ _ Ho) as Has. rewrite Hw0 in Has.
    pose proof (opened_as_slot _ _ _ _ _ Has) as Hlt.
    assert (Hchange :
              tmpdata a' =
              if auto_update g
              then set_revision (tmpdata a)
                     (to_uint32 (revision (data env) + 1))
              else tmpdata a).
    { unfold opened_as in Has. destruct (auto_update g).
      - destruct Has as (cur & new & _ & _ & -> & ->). reflexivity.
      - destruct Has as [-> _]. reflexivity. }
    eexists a, g, (desc env), (data env), _.
    split; [exact Hp|]. split.
    { unfold opened_as in Has. destruct (auto_update g).
      - destruct Has as (cur & new & Hl & Hold & -> & _).
        exists cur, new. auto.
      - destruct Has as [_ Has]. destruct (part_specified g).
        + destruct Has as (_ & Hd & Hn). split; [exact Hd | exact Hn].
        + destruct env; exact Has. }
    cbv zeta. rewrite <- Hchange.
    split; [exact Hin|]. split; [exact Hlt|]. split; [reflexivity|].
    cbn [snd set_config_parts config_parts].
    split; [apply nth_error_replace_nth_eq, Hlt|].
    split; [intros j Hj; apply nth_error_replace_nth_ne, Hj|].
    split; [|repeat split; assumption].
    rewrite !stored_records_app, (stored_records_read_only _ Hevs).
    destruct (verbosity g); reflexivity.
Qed.

(** X9. A run changes one slot at most.  It hands at most one record to
    [bgenv_write], the number of slots stays, and there is a slot index
    such that every other slot holds what it held before; that slot holds
    what it held before, or the merge of a change onto a record that was in
    the store. *)
Theorem at_most_one_slot_changes argv0 cmdline w :
  let w' := snd (main argv0 cmdline w) in
  (exists evs,
      trace w' = trace w ++ evs /\
      (List.length (stored_records evs) <= 1)%nat) /\
  List.length (config_parts w') = List.length (config_parts w) /\
  exists i,
    (forall j, j <> i ->
       nth_error (config_parts w') j = nth_error (config_parts w) j) /\
    (nth_error (config_parts w') i = nth_error (config_parts w) i \/
     exists base change,
       In (Some base) (config_parts w) /\
       nth_error (config_parts w') i = Some (Some (merged base change))).
Proof.
  cbv zeta.
  assert (Hsame : forall code evs,
             main argv0 cmdline w = (code, appended w evs) ->
             (List.length (stored_records evs) <= 1)%nat ->
             (exists evs,
                 trace (snd (main argv0 cmdline w)) = trace w ++ evs /\
                 (List.length (stored_records evs) <= 1)%nat) /\
             List.length (config_parts (snd (main argv0 cmdline w))) =
               List.length (config_parts w) /\
             exists i,
               (forall j, j <> i ->
                  nth_error (config_parts (snd (main argv0 cmdline w))) j =
                  nth_error (config_parts w) j) /\
               (nth_error (config_parts (snd (main argv0 cmdline w))) i =
                  nth_error (config_parts w) i \/
                exists base change,
                  In (Some base) (config_parts w) /\
                  nth_error (config_parts (snd (main argv0 cmdline w))) i =
                    Some (Some (merged base change)))).
  { intros code evs -> Hlen. split; [exists evs; split; [reflexivity|exact Hlen]|].
    split; [reflexivity|]. exists 0%nat. split; [reflexivity | left; reflexivity]. }
  destruct (main_cases argv0 cmdline w)
    as [(out & st & Hp & Hout & Hmain)|(a & g & Hp & Hrun)].
  - apply (Hsame (parse_status out) []); [|cbn; lia].
    rewrite appended_nil. exact Hmain.
  - destruct Hrun as [[_ Hmain]|[_ (evs & Hevs & Hrun)]].
    + pose proof (write_file_run a g w) as Hfile. cbv zeta in Hfile.
      rewrite Hfile in Hmain. eapply Hsame; [exact Hmain|].
      rewrite stored_records_app.
      destruct (verbosity g),
        (printable (merged (memset_BG_ENVDATA 0) (tmpdata a))), (fopen_ok w);
        cbn; lia.
    + pose proof (stored_records_read_only _ Hevs) as Hnone.
      destruct Hrun
        as [(code & _ & Hmain)|[(_ & _ & _ & Hmain)|(_ & _ & _ & Hrun)]].
      * eapply Hsame; [exact Hmain|]. rewrite Hnone. cbn; lia.
      * eapply Hsame; [exact Hmain|]. rewrite Hnone. cbn; lia.
      * destruct Hrun as (a' & env & w0 & Hw0 & Ho & Hmain).
        cbv zeta in Hmain.
        assert (Hone : forall tail,
                   (List.length
                      (stored_records
                         (evs ++
                          (if verbosity g
                           then [call_dump_env
                                   (merged (data env) (tmpdata a'))]
                           else []) ++
                          call_bgenv_write
                            (mk_BGENV (desc env)
                               (merged (data env) (tmpdata a'))) ::
                          match tail with
                          | true =>
                              [call_bgenv_close
                                 (mk_BGENV (desc env)
                                    (merged (data env) (tmpdata a')))]
                          | false => []
                          end)) <= 1)%nat).
        { intros tail. rewrite !stored_records_app, Hnone.
          destruct (verbosity g), tail; cbn; lia. }
        destruct (negb (verbosity g) ||
                  printable (merged (data env) (tmpdata a'))).
        2:{ eapply Hsame; [exact Hmain|].
            rewrite stored_records_app, Hnone.
            destruct (verbosity g); cbn; lia. }
        destruct (bgenv_write_ok w).
        -- rewrite Hmain. cbn [snd set_config_parts config_parts trace appended].
           split; [eexists; split; [reflexivity | exact (Hone true)]|].
           split; [apply replace_nth_length|].
           exists (desc env). split.
           ++ intros j Hj. apply nth_error_replace_nth_ne, Hj.
           ++ destruct (Nat.lt_ge_cases (desc env) (List.length (config_parts w)))
                as [Hlt|Hge].
              ** right. exists (data env), (tmpdata a').
                 destruct (opened_slot _ _ _ _ _ _ Ho) as [Hin _].
                 rewrite Hw0 in Hin. split; [exact Hin|].
                 apply nth_error_replace_nth_eq, Hlt.
              ** left. rewrite replace_nth_out by exact Hge. reflexivity.
        -- eapply Hsame; [exact Hmain | exact (Hone false)].
Qed.


(** ** The flags after the parse *)

Lemma given_cons c c' arg rest :
  given c (Opt c' arg :: rest) = Ascii.eqb c' c || given c rest.
Proof. reflexivity. Qed.

Lemma given_other c item rest :
  (forall c' arg, item <> Opt c' arg) ->
  given c (item :: rest) = given c rest.
Proof.
  intros Hno. destruct item; try reflexivity. destruct (Hno c0 arg eq_refl).
Qed.

Lemma given_false_In c cmdline arg :
  given c cmdline = false -> ~ In (Opt c arg) cmdline.
Proof.
  intros Hg Hin. unfold given in Hg.
  assert (Ht : existsb (fun item => match item with
                                    | Opt c' _ => Ascii.eqb c' c
                                    | _ => false
                                    end) cmdline = true).
  { apply existsb_exists. exists (Opt c arg). split; [exact Hin|].
    apply Ascii.eqb_refl. }
  congruence.
Qed.

Lemma given_app c pre post :
  given c (pre ++ post) = given c pre || given c post.
Proof. apply existsb_app. Qed.

Lemma parse_opt_flags c arg a g a' g' :
  has_option options_setenv c = true ->
  parse_opt (KEY c) arg (a, g) = (Returns 0, (a', g')) ->
  auto_update g' = auto_update g || Ascii.eqb c "u" /\
  part_specified g' = part_specified g || Ascii.eqb c "p" /\
  output_to_file a' = output_to_file a || Ascii.eqb c "f" /\
  verbosity g' = verbosity g || Ascii.eqb c "v".
Proof.
  intros Hc Hp.
  destruct (parse_opt_ok_cases _ _ _ _ _ _ Hc Hp)
    as [(-> & _ & -> & ->)|[(-> & _ & -> & ->)|[(-> & i & e & _ & -> & ->)|
       [(-> & e & -> & ->)|[(-> & v & e & _ & -> & ->)|[(-> & -> & ->)|
       [(-> & _ & e & -> & ->)|[(-> & -> & ->)|[(-> & _ & -> & ->)|
        (-> & -> & ->)]]]]]]]]];
    cbn [auto_update part_specified verbosity output_to_file set_tmpdata
         set_errno Ascii.eqb Bool.eqb andb];
    rewrite ?orb_false_r, ?orb_true_r; auto.
Qed.

Lemma parse_options_flags argv0 cmdline : forall st st',
  parse_options (options_of argv0) cmdline st = (Returns 0, st') ->
  auto_update (snd st') = auto_update (snd st) || given "u" cmdline /\
  part_specified (snd st') = part_specified (snd st) || given "p" cmdline /\
  output_to_file (fst st') = output_to_file (fst st) || given "f" cmdline /\
  verbosity (snd st') = verbosity (snd st) || given "v" cmdline.
Proof.
  induction cmdline as [|item rest IH]; intros st st' Hp.
  - inversion Hp; subst. cbn. rewrite !orb_false_r. auto.
  - apply parse_options_cons_ok in Hp. destruct Hp as (st1 & Hd & Hrest).
    destruct (IH _ _ Hrest) as (Hu' & Hpp' & Hf' & Hv').
    apply deliver_ok in Hd.
    destruct Hd as [(c & arg & -> & Hc & Hopt)|(Hno & e & _ & ->)].
    + destruct st as [a g], st1 as [a1 g1].
      destruct (parse_opt_flags _ _ _ _ _ _ (has_option_options_of _ _ Hc) Hopt)
        as (Hu & Hpp & Hf & Hv).
      cbn [fst snd] in *. rewrite !given_cons.
      rewrite Hu', Hpp', Hf', Hv', Hu, Hpp, Hf, Hv, !orb_assoc. auto.
    + rewrite !(given_other _ _ _ Hno). destruct st as [a g].
      cbn [fst snd auto_update part_specified verbosity set_errno] in *. auto.
Qed.

Lemma parse_opt_which_part c arg a g a' g' :
  has_option options_setenv c = true ->
  parse_opt (KEY c) arg (a, g) = (Returns 0, (a', g')) ->
  (c <> "p"%char /\ which_part a' = which_part a) \/
  (c = "p"%char /\ which_part a' = to_int (strtol_value (strtol arg)) /\
   (which_part a' = 0 \/ which_part a' = 1)).
Proof.
  intros Hc Hp.
  destruct (Ascii.eqb c "p") eqn:Hcp.
  - apply Ascii.eqb_eq in Hcp. subst c. right. split; [reflexivity|].
    unfold parse_opt in Hp. cbv zeta in Hp.
    destruct (strtol_failed _ _ _); [discriminate|].
    destruct ((to_int (strtol_value (strtol arg)) =? 0)
              || (to_int (strtol_value (strtol arg)) =? 1)) eqn:Hi;
      [|discriminate].
    inversion Hp; subst. cbn [which_part]. split; [reflexivity|].
    apply orb_true_iff in Hi. destruct Hi as [Hi|Hi]; apply Z.eqb_eq in Hi; auto.
  - left. assert (Hne : c <> "p"%char)
      by (intros ->; discriminate).
    split; [exact Hne|].
    destruct (parse_opt_ok_cases _ _ _ _ _ _ Hc Hp)
      as [(-> & _ & -> & ->)|[(-> & _ & -> & ->)|[(-> & _)|
         [(-> & e & -> & ->)|[(-> & v & e & _ & -> & ->)|[(-> & -> & ->)|
         [(-> & _ & e & -> & ->)|[(-> & -> & ->)|[(-> & _ & -> & ->)|
          (-> & -> & ->)]]]]]]]]]; try reflexivity.
    congruence.
Qed.

(** The slot index the parse leaves is 0 or 1. *)
Lemma which_part_range argv0 cmdline st st' :
  parse_options (options_of argv0) cmdline st = (Returns 0, st') ->
  which_part (fst st) = 0 \/ which_part (fst st) = 1 ->
  which_part (fst st') = 0 \/ which_part (fst st') = 1.
Proof.
  apply (parse_options_invariant
           (fun st => which_part (fst st) = 0 \/ which_part (fst st) = 1));
    [|intros a g e _ HP; exact HP].
  intros c arg [a g] [a' g'] Hc Hp Hst. cbn [fst] in *.
  destruct (parse_opt_which_part _ _ _ _ _ _ (has_option_options_of _ _ Hc) Hp)
    as [[_ ->]|(_ & _ & Hr)]; assumption.
Qed.

(** The slot index the parse leaves is the one of the last -p. *)
Lemma which_part_last argv0 pre x post st st' :
  parse_options (options_of argv0) (pre ++ Opt "p" x :: post) st
    = (Returns 0, st') ->
  given "p" post = false ->
  which_part (fst st') = to_int (strtol_value (strtol x)).
Proof.
  intros Hp Hpost.
  apply parse_options_app_ok in Hp. destruct Hp as (st1 & _ & Hp).
  apply parse_options_cons_ok in Hp. destruct Hp as (st2 & Hd & Hp).
  apply deliver_Opt_ok in Hd. destruct Hd as [Hc Hopt].
  destruct st1 as [a1 g1], st2 as [a2 g2].
  destruct (parse_opt_which_part _ _ _ _ _ _ (has_option_options_of _ _ Hc) Hopt)
    as [[Hne _]|(_ & Hw & _)]; [congruence|].
  change (which_part (fst (a2, g2)) = to_int (strtol_value (strtol x))) in Hw.
  revert Hw. revert Hp.
  apply (parse_options_invariant_In
           (fun st => which_part (fst st) = to_int (strtol_value (strtol x))));
    [|intros a g e _ HP; exact HP].
  intros c arg [a g] [a' g'] Hin Hc' Hopt' Hst. cbn [fst] in *.
  destruct (parse_opt_which_part _ _ _ _ _ _ (has_option_options_of _ _ Hc')
              Hopt') as [[_ ->]|(-> & _)]; [exact Hst|].
  destruct (given_false_In _ _ arg Hpost Hin).
Qed.

Lemma parsed_flags argv0 cmdline a g :
  argp_parse (options_of argv0) cmdline (initial_state argv0)
    = (Returns 0, (a, g)) ->
  auto_update g = given "u" cmdline /\
  part_specified g = given "p" cmdline /\
  output_to_file a = given "f" cmdline /\
  verbosity g = negb (strstr argv0 "bg_setenv") || given "v" cmdline /\
  (which_part a = 0 \/ which_part a = 1).
Proof.
  intros Hp. apply argp_parse_ok in Hp.
  destruct (parse_options_flags _ _ _ _ Hp) as (Hu & Hpp & Hf & Hv).
  pose proof (which_part_range _ _ _ _ Hp (or_introl eq_refl)) as Hw.
  cbn [fst snd initial_state auto_update part_specified output_to_file
       verbosity orb] in *.
  auto.
Qed.

(** X10. After a successful parse the flags say what the command line
    carries: auto-update is on exactly when -u was given, a slot is
    specified exactly when -p was given, the output goes to a file exactly
    when -f was given, records are shown exactly when -v was given or the
    tool is bg_printenv; and the slot index is 0 or 1. *)
Theorem flags_follow_command_line argv0 cmdline a g :
  argp_parse (options_of argv0) cmdline (initial_state argv0)
    = (Returns 0, (a, g)) ->
  auto_update g = given "u" cmdline /\
  part_specified g = given "p" cmdline /\
  output_to_file a = given "f" cmdline /\
  verbosity g = negb (strstr argv0 "bg_setenv") || given "v" cmdline /\
  (which_part a = 0 \/ which_part a = 1).
Proof.
  intros Hp. apply argp_parse_ok in Hp.
  destruct (parse_options_flags _ _ _ _ Hp) as (Hu & Hpp & Hf & Hv).
  pose proof (which_part_range _ _ _ _ Hp (or_introl eq_refl)) as Hw.
  cbn [fst snd initial_state auto_update part_specified output_to_file
       verbosity orb] in *.
  repeat split; assumption.
Qed.

(** ** The slot that is written *)

(** bg_setenv on a store that can be used, once the slot is opened, when
    the run is not verbose or every record it shows can be printed: the
    exit code, the slots and the records handed to [bgenv_write]. *)
Lemma main_writes argv0 cmdline a g w a' env evs2 :
  strstr argv0 "bg_setenv" = true ->
  argp_parse (options_of argv0) cmdline (initial_state argv0)
    = (Returns 0, (a, g)) ->
  output_to_file a = false ->
  bgenv_init_ok w = true ->
  List.length (readable_prefix ENV_NUM_CONFIG_PARTS (config_parts w))
    = ENV_NUM_CONFIG_PARTS ->
  (forall w1, config_parts w1 = config_parts w ->
     open_slot a g w1 = (Continue (a', env), appended w1 evs2)) ->
  Forall read_only evs2 ->
  let r := merged (data env) (tmpdata a') in
  (verbosity g = true ->
   forallb printable
     (r :: readable_prefix ENV_NUM_CONFIG_PARTS (config_parts w)) = true) ->
  fst (main argv0 cmdline w) =
    (if bgenv_write_ok w && bgenv_close_ok w then 0 else 1) /\
  config_parts (snd (main argv0 cmdline w)) =
    (if bgenv_write_ok w
     then replace_nth (desc env) (Some r) (config_parts w)
     else config_parts w) /\
  exists evs,
    trace (snd (main argv0 cmdline w)) = trace w ++ evs /\
    stored_records evs = [r].
Proof.
  intros Hm Hp Hf Hinit Hall Hopen Hevs2. cbv zeta. intros Hshow.
  assert (Hr : negb (verbosity g) ||
               printable (merged (data env) (tmpdata a')) = true).
  { destruct (verbosity g); [|reflexivity]. specialize (Hshow eq_refl).
    cbn [forallb] in Hshow. apply andb_true_iff in Hshow. apply Hshow. }
  assert (Hds : verbosity g = true ->
                forallb printable
                  (readable_prefix ENV_NUM_CONFIG_PARTS (config_parts w))
                = true).
  { intros Hv. specialize (Hshow Hv). cbn [forallb] in Hshow.
    apply andb_true_iff in Hshow. apply Hshow. }
  rewrite (main_after_parse _ _ _ _ w Hp), Hm.
  rewrite after_parse_store_run by exact Hf. rewrite Hinit. cbv zeta.
  rewrite (passed_all _ _ Hds), nth_error_length.
  rewrite Hall, Nat.eqb_refl. cbn [when]. unfold bind.
  set (evs1 := call_bgenv_init ::
               dump_events (verbosity g) 0
                 (readable_prefix ENV_NUM_CONFIG_PARTS (config_parts w))).
  rewrite (write_slot_opened _ _ _ _ _ _ (Hopen (appended w evs1) eq_refl)).
  cbv zeta. rewrite Hr.
  cbn [appended bgenv_write_ok bgenv_close_ok config_parts].
  assert (Hevs1 : stored_records evs1 = []).
  { apply stored_records_read_only. constructor; [exact I|].
    apply read_only_dump_events. }
  pose proof (stored_records_read_only _ Hevs2) as Hnone.
  destruct (bgenv_write_ok w); cbn [andb].
  - split; [destruct (bgenv_close_ok w); reflexivity|].
    split; [destruct (bgenv_close_ok w); reflexivity|].
    exists (evs1 ++ evs2 ++
            (if verbosity g
             then [call_dump_env (merged (data env) (tmpdata a'))] else []) ++
            [call_bgenv_write
               (mk_BGENV (desc env) (merged (data env) (tmpdata a')));
             call_bgenv_close
               (mk_BGENV (desc env) (merged (data env) (tmpdata a')))]).
    split.
    + destruct (bgenv_close_ok w); unfold ret;
        cbn [finish snd trace set_config_parts appended];
        rewrite <- ?app_assoc; reflexivity.
    + rewrite !stored_records_app, Hevs1, Hnone.
      destruct (verbosity g); reflexivity.
  - split; [reflexivity|]. split; [reflexivity|].
    exists (evs1 ++ evs2 ++
            (if verbosity g
             then [call_dump_env (merged (data env) (tmpdata a'))] else []) ++
            [call_bgenv_write
               (mk_BGENV (desc env) (merged (data env) (tmpdata a')))]).
    split.
    + cbn [finish snd trace appended]. rewrite <- ?app_assoc. reflexivity.
    + rewrite !stored_records_app, Hevs1, Hnone.
      destruct (verbosity g); reflexivity.
Qed.

(** X11. bg_setenv -p updates the given slot in place.  With -p and
    without -u and -f, on a store that can be used, in a run that is not
    verbose or shows only records that can be printed, the slot of the
    last -p gets the merge of the staged change onto its own record; the record
    is handed to [bgenv_write] once; the slots change only when the write
    succeeds; the exit code is 0 when write and close succeed and 1
    otherwise, so that a failing close reports 1 for a record that is
    stored. *)
Theorem part_updated_in_place argv0 pre x post a g w d :
  let cmdline := pre ++ Opt "p" x :: post in
  strstr argv0 "bg_setenv" = true ->
  argp_parse (options_of argv0) cmdline (initial_state argv0)
    = (Returns 0, (a, g)) ->
  given "p" post = false ->
  given "u" cmdline = false -> given "f" cmdline = false ->
  bgenv_init_ok w = true ->
  List.length (readable_prefix ENV_NUM_CONFIG_PARTS (config_parts w))
    = ENV_NUM_CONFIG_PARTS ->
  let i := to_int (strtol_value (strtol x)) in
  nth_error (config_parts w) (Z.to_nat i) = Some (Some d) ->
  let r := merged d (tmpdata a) in
  (verbosity g = true ->
   forallb printable
     (r :: readable_prefix ENV_NUM_CONFIG_PARTS (config_parts w)) = true) ->
  (i = 0 \/ i = 1) /\
  fst (main argv0 cmdline w) =
    (if bgenv_write_ok w && bgenv_close_ok w then 0 else 1) /\
  config_parts (snd (main argv0 cmdline w)) =
    (if bgenv_write_ok w
     then replace_nth (Z.to_nat i) (Some r) (config_parts w)
     else config_parts w) /\
  exists evs,
    trace (snd (main argv0 cmdline w)) = trace w ++ evs /\
    stored_records evs = [r].
Proof.
  intros cmdline Hm Hp Hpost Hnu Hnf Hinit Hall i Hd r Hshow.
  destruct (parsed_flags _ _ _ _ Hp) as (Hu & Hpp & Hf & _ & Hrange).
  pose proof (which_part_last _ _ _ _ _ _ (argp_parse_ok _ _ _ _ Hp) Hpost)
    as Hwhich.
  cbn [fst] in Hwhich. fold i in Hwhich.
  assert (Hgiven : given "p" cmdline = true).
  { unfold cmdline. rewrite given_app, given_cons. cbn. apply orb_true_r. }
  rewrite Hnu in Hu. rewrite Hgiven in Hpp. rewrite Hnf in Hf.
  rewrite Hwhich in Hrange. split; [exact Hrange|].
  apply (main_writes argv0 cmdline a g w a (mk_BGENV (Z.to_nat i) d)
           [call_bgenv_get_by_index i] Hm Hp Hf Hinit Hall).
  - intros w1 Hw1. rewrite <- Hwhich. apply open_slot_part; auto.
    + rewrite Hwhich. destruct Hrange; lia.
    + rewrite Hw1, Hwhich. exact Hd.
  - repeat constructor.
  - exact Hshow.
Qed.

(** X12. bg_setenv without -p, -u and -f updates the latest slot in place:
    on a store that can be used, in a run that is not verbose or shows
    only records that can be printed, the slot [bgenv_get_latest] gives gets
    the merge of the staged change onto its own record, with the exit code
    and the effect of a failing write or close as with -p. *)
Theorem latest_updated_in_place argv0 cmdline a g w env :
  strstr argv0 "bg_setenv" = true ->
  argp_parse (options_of argv0) cmdline (initial_state argv0)
    = (Returns 0, (a, g)) ->
  given "p" cmdline = false ->
  given "u" cmdline = false -> given "f" cmdline = false ->
  bgenv_init_ok w = true ->
  List.length (readable_prefix ENV_NUM_CONFIG_PARTS (config_parts w))
    = ENV_NUM_CONFIG_PARTS ->
  latest_slot (config_parts w) = Some env ->
  let r := merged (data env) (tmpdata a) in
  (verbosity g = true ->
   forallb printable
     (r :: readable_prefix ENV_NUM_CONFIG_PARTS (config_parts w)) = true) ->
  fst (main argv0 cmdline w) =
    (if bgenv_write_ok w && bgenv_close_ok w then 0 else 1) /\
  config_parts (snd (main argv0 cmdline w)) =
    (if bgenv_write_ok w
     then replace_nth (desc env) (Some r) (config_parts w)
     else config_parts w) /\
  exists evs,
    trace (snd (main argv0 cmdline w)) = trace w ++ evs /\
    stored_records evs = [r].
Proof.
  intros Hm Hp Hnp Hnu Hnf Hinit Hall Hl r Hshow.
  destruct (parsed_flags _ _ _ _ Hp) as (Hu & Hpp & Hf & _ & _).
  rewrite Hnu in Hu. rewrite Hnp in Hpp. rewrite Hnf in Hf.
  apply (main_writes argv0 cmdline a g w a env [call_bgenv_get_latest]
           Hm Hp Hf Hinit Hall).
  - intros w1 Hw1. apply open_slot_latest; auto. rewrite Hw1. exact Hl.
  - repeat constructor.
  - exact Hshow.
Qed.

Lemma revision_merged (d s : BG_ENVDATA) :
  revision (merged d s) =
  if to_uint8 (revision s) =? IGNORE_MARKER_BYTE
  then revision d else revision s.
Proof. rewrite merged_copied. reflexivity. Qed.

(** X13. Auto-update, for any revisions.  With -u and without -f, on a
    store that can be used, in a run that is not verbose or shows only
    records that can be printed, the oldest slot gets the merge of the staged
    change onto the record of the latest slot.  Its revision is the latest
    revision plus one, modulo 2^32, whatever -r said; but when the low
    byte of that number is the marker byte 0xEA the merge takes it for
    unset and the new record keeps the latest revision. *)
Theorem auto_update_any_revision argv0 cmdline a g w cur new :
  strstr argv0 "bg_setenv" = true ->
  argp_parse (options_of argv0) cmdline (initial_state argv0)
    = (Returns 0, (a, g)) ->
  given "u" cmdline = true -> given "f" cmdline = false ->
  bgenv_init_ok w = true ->
  List.length (readable_prefix ENV_NUM_CONFIG_PARTS (config_parts w))
    = ENV_NUM_CONFIG_PARTS ->
  latest_slot (config_parts w) = Some cur ->
  oldest_slot (config_parts w) = Some new ->
  let next := to_uint32 (revision (data cur) + 1) in
  let r := merged (data cur) (set_revision (tmpdata a) next) in
  (verbosity g = true ->
   forallb printable
     (r :: readable_prefix ENV_NUM_CONFIG_PARTS (config_parts w)) = true) ->
  revision r =
    (if to_uint8 (revision (data cur) + 1) =? IGNORE_MARKER_BYTE
     then revision (data cur) else next) /\
  fst (main argv0 cmdline w) =
    (if bgenv_write_ok w && bgenv_close_ok w then 0 else 1) /\
  config_parts (snd (main argv0 cmdline w)) =
    (if bgenv_write_ok w
     then replace_nth (desc new) (Some r) (config_parts w)
     else config_parts w) /\
  exists evs,
    trace (snd (main argv0 cmdline w)) = trace w ++ evs /\
    stored_records evs = [r].
Proof.
  intros Hm Hp Hgu Hnf Hinit Hall Hl Ho next r Hshow.
  destruct (parsed_flags _ _ _ _ Hp) as (Hu & _ & Hf & _ & _).
  rewrite Hgu in Hu. rewrite Hnf in Hf. split.
  - unfold r. rewrite revision_merged. cbn [revision set_revision].
    unfold next. rewrite to_uint8_to_uint32. reflexivity.
  - apply (main_writes argv0 cmdline a g w
             (set_tmpdata a (set_revision (tmpdata a) next))
             (mk_BGENV (desc new) (data cur))
             [call_bgenv_get_latest; call_bgenv_get_oldest;
              call_bgenv_close cur] Hm Hp Hf Hinit Hall).
    + intros w1 Hw1. apply open_slot_auto_update; auto; rewrite Hw1; auto.
    + repeat constructor.
    + exact Hshow.
Qed.


(** ** The latest slot after an auto-update *)

Lemma select_slot_desc better ps : forall k best env,
  select_slot better ps k best = Some env ->
  best = Some env \/ (k <= desc env < k + List.length ps)%nat.
Proof.
  induction ps as [|p rest IH]; intros k best env Hs; cbn in Hs.
  - left. exact Hs.
  - apply IH in Hs. cbn [List.length]. destruct Hs as [Hs|Hs]; [|right; lia].
    destruct p as [d|]; [|left; exact Hs].
    destruct best as [b|].
    + destruct (better (revision d) (revision (data b))); [|left; exact Hs].
      inversion Hs; subst. cbn [desc]. right. lia.
    + inversion Hs; subst. cbn [desc]. right. lia.
Qed.

Lemma latest_slot_max ps : forall k best env,
  select_slot (fun r rbest => rbest <? r) ps k best = Some env ->
  (forall b, best = Some b -> revision (data b) <= revision (data env)) /\
  (forall d, In (Some d) ps -> revision d <= revision (data env)).
Proof.
  induction ps as [|p rest IH]; intros k best env Hs; cbn in Hs.
  - split; [|intros d []]. intros b Hb. rewrite Hb in Hs.
    inversion Hs; subst. lia.
  - apply IH in Hs. destruct Hs as [Hbest Hrest].
    destruct p as [d|].
    + destruct best as [b|].
      * destruct (revision (data b) <? revision d) eqn:Hlt.
        -- apply Z.ltb_lt in Hlt.
           pose proof (Hbest _ eq_refl) as Hd. cbn [data] in Hd. split.
           ++ intros b' Hb'. inversion Hb'; subst. lia.
           ++ intros d' [Hd'|Hd']; [inversion Hd'; subst; exact Hd|].
              apply Hrest, Hd'.
        -- apply Z.ltb_ge in Hlt. pose proof (Hbest _ eq_refl) as Hb. split.
           ++ intros b' Hb'. inversion Hb'; subst. exact Hb.
           ++ intros d' [Hd'|Hd']; [inversion Hd'; subst; lia|].
              apply Hrest, Hd'.
      * pose proof (Hbest _ eq_refl) as Hd. cbn [data] in Hd. split.
        -- intros b' Hb'. discriminate.
        -- intros d' [Hd'|Hd']; [inversion Hd'; subst; exact Hd|].
           apply Hrest, Hd'.
    + split; [exact Hbest|].
      intros d' [Hd'|Hd']; [discriminate | apply Hrest, Hd'].
Qed.

Lemma latest_slot_keeps ps : forall k b,
  (forall d, In (Some d) ps -> revision d <= revision (data b)) ->
  select_slot (fun r rbest => rbest <? r) ps k (Some b) = Some b.
Proof.
  induction ps as [|p rest IH]; intros k b Hle; [reflexivity|].
  cbn [select_slot]. destruct p as [d|].
  - replace (revision (data b) <? revision d) with false.
    + apply IH. intros d' Hd'. apply Hle. right. exact Hd'.
    + symmetry. apply Z.ltb_ge. apply Hle. left. reflexivity.
  - apply IH. intros d' Hd'. apply Hle. right. exact Hd'.
Qed.

(** A record with a revision above all others is the latest, in whatever
    slot it is put. *)
Lemma latest_slot_replaced r ps : forall i k best,
  (i < List.length ps)%nat ->
  (forall d, In (Some d) ps -> revision d < revision r) ->
  (forall b, best = Some b -> revision (data b) < revision r) ->
  select_slot (fun r rbest => rbest <? r) (replace_nth i (Some r) ps) k best
  = Some (mk_BGENV (k + i) r).
Proof.
  induction ps as [|p rest IH]; intros i k best Hi Hlt Hbest;
    cbn [List.length] in Hi; [lia|].
  destruct i as [|i]; cbn [replace_nth select_slot].
  - rewrite Nat.add_0_r.
    assert (Hnew : match best with
                   | Some b =>
                       if revision (data b) <? revision r
                       then Some (mk_BGENV k r) else best
                   | None => Some (mk_BGENV k r)
                   end = Some (mk_BGENV k r)).
    { destruct best as [b|]; [|reflexivity].
      replace (revision (data b) <? revision r) with true; [reflexivity|].
      symmetry. apply Z.ltb_lt. apply Hbest. reflexivity. }
    rewrite Hnew. apply latest_slot_keeps. intros d Hd. cbn [data].
    apply Z.lt_le_incl, Hlt. right. exact Hd.
  - replace (k + S i)%nat with (S k + i)%nat by lia.
    apply IH; [lia| |].
    + intros d Hd. apply Hlt. right. exact Hd.
    + intros b Hb. destruct p as [d|]; [|apply Hbest, Hb].
      assert (Hd : revision d < revision r) by (apply Hlt; left; reflexivity).
      destruct best as [b0|].
      * destruct (revision (data b0) <? revision d).
        -- inversion Hb; subst. exact Hd.
        -- apply Hbest, Hb.
      * inversion Hb; subst. exact Hd.
Qed.

(** X14. Auto-update rotates the slots.  When the latest revision plus one
    does not wrap around and its low byte is not the marker byte, then
    after an auto-update whose write succeeds, in a run that is not verbose
    or shows only records that can be printed, the slot that was written
    carries that revision and is the one [bgenv_get_latest] gives next. *)
Theorem auto_update_rotates argv0 cmdline a g w cur new :
  strstr argv0 "bg_setenv" = true ->
  argp_parse (options_of argv0) cmdline (initial_state argv0)
    = (Returns 0, (a, g)) ->
  given "u" cmdline = true -> given "f" cmdline = false ->
  bgenv_init_ok w = true -> bgenv_write_ok w = true ->
  List.length (readable_prefix ENV_NUM_CONFIG_PARTS (config_parts w))
    = ENV_NUM_CONFIG_PARTS ->
  latest_slot (config_parts w) = Some cur ->
  oldest_slot (config_parts w) = Some new ->
  0 <= revision (data cur) < 2 ^ 32 - 1 ->
  to_uint8 (revision (data cur) + 1) <> IGNORE_MARKER_BYTE ->
  let r :=
    merged (data cur)
      (set_revision (tmpdata a) (to_uint32 (revision (data cur) + 1))) in
  (verbosity g = true ->
   forallb printable
     (r :: readable_prefix ENV_NUM_CONFIG_PARTS (config_parts w)) = true) ->
  revision r = revision (data cur) + 1 /\
  latest_slot (config_parts (snd (main argv0 cmdline w)))
    = Some (mk_BGENV (desc new) r).
Proof.
  intros Hm Hp Hgu Hnf Hinit Hwrite Hall Hl Ho Hrev Hmark r Hshow.
  destruct (parsed_flags _ _ _ _ Hp) as (Hu & _ & Hf & _ & _).
  rewrite Hgu in Hu. rewrite Hnf in Hf.
  assert (Hnext : to_uint32 (revision (data cur) + 1) = revision (data cur) + 1)
    by (unfold to_uint32; apply Z.mod_small; lia).
  assert (Hr : revision r = revision (data cur) + 1).
  { unfold r. rewrite revision_merged. cbn [revision set_revision].
    rewrite to_uint8_to_uint32.
    apply Z.eqb_neq in Hmark. rewrite Hmark. exact Hnext. }
  split; [exact Hr|].
  destruct (main_writes argv0 cmdline a g w
              (set_tmpdata a
                 (set_revision (tmpdata a)
                    (to_uint32 (revision (data cur) + 1))))
              (mk_BGENV (desc new) (data cur))
              [call_bgenv_get_latest; call_bgenv_get_oldest;
               call_bgenv_close cur] Hm Hp Hf Hinit Hall)
    as (_ & Hparts & _).
  - intros w1 Hw1. apply open_slot_auto_update; auto; rewrite Hw1; auto.
  - repeat constructor.
  - exact Hshow.
  - rewrite Hparts, Hwrite. cbn [desc data tmpdata set_tmpdata]. fold r.
    unfold latest_slot.
    change (desc new) with (0 + desc new)%nat at 2.
    apply latest_slot_replaced.
    + destruct (select_slot_desc _ _ _ _ _ Ho) as [Hn|Hn];
        [discriminate | lia].
    + intros d Hd.
      destruct (latest_slot_max _ _ _ _ Hl) as [_ Hmax].
      specialize (Hmax d Hd). lia.
    + intros b Hb. discriminate.
Qed.


(** ** The update state that is stored *)

(** Copying a text into a text field leaves the update state as it is, or
    reaches it with the terminator. *)
Lemma ustate_memcpy_into_text_cases (e : BG_ENVDATA) (off : nat)
    (arg : string) :
  wf_BG_ENVDATA e -> 0 <= ustate e < 256 ->
  (off + 2 * strlen arg <= offsetof_ustate)%nat ->
  ustate (memcpy_into e off (staged_text arg)) = ustate e \/
  ustate (memcpy_into e off (staged_text arg)) = 0.
Proof.
  intros We Hu Hoff. unfold memcpy_into, of_bytes. cbn [ustate].
  unfold read8. rewrite nth_poke
    by (unfold offsetof_ustate, sizeof_BG_ENVDATA; lia).
  destruct ((off <=? offsetof_ustate) &&
            (offsetof_ustate <? off + List.length (staged_text arg)))%nat.
  - right. apply staged_text_tail. lia.
  - left. rewrite nth_bytes_of_ustate by exact We. apply Z.mod_small. lia.
Qed.

Lemma staged_ustate_ok_range u : staged_ustate_ok u -> 0 <= u < 256.
Proof. unfold staged_ustate_ok, IGNORE_MARKER_BYTE. lia. Qed.

Lemma staged_ustate_step c arg a g a' g' :
  has_option options_setenv c = true ->
  parse_opt (KEY c) arg (a, g) = (Returns 0, (a', g')) ->
  wf_BG_ENVDATA (tmpdata a) /\ staged_ustate_ok (ustate (tmpdata a)) ->
  wf_BG_ENVDATA (tmpdata a') /\ staged_ustate_ok (ustate (tmpdata a')).
Proof.
  intros Hc Hp [Wa Hu].
  split; [eapply wf_set_tmpdata_cases; eassumption|].
  pose proof (staged_ustate_ok_range _ Hu) as Hr.
  assert (Hzero : staged_ustate_ok 0) by (right; lia).
  destruct (parse_opt_ok_cases _ _ _ _ _ _ Hc Hp)
    as [C|[C|[C|[C|[C|[C|[C|[C|[C|C]]]]]]]]].
  - destruct C as (_ & Hlen & _ & ->). cbn [tmpdata set_tmpdata].
    destruct (ustate_memcpy_into_text_cases (tmpdata a) offsetof_kernelfile
                arg Wa Hr) as [->| ->]; try assumption.
    unfold offsetof_kernelfile, offsetof_ustate. lia.
  - destruct C as (_ & Hlen & _ & ->). cbn [tmpdata set_tmpdata].
    destruct (ustate_memcpy_into_text_cases (tmpdata a) offsetof_kernelparams
                arg Wa Hr) as [->| ->]; try assumption.
    unfold offsetof_kernelparams, offsetof_ustate. lia.
  - destruct C as (_ & i & e & _ & -> & _). exact Hu.
  - destruct C as (_ & e & -> & _). exact Hu.
  - destruct C as (_ & v & e & Hv & -> & _). right. exact Hv.
  - destruct C as (_ & -> & _). exact Hu.
  - destruct C as (_ & _ & e & -> & _). exact Hu.
  - destruct C as (_ & _ & ->). exact Hzero.
  - destruct C as (_ & _ & -> & _). exact Hu.
  - destruct C as (_ & -> & _). exact Hu.
Qed.

Lemma staged_ustate_parsed argv0 cmdline a g :
  argp_parse (options_of argv0) cmdline (initial_state argv0)
    = (Returns 0, (a, g)) ->
  staged_ustate_ok (ustate (tmpdata a)).
Proof.
  intros Hp. apply argp_parse_ok in Hp.
  assert (Hinv : wf_BG_ENVDATA (tmpdata (fst (a, g))) /\
                 staged_ustate_ok (ustate (tmpdata (fst (a, g)))));
    [|exact (proj2 Hinv)].
  refine (parse_options_invariant
            (fun st => wf_BG_ENVDATA (tmpdata (fst st)) /\
                       staged_ustate_ok (ustate (tmpdata (fst st))))
            _ _ _ _ _ _ Hp _).
  - intros c arg [a0 g0] [a1 g1] Hc Hopt Hst. cbn [fst] in *.
    exact (staged_ustate_step _ _ _ _ _ _ (has_option_options_of _ _ Hc)
             Hopt Hst).
  - intros a0 g0 e _ HP. exact HP.
  - cbn [fst initial_state tmpdata]. split; [apply wf_memset_BG_ENVDATA|].
    left. rewrite all_unset_fields. reflexivity.
Qed.

Lemma ustate_merged (d s : BG_ENVDATA) :
  ustate (merged d s) =
  if to_uint8 (ustate s) =? IGNORE_MARKER_BYTE then ustate d else ustate s.
Proof. rewrite merged_copied. reflexivity. Qed.

Lemma ustate_merged_staged (d s : BG_ENVDATA) :
  staged_ustate_ok (ustate s) ->
  0 <= ustate (merged d s) <= 3 \/ ustate (merged d s) = ustate d.
Proof.
  intros [Hs|Hs]; rewrite ustate_merged.
  - rewrite Hs. right. reflexivity.
  - left. replace (to_uint8 (ustate s) =? IGNORE_MARKER_BYTE) with false;
      [exact Hs|].
    symmetry. apply Z.eqb_neq. unfold to_uint8, IGNORE_MARKER_BYTE.
    rewrite Z.mod_small by lia. lia.
Qed.

(** X15. The update state that reaches the store is a valid one or an old
    one.  After a successful parse the staged update state is still unset
    or one of 0..3, and in every record a run hands to [bgenv_write] or
    writes to the output file the update state is one of 0..3 or the one
    some slot of the store held before. *)
Theorem stored_ustate_valid argv0 cmdline w :
  (forall a g,
      argp_parse (options_of argv0) cmdline (initial_state argv0)
        = (Returns 0, (a, g)) ->
      staged_ustate_ok (ustate (tmpdata a))) /\
  exists evs,
    trace (snd (main argv0 cmdline w)) = trace w ++ evs /\
    Forall (carries (fun r => 0 <= ustate r <= 3 \/
                              exists d, In (Some d) (config_parts w) /\
                                        ustate r = ustate d) false) evs.
Proof.
  split; [apply staged_ustate_parsed|].
  apply traced_main, traced_main_prog. intros a g Hp.
  pose proof (staged_ustate_parsed _ _ _ _ Hp) as Hu. split.
  - destruct (ustate_merged_staged (memset_BG_ENVDATA 0) (tmpdata a) Hu)
      as [Hr|Hr]; [left; exact Hr|].
    left. rewrite Hr, memset_BG_ENVDATA_fields. cbn. lia.
  - intros w1 a' env w2 Hw1 Ho.
    destruct (opened_slot _ _ _ _ _ _ Ho) as [Hin Ha'].
    assert (Hu' : staged_ustate_ok (ustate (tmpdata a')))
      by (destruct Ha' as [->|[v ->]]; exact Hu).
    destruct (ustate_merged_staged (data env) (tmpdata a') Hu') as [Hr|Hr];
      [left; exact Hr|].
    right. exists (data env). rewrite <- Hw1. split; [exact Hin | exact Hr].
Qed.


(** ** A text of the full length *)

Lemma nth_bytes_of_revision (e : BG_ENVDATA) (j : nat) :
  wf_BG_ENVDATA e -> (j < 4)%nat ->
  nth (offsetof_revision + j) (bytes_of e) 0 = nth j (le32 (revision e)) 0.
Proof.
  intros [Hf Hp] Hj. unfold bytes_of, payload_bytes, offsetof_revision.
  assert (Lf := length_flat_map_le16 (kernelfile e)).
  assert (Lp := length_flat_map_le16 (kernelparams e)).
  rewrite app_nth1 by (rewrite !length_app, Lf, Lp; simpl; lia).
  rewrite app_nth2 by lia. rewrite app_nth2 by lia.
  rewrite app_nth2 by (simpl; lia).
  rewrite app_nth1 by (simpl; lia).
  f_equal. simpl List.length. lia.
Qed.

Lemma low_byte_cleared (v : Z) :
  0 <= v < 2 ^ 32 ->
  0 + 256 * nth 1 (le32 v) 0 + 65536 * nth 2 (le32 v) 0 +
  16777216 * nth 3 (le32 v) 0 = 256 * (v / 256).
Proof.
  intros Hv. cbn [le32 nth].
  change 65536 with (256 * 256). change 16777216 with (256 * 256 * 256).
  rewrite <- !Z.div_div by lia.
  set (q := v / 256).
  assert (Hq : 0 <= q < 2 ^ 24).
  { unfold q. split; [apply Z.div_pos; lia|].
    apply Z.div_lt_upper_bound; lia. }
  pose proof (Z.div_mod q 256 ltac:(lia)) as E1.
  pose proof (Z.mod_pos_bound q 256 ltac:(lia)) as B1.
  set (q1 := q / 256) in *.
  assert (Hq1 : 0 <= q1 < 2 ^ 16).
  { unfold q1. split; [apply Z.div_pos; lia|].
    apply Z.div_lt_upper_bound; lia. }
  pose proof (Z.div_mod q1 256 ltac:(lia)) as E2.
  pose proof (Z.mod_pos_bound q1 256 ltac:(lia)) as B2.
  set (q2 := q1 / 256) in *.
  assert (Hq2 : 0 <= q2 < 256).
  { unfold q2. split; [apply Z.div_pos; lia|].
    apply Z.div_lt_upper_bound; lia. }
  rewrite (Z.mod_small q2) by lia. lia.
Qed.

(** X16. The length check lets a text of exactly [ENV_STRING_LENGTH]
    characters pass, and the copy then writes its terminator behind the
    field.  With -k the first unit of the staged kernel arguments becomes
    0, so that the merge replaces the kernel arguments of the target.  With
    -a the staged update state becomes 0 and the low byte of the staged
    revision is cleared, so that the merge sets the update state to OK and
    the revision to the staged one with a zero low byte. *)
Theorem full_length_text_spills arg a g :
  strlen arg = ENV_STRING_LENGTH -> (0 < ENV_STRING_LENGTH)%nat ->
  wf_BG_ENVDATA (tmpdata a) -> 0 <= revision (tmpdata a) < 2 ^ 32 ->
  (exists a',
      parse_opt (KEY "k") arg (a, g) = (Returns 0, (a', g)) /\
      nth 0 (kernelparams (tmpdata a')) 0 = 0 /\
      forall d, kernelparams (merged d (tmpdata a'))
                = kernelparams (tmpdata a')) /\
  (exists a',
      parse_opt (KEY "a") arg (a, g) = (Returns 0, (a', g)) /\
      ustate (tmpdata a') = 0 /\
      revision (tmpdata a') = 256 * (revision (tmpdata a) / 256) /\
      forall d, ustate (merged d (tmpdata a')) = 0 /\
                revision (merged d (tmpdata a'))
                = 256 * (revision (tmpdata a) / 256)).
Proof.
  intros Hlen Hpos Wa Hrev.
  assert (Hfits : (ENV_STRING_LENGTH <? strlen arg)%nat = false)
    by (apply Nat.ltb_ge; lia).
  split.
  - eexists. rewrite parse_opt_k, Hfits. split; [reflexivity|].
    cbn [tmpdata set_tmpdata].
    assert (Hzero : nth 0 (kernelparams
                             (memcpy_into (tmpdata a) offsetof_kernelfile
                                (staged_text arg))) 0 = 0).
    { unfold memcpy_into, of_bytes. cbn [kernelparams].
      rewrite nth_read_units by exact Hpos.
      unfold offsetof_kernelparams, offsetof_kernelfile.
      replace (2 * ENV_STRING_LENGTH + 2 * 0)%nat
        with (0 + 2 * ENV_STRING_LENGTH)%nat by lia.
      rewrite read16_poke_staged_text
        by (unfold sizeof_BG_ENVDATA; lia).
      apply nth_overflow.
      rewrite length_map, length_list_ascii_of_string. unfold strlen in Hlen.
      lia. }
    split; [exact Hzero|].
    intros d. rewrite merged_copied. cbn [kernelparams set_crc32 copied].
    rewrite Hzero. reflexivity.
  - eexists. rewrite parse_opt_a, Hfits. split; [reflexivity|].
    cbn [tmpdata set_tmpdata].
    assert (Hu : ustate (memcpy_into (tmpdata a) offsetof_kernelparams
                           (staged_text arg)) = 0).
    { unfold memcpy_into, of_bytes. cbn [ustate]. unfold read8.
      rewrite nth_poke by (unfold offsetof_ustate, sizeof_BG_ENVDATA; lia).
      rewrite length_staged_text.
      unfold offsetof_kernelparams, offsetof_ustate.
      replace ((2 * ENV_STRING_LENGTH <=? 4 * ENV_STRING_LENGTH) &&
               (4 * ENV_STRING_LENGTH <?
                2 * ENV_STRING_LENGTH + (2 * strlen arg + 2)))%nat
        with true
        by (symmetry; apply andb_true_iff; split;
            [apply Nat.leb_le | apply Nat.ltb_lt]; lia).
      apply staged_text_tail. lia. }
    assert (Hr : revision (memcpy_into (tmpdata a) offsetof_kernelparams
                             (staged_text arg))
                 = 256 * (revision (tmpdata a) / 256)).
    { unfold memcpy_into, of_bytes. cbn [revision]. unfold read32, read8.
      rewrite !nth_poke by (unfold offsetof_revision, sizeof_BG_ENVDATA; lia).
      rewrite length_staged_text.
      unfold offsetof_kernelparams.
      replace ((2 * ENV_STRING_LENGTH <=? offsetof_revision) &&
               (offsetof_revision <?
                2 * ENV_STRING_LENGTH + (2 * strlen arg + 2)))%nat
        with true
        by (symmetry; unfold offsetof_revision; apply andb_true_iff; split;
            [apply Nat.leb_le | apply Nat.ltb_lt]; lia).
      replace ((2 * ENV_STRING_LENGTH <=? offsetof_revision + 1) &&
               (offsetof_revision + 1 <?
                2 * ENV_STRING_LENGTH + (2 * strlen arg + 2)))%nat
        with false
        by (symmetry; unfold offsetof_revision; apply andb_false_iff; right;
            apply Nat.ltb_ge; lia).
      replace ((2 * ENV_STRING_LENGTH <=? offsetof_revision + 2) &&
               (offsetof_revision + 2 <?
                2 * ENV_STRING_LENGTH + (2 * strlen arg + 2)))%nat
        with false
        by (symmetry; unfold offsetof_revision; apply andb_false_iff; right;
            apply Nat.ltb_ge; lia).
      replace ((2 * ENV_STRING_LENGTH <=? offsetof_revision + 3) &&
               (offsetof_revision + 3 <?
                2 * ENV_STRING_LENGTH + (2 * strlen arg + 2)))%nat
        with false
        by (symmetry; unfold offsetof_revision; apply andb_false_iff; right;
            apply Nat.ltb_ge; lia).
      rewrite !nth_bytes_of_revision by (exact Wa || lia).
      rewrite staged_text_tail by (unfold offsetof_revision; lia).
      apply low_byte_cleared, Hrev. }
    split; [exact Hu|]. split; [exact Hr|].
    intros d. rewrite ustate_merged, revision_merged, Hu, Hr.
    split; [reflexivity|].
    replace (to_uint8 (256 * (revision (tmpdata a) / 256))
             =? IGNORE_MARKER_BYTE) with false; [reflexivity|].
    symmetry. apply Z.eqb_neq. unfold to_uint8.
    change (2 ^ 8) with 256. rewrite Z.mul_comm, Z.mod_mul by lia.
    discriminate.
Qed.


(** ** Numbers on the command line *)

(** A string [strtol] converts starts with white space, a sign or a
    digit. *)
Lemma strtol_converted_first arg :
  strtol_converted (strtol arg) = true ->
  exists c rest, arg = String c rest /\ char_code c < 65.
Proof.
  destruct arg as [|c rest]; [discriminate|].
  intros Hc. exists c, rest. split; [reflexivity|].
  destruct c as [[] [] [] [] [] [] [] []];
    try (vm_compute; reflexivity); vm_compute in Hc; discriminate.
Qed.

(** A number is not a status name. *)
Lemma str2ustate_number arg :
  strtol_converted (strtol arg) = true ->
  str2ustate (Some arg) = USTATE_UNKNOWN.
Proof.
  intros Hc. destruct (strtol_converted_first arg Hc) as (c & rest & -> & Hlt).
  assert (Hlow : tolower c = char_code c).
  { unfold tolower. cbv zeta.
    replace (65 <=? char_code c) with false
      by (symmetry; apply Z.leb_gt; exact Hlt).
    reflexivity. }
  assert (Hne : forall l name n,
             65 <= char_code l ->
             (strncasecmp (String c rest) (String l name) (S n) =? 0) = false).
  { intros l name n Hl. cbn [strncasecmp].
    assert (Hl' : 65 <= tolower l).
    { unfold tolower. cbv zeta.
      destruct ((65 <=? char_code l) && (char_code l <=? 90)); lia. }
    replace (tolower c =? tolower l) with false
      by (symmetry; apply Z.eqb_neq; lia).
    apply Z.eqb_neq. lia. }
  unfold str2ustate.
  change (Z.to_nat (USTATE_MAX - USTATE_MIN)) with 4%nat.
  cbn [str2ustate_from].
  change (ustatemap_at USTATE_MIN) with "OK"%string.
  change (ustatemap_at (USTATE_MIN + 1)) with "INSTALLED"%string.
  change (ustatemap_at (USTATE_MIN + 1 + 1)) with "TESTING"%string.
  change (ustatemap_at (USTATE_MIN + 1 + 1 + 1)) with "FAILED"%string.
  cbn [strlen String.length].
  rewrite !Hne by (vm_compute; discriminate). reflexivity.
Qed.

(** [errno] is never cleared: a case of [parse_opt] leaves it as it is or
    sets it to ERANGE. *)
Lemma errno_sticky c arg a g :
  has_option options_setenv c = true ->
  errno g <> 0 ->
  errno (snd (snd (parse_opt (KEY c) arg (a, g)))) <> 0.
Proof.
  intros Hc He.
  assert (Hs : forall r, strtol_errno r (errno g) <> 0).
  { intros r. unfold strtol_errno. destruct (strtol_erange r);
      [discriminate | exact He]. }
  option_cases Hc.
  - rewrite parse_opt_k. split_ifs; exact He.
  - rewrite parse_opt_a. split_ifs; exact He.
  - unfold parse_opt.
    cbn [set_errno errno auto_update part_specified verbosity envfilepath].
    split_ifs; cbn [snd errno]; apply Hs.
  - rewrite parse_opt_r. apply Hs.
  - unfold parse_opt.
    cbn [set_errno errno auto_update part_specified verbosity envfilepath].
    split_ifs; cbn [snd errno set_errno]; apply Hs.
  - rewrite parse_opt_f. exact He.
  - rewrite parse_opt_w. split_ifs; apply Hs.
  - rewrite parse_opt_c. exact He.
  - rewrite parse_opt_u. split_ifs; exact He.
  - rewrite parse_opt_v. exact He.
Qed.

Lemma errno_sticky_options argv0 cmdline st st' :
  parse_options (options_of argv0) cmdline st = (Returns 0, st') ->
  errno (snd st) <> 0 -> errno (snd st') <> 0.
Proof.
  apply (parse_options_invariant (fun st => errno (snd st) <> 0)).
  - intros c arg [a g] st1 Hc Hopt He. cbn [snd] in He.
    pose proof (errno_sticky c arg a g (has_option_options_of _ _ Hc) He)
      as Hs.
    rewrite Hopt in Hs. exact Hs.
  - intros a g e [->| ->] He; cbn [snd errno set_errno] in *;
      [exact He | discriminate].
Qed.

(** With [errno] set, a number that is zero is taken for a failed
    conversion. *)
Lemma zero_with_errno c arg a g :
  c = "p"%char \/ c = "s"%char ->
  errno g <> 0 ->
  strtol_converted (strtol arg) = true ->
  to_int (strtol_value (strtol arg)) = 0 ->
  fst (parse_opt (KEY c) arg (a, g)) = Returns 1.
Proof.
  intros Hc He Hconv Hzero.
  assert (Hs : strtol_errno (strtol arg) (errno g) <> 0).
  { unfold strtol_errno. destruct (strtol_erange (strtol arg));
      [discriminate | exact He]. }
  assert (Hfailed : strtol_failed (strtol arg) 0
                      (strtol_errno (strtol arg) (errno g)) = true).
  { unfold strtol_failed. apply Z.eqb_neq in Hs. rewrite Hs.
    cbn [negb andb]. rewrite Z.eqb_refl. apply orb_true_iff. left.
    apply orb_true_r. }
  destruct Hc as [-> | ->]; unfold parse_opt;
    cbn [set_errno errno auto_update part_specified verbosity envfilepath];
    rewrite Hzero, Hfailed.
  - reflexivity.
  - rewrite (str2ustate_number arg Hconv). reflexivity.
Qed.

(** X17. [errno] is not cleared before [strtol].  Once an option has left
    a range error behind (a revision or a watchdog timeout beyond the
    range of long does, with [atoi] as [strtol]), every later -p or -s
    whose number is zero is rejected: the run is over before any call is
    made, the world untouched, with a non-zero exit code unless the
    command line asks for help. *)
Theorem stale_errno_rejects_zero argv0 pre c big mid c' zero post w :
  c = "r"%char \/ c = "w"%char ->
  strtol_erange (strtol big) = true ->
  c' = "p"%char \/ c' = "s"%char ->
  strtol_converted (strtol zero) = true ->
  to_int (strtol_value (strtol zero)) = 0 ->
  let cmdline := pre ++ Opt c big :: mid ++ Opt c' zero :: post in
  snd (main argv0 cmdline w) = w /\
  (asks_help cmdline = false -> fst (main argv0 cmdline w) <> 0).
Proof.
  intros Hc Hbig Hc' Hconv Hzero cmdline. apply main_rejects.
  intros st' Hp. apply argp_parse_ok in Hp. unfold cmdline in Hp.
  apply parse_options_app_ok in Hp. destruct Hp as ([a1 g1] & _ & Hp).
  apply parse_options_cons_ok in Hp. destruct Hp as ([a2 g2] & Hd & Hp).
  apply deliver_Opt_ok in Hd. destruct Hd as [_ Hopt].
  assert (He2 : errno g2 <> 0).
  { assert (Hs : strtol_errno (strtol big) (errno g1) = ERANGE)
      by (unfold strtol_errno; rewrite Hbig; reflexivity).
    destruct Hc as [-> | ->].
    - rewrite parse_opt_r in Hopt. inversion Hopt; subst.
      cbn [errno set_errno]. rewrite Hs. discriminate.
    - rewrite parse_opt_w in Hopt. destruct (negb (atoi big =? 0));
        [|discriminate].
      inversion Hopt; subst. cbn [errno set_errno]. rewrite Hs. discriminate. }
  apply parse_options_app_ok in Hp. destruct Hp as ([a3 g3] & Hmid & Hp).
  pose proof (errno_sticky_options _ _ _ _ Hmid He2) as He3. cbn [snd] in He3.
  apply parse_options_cons_ok in Hp. destruct Hp as (st4 & Hd & _).
  apply deliver_Opt_ok in Hd. destruct Hd as [_ Hopt'].
  pose proof (zero_with_errno c' zero a3 g3 Hc' He3 Hconv Hzero) as Hrej.
  rewrite Hopt' in Hrej. discriminate.
Qed.

(** X18. Numbers are read modulo 2^32.  The value of [strtol] is stored in
    an int before it is checked, so two numbers within the range of long
    that agree modulo 2^32 are the same argument to -p, -s, -r and -w:
    4294967297 selects slot 1. *)
Theorem numbers_modulo_2_32 c arg1 arg2 st :
  c = "p"%char \/ c = "s"%char \/ c = "r"%char \/ c = "w"%char ->
  strtol_converted (strtol arg1) = true ->
  strtol_converted (strtol arg2) = true ->
  strtol_erange (strtol arg1) = false ->
  strtol_erange (strtol arg2) = false ->
  to_int (strtol_value (strtol arg1)) = to_int (strtol_value (strtol arg2)) ->
  parse_opt (KEY c) arg1 st = parse_opt (KEY c) arg2 st.
Proof.
  intros Hc Hc1 Hc2 He1 He2 Hv. destruct st as [a g].
  assert (Herr : forall e, strtol_errno (strtol arg1) e
                           = strtol_errno (strtol arg2) e)
    by (intros e; unfold strtol_errno; rewrite He1, He2; reflexivity).
  assert (Hf : forall i e, strtol_failed (strtol arg1) i e
                           = strtol_failed (strtol arg2) i e)
    by (intros i e; unfold strtol_failed; rewrite Hc1, Hc2; reflexivity).
  destruct Hc as [-> |[-> |[-> | ->]]].
  - unfold parse_opt.
    cbn [set_errno errno auto_update part_specified verbosity envfilepath].
    rewrite Hv, Herr, Hf. reflexivity.
  - unfold parse_opt.
    cbn [set_errno errno auto_update part_specified verbosity envfilepath].
    rewrite Hv, Herr, Hf, !str2ustate_number by assumption. reflexivity.
  - rewrite !parse_opt_r. unfold atoi. rewrite Hv, Herr. reflexivity.
  - rewrite !parse_opt_w. unfold atoi. rewrite Hv, Herr. reflexivity.
Qed.


(** ** The status option *)

Lemma strtol_not_converted arg :
  strtol_converted (strtol arg) = false -> strtol arg = mk_strtol 0 false false.
Proof.
  unfold strtol. cbv zeta.
  match goal with
  | |- context [let '(_, _) := ?e in _] => destruct e as [neg digits]
  end.
  destruct (read_digits digits 0 false) as [v any].
  destruct any; cbn [negb]; [|reflexivity].
  destruct (LONG_MAX <? (if neg then - v else v)); [discriminate|].
  destruct ((if neg then - v else v) <? LONG_MIN); discriminate.
Qed.

Lemma first_matching_name_range s :
  0 <= first_matching_name s <= 4.
Proof.
  unfold first_matching_name. cbn [find].
  destruct (ci_prefix (ustatemap_at USTATE_OK) s); [vm_compute; split; discriminate|].
  destruct (ci_prefix (ustatemap_at USTATE_INSTALLED) s);
    [vm_compute; split; discriminate|].
  destruct (ci_prefix (ustatemap_at USTATE_TESTING) s);
    [vm_compute; split; discriminate|].
  destruct (ci_prefix (ustatemap_at USTATE_FAILED) s);
    vm_compute; split; discriminate.
Qed.

(** X19. What -s takes.  With [errno] clear, the argument of -s is a
    number, read as an int, or else a status name, matched as a prefix up
    to case; the update state is staged when the result is one of 0..3,
    and otherwise the option is rejected and nothing is staged. *)
Theorem status_option arg a g :
  errno g = 0 -> strtol_erange (strtol arg) = false ->
  let v := if strtol_converted (strtol arg)
           then to_int (strtol_value (strtol arg))
           else first_matching_name arg in
  parse_opt (KEY "s") arg (a, g) =
  if (0 <=? v) && (v <=? 3)
  then (Returns 0, (set_tmpdata a (set_ustate (tmpdata a) v), g))
  else (Returns 1, (a, g)).
Proof.
  intros He Hr. cbv zeta. unfold parse_opt. cbv zeta.
  assert (Herr : strtol_errno (strtol arg) (errno g) = 0)
    by (unfold strtol_errno; rewrite Hr; exact He).
  assert (Hg : set_errno g (strtol_errno (strtol arg) (errno g)) = g)
    by (rewrite Herr; destruct g; cbn in *; subst; reflexivity).
  rewrite Hg, He.
  assert (Hf : forall i, strtol_failed (strtol arg) i 0
                         = negb (strtol_converted (strtol arg)))
    by (intros i; reflexivity).
  rewrite Hf.
  assert (Hbyte : forall v, 0 <= v <= 3 -> to_uint8 v = v)
    by (intros v Hv; unfold to_uint8; apply Z.mod_small; lia).
  destruct (strtol_converted (strtol arg)); cbn [negb].
  - set (i := to_int (strtol_value (strtol arg))).
    destruct (i <? 0) eqn:Hlo; cbn [orb].
    + apply Z.ltb_lt in Hlo.
      replace (0 <=? i) with false by (symmetry; apply Z.leb_gt; lia).
      reflexivity.
    + apply Z.ltb_ge in Hlo.
      replace (0 <=? i) with true by (symmetry; apply Z.leb_le; lia).
      cbn [andb]. destruct (3 <? i) eqn:Hhi.
      * apply Z.ltb_lt in Hhi.
        replace (i <=? 3) with false by (symmetry; apply Z.leb_gt; lia).
        reflexivity.
      * apply Z.ltb_ge in Hhi.
        replace (i <=? 3) with true by (symmetry; apply Z.leb_le; lia).
        rewrite Hbyte by lia. reflexivity.
  - rewrite str2ustate_first_match.
    pose proof (first_matching_name_range arg) as Hrange.
    set (i := first_matching_name arg) in *.
    replace (0 <=? i) with true by (symmetry; apply Z.leb_le; lia).
    cbn [andb]. unfold USTATE_UNKNOWN.
    destruct (i =? 4) eqn:H4.
    + apply Z.eqb_eq in H4.
      replace (i <=? 3) with false by (symmetry; apply Z.leb_gt; lia).
      reflexivity.
    + apply Z.eqb_neq in H4.
      replace (i <? 0) with false by (symmetry; apply Z.ltb_ge; lia).
      replace (3 <? i) with false by (symmetry; apply Z.ltb_ge; lia).
      replace (i <=? 3) with true by (symmetry; apply Z.leb_le; lia).
      cbn [orb]. rewrite Hbyte by lia. reflexivity.
Qed.

(** ** A text that starts with the marker byte *)

Lemma text_field_merged c (d s : BG_ENVDATA) :
  text_field c (merged d s) =
  if to_uint8 (nth 0 (text_field c s) 0) =? IGNORE_MARKER_BYTE
  then text_field c d else text_field c s.
Proof.
  rewrite merged_copied. unfold text_field.
  destruct (Ascii.eqb c "k"); reflexivity.
Qed.

(** X20. A text is taken for unset by its first character.  A kernel path
    or a kernel-arguments text that fits is staged, and the merge applies
    it unless its first character has the code of the marker byte, 0xEA:
    such a text is dropped and the target keeps its own; the empty text is
    applied. *)
Theorem text_starting_with_marker c arg a g d :
  c = "k"%char \/ c = "a"%char ->
  (strlen arg <= ENV_STRING_LENGTH)%nat -> (0 < ENV_STRING_LENGTH)%nat ->
  let first := nth 0 (map char_code (list_ascii_of_string arg)) 0 in
  exists a',
    parse_opt (KEY c) arg (a, g) = (Returns 0, (a', g)) /\
    nth 0 (text_field c (tmpdata a')) 0 = first /\
    text_field c (merged d (tmpdata a')) =
      if first =? IGNORE_MARKER_BYTE
      then text_field c d else text_field c (tmpdata a').
Proof.
  intros Hc Hlen Hpos first.
  assert (Hfits : (ENV_STRING_LENGTH <? strlen arg)%nat = false)
    by (apply Nat.ltb_ge; lia).
  assert (Hcall : parse_opt (KEY c) arg (a, g) =
                  (Returns 0,
                   (set_tmpdata a
                      (memcpy_into (tmpdata a)
                         (if Ascii.eqb c "k" then offsetof_kernelfile
                          else offsetof_kernelparams)
                         (staged_text arg)), g))).
  { destruct Hc as [-> | ->];
      [rewrite parse_opt_k | rewrite parse_opt_a]; rewrite Hfits; reflexivity. }
  eexists. split; [exact Hcall|]. cbn [tmpdata set_tmpdata].
  assert (Hfirst : nth 0 (text_field c
                            (memcpy_into (tmpdata a)
                               (if Ascii.eqb c "k" then offsetof_kernelfile
                                else offsetof_kernelparams)
                               (staged_text arg))) 0 = first)
    by (apply staged_text_field; lia).
  split; [exact Hfirst|].
  rewrite text_field_merged, Hfirst.
  assert (Hbyte : to_uint8 first = first).
  { unfold to_uint8. apply Z.mod_small. unfold first.
    destruct (list_ascii_of_string arg) as [|ch chars]; cbn [map nth];
      [lia|].
    pose proof (char_code_range ch). change (2 ^ 8) with 256. lia. }
  rewrite Hbyte. reflexivity.
Qed.

(** ** The record in the output file *)


End Properties.

(** * The properties at the sample configuration *)

#[local] Existing Instance sample_env_api.

Lemma merge_idempotent_witness :
  let r := sample_record "vmlinuz-5" "root=/dev/sda1" 0 5 30 in
  merged (merged r sample_change) sample_change = merged r sample_change.
Proof.
  apply (merge_idempotent (sample_record "vmlinuz-5" "root=/dev/sda1" 0 5 30)
           sample_change).
  - split; vm_compute; reflexivity.
  - split; vm_compute; reflexivity.
Defined.

Lemma merge_all_unset_witness :
  let r := sample_record "vmlinuz-5" "root=/dev/sda1" 0 5 30 in
  merged r all_unset = finalize r /\ merged r all_unset = r.
Proof.
  intros r.
  destruct (merge_all_unset r) as (E & _ & _ & _ & _ & _ & Hsame).
  - split; vm_compute; reflexivity.
  - split; [exact E | apply Hsame; vm_compute; reflexivity].
Defined.

Lemma text_capacity_check_witness :
  (snd (main "bg_setenv" [Opt "s" "ok"; Opt "a" sample_long_text] sample_world)
     = sample_world /\
   fst (main "bg_setenv" [Opt "s" "ok"; Opt "a" sample_long_text] sample_world)
     <> 0) /\
  (exists a',
      parse_opt (KEY "k") "vmlinuz-6" (initial_state "bg_setenv")
        = (Returns 0, (a', snd (initial_state "bg_setenv"))) /\
      firstn 9 (kernelfile (tmpdata a')) =
        map char_code (list_ascii_of_string "vmlinuz-6") /\
      nth 9 (kernelfile (tmpdata a')) 0 = 0).
Proof.
  split.
  - destruct (text_capacity_check "a" sample_long_text
                (fst (initial_state "bg_setenv"))
                (snd (initial_state "bg_setenv")) (or_intror eq_refl))
      as [Hlong _].
    destruct Hlong as [_ Hmain]; [vm_compute; lia|].
    destruct (Hmain "bg_setenv"%string
                [Opt "s" "ok"; Opt "a" sample_long_text] sample_world)
      as [Hworld Hcode]; [right; left; reflexivity|].
    split; [exact Hworld | apply Hcode; reflexivity].
  - destruct (text_capacity_check "k" "vmlinuz-6"
                (fst (initial_state "bg_setenv"))
                (snd (initial_state "bg_setenv")) (or_introl eq_refl))
      as [_ Hshort].
    destruct Hshort as [a' (Hcall & Hchars & Hterm)]; [vm_compute; lia|].
    exists a'. split; [exact Hcall|]. split; [exact Hchars|].
    apply Hterm. vm_compute; lia.
Defined.

Lemma marker_byte_collision_witness :
  let st := initial_state "bg_setenv" in
  let d := sample_record "vmlinuz-5" "root=/dev/sda1" 0 5 30 in
  (exists a' g',
      parse_opt (KEY "r") "234" st = (Returns 0, (a', g')) /\
      revision (tmpdata a') = 234 /\
      revision (merged d (tmpdata a')) = 5) /\
  (exists a' g',
      parse_opt (KEY "w") "234" st = (Returns 0, (a', g')) /\
      watchdog_timeout_sec (tmpdata a') = 234 /\
      watchdog_timeout_sec (merged d (tmpdata a')) = 30).
Proof.
  intros st d.
  exact (marker_byte_collision "234" (fst st) (snd st) d eq_refl).
Defined.

Lemma integrity_recomputed_witness :
  crc_valid
    (merged (sample_record "vmlinuz-5" "root=/dev/sda1" 0 5 30) sample_change)
  /\
  exists evs,
    trace (snd (main "bg_setenv" sample_auto_update sample_world)) = evs /\
    Forall (carries crc_valid false) evs.
Proof.
  destruct integrity_recomputed as (Hmerge & _ & _ & Hmain). split.
  - apply Hmerge; split; vm_compute; reflexivity.
  - destruct (Hmain "bg_setenv"%string sample_auto_update sample_world)
      as [evs [Ht HP]].
    + unfold wf_world, sample_world; cbn [config_parts].
      repeat constructor; vm_compute; reflexivity.
    + exists evs. split; [exact Ht | exact HP].
Defined.

Lemma auto_update_carry_forward_witness :
  let L := sample_record "vmlinuz-5" "root=/dev/sda1" 0 5 30 in
  exists O',
    config_parts (snd (main "bg_setenv" sample_auto_update sample_world))
      = [Some L; Some O'] /\
    revision O' = 6 /\ ustate O' = USTATE_TESTING /\
    kernelfile O' = kernelfile L /\ kernelparams O' = kernelparams L /\
    watchdog_timeout_sec O' = watchdog_timeout_sec L /\ crc_valid O'.
Proof.
  intros L.
  destruct (auto_update_carry_forward "bg_setenv" sample_auto_update
              (fst (snd sample_auto_update_parse))
              (snd (snd sample_auto_update_parse))
              sample_world L
              (sample_record "vmlinuz-2" "root=/dev/sdb1" 3 2 10))
    as [O' (Hparts & _ & Hrest)].
  - reflexivity.
  - reflexivity.
  - vm_compute. reflexivity.
  - reflexivity.
  - reflexivity.
  - repeat split; vm_compute; reflexivity.
  - reflexivity.
  - split; vm_compute; reflexivity.
  - reflexivity.
  - reflexivity.
  - reflexivity.
  - reflexivity.
  - intros Hv. vm_compute in Hv. discriminate Hv.
  - exists O'. split; [exact Hparts | exact Hrest].
Defined.


Lemma confirm_after_status_wins_witness :
  ustate (tmpdata (fst (snd sample_to_file_parse))) = USTATE_OK /\
  exists evs,
    trace (snd (main "bg_setenv" sample_to_file sample_world)) = evs /\
    Forall (carries (fun d => ustate d = USTATE_OK) false) evs.
Proof.
  destruct (confirm_after_status_wins "bg_setenv"
              [Opt "s" "failed"; Opt "f" "/tmp/out"] "" [])
    as [Hstaged Hrun].
  - intros x [].
  - split.
    + destruct (Hstaged (fst (snd sample_to_file_parse))
                  (snd (snd sample_to_file_parse))) as [Hu _];
        [vm_compute; reflexivity | exact Hu].
    + destruct (Hrun sample_world) as [evs [Ht HP]].
      exists evs. split; [exact Ht | exact HP].
Defined.

(** Counterexample to confirm precedence in either flag order: with confirm
    before the status flag ("-c -s testing") the record handed to the store
    has the update state of the status flag, TESTING, not OK. *)
Lemma confirm_then_status_counterexample :
  exists d,
    stored_records
      (trace (snd (main "bg_setenv" [Opt "c" ""; Opt "s" "testing"]
                     sample_world))) = [d] /\
    ustate d = USTATE_TESTING /\ ustate d <> USTATE_OK.
Proof.
  eexists. split; [vm_compute; reflexivity|].
  split; [reflexivity | discriminate].
Qed.

Lemma part_and_auto_update_conflict_witness :
  (snd (main "bg_setenv" [Opt "p" "0"; Opt "u" ""] sample_world) = sample_world
   /\ fst (main "bg_setenv" [Opt "p" "0"; Opt "u" ""] sample_world) <> 0) /\
  exists evs,
    trace (snd (main "bg_setenv" [Opt "u" ""; Opt "p" "0"] sample_world)) =
    call_bgenv_init :: evs.
Proof.
  destruct part_and_auto_update_conflict as [Hreject Haccept]. split.
  - destruct (Hreject "bg_setenv"%string [] "0"%string [] ""%string []
                sample_world) as [Hworld Hcode].
    split; [exact Hworld | apply Hcode; reflexivity].
  - destruct (Haccept sample_world) as [_ [evs Ht]].
    exists evs. exact Ht.
Defined.

(** The run of "-u -p 1": it is not rejected; it exits with code 0 after it
    has opened both slots and overwritten slot 1 with the record of the
    auto-update. *)
Lemma auto_update_then_part_runs :
  let run := main "bg_setenv" [Opt "u" ""; Opt "p" "1"] sample_world in
  fst run = 0 /\
  List.length (store_calls (trace (snd run))) = 10%nat /\
  map revision (stored_records (trace (snd run))) = [6] /\
  map (option_map revision) (config_parts (snd run)) = [Some 5; Some 6].
Proof. vm_compute. repeat split; reflexivity. Qed.

(** The run of "-r 234 -w 234": it succeeds, and the record it stores has
    the revision and the watchdog timeout the slot had before. *)
Lemma marker_byte_collision_run :
  let run := main "bg_setenv" [Opt "r" "234"; Opt "w" "234"] sample_world in
  fst run = 0 /\
  map revision (stored_records (trace (snd run))) = [5] /\
  map watchdog_timeout_sec (stored_records (trace (snd run))) = [30].
Proof. vm_compute. repeat split; reflexivity. Qed.

Lemma printenv_never_writes_witness :
  exists evs,
    snd (main "bg_printenv" [Opt "k" "vmlinuz-6"; Opt "v" ""] sample_world) =
      appended sample_world evs /\
    Forall read_only evs.
Proof.
  apply (printenv_never_writes "bg_printenv"
           [Opt "k" "vmlinuz-6"; Opt "v" ""] sample_world).
  reflexivity.
Defined.


Lemma printenv_rejects_options_witness :
  snd (main "bg_printenv" [Opt "c" ""] sample_world) = sample_world /\
  fst (main "bg_printenv" [Opt "c" ""] sample_world) = 64.
Proof.
  destruct (printenv_rejects_options "bg_printenv" [Opt "c" ""] sample_world
              eq_refl eq_refl) as [Hworld Hcode].
  split; [exact Hworld | exact (Hcode eq_refl)].
Defined.

Lemma operand_rejected_witness :
  snd (main "bg_setenv" [Opt "c" ""; Positional "now"] sample_world) =
    sample_world /\
  fst (main "bg_setenv" [Opt "c" ""; Positional "now"] sample_world) <> 0.
Proof.
  destruct (operand_rejected "bg_setenv" [Opt "c" ""; Positional "now"] "now"
              sample_world (or_intror (or_introl eq_refl)))
    as [Hworld Hcode].
  split; [exact Hworld | exact (Hcode eq_refl)].
Defined.

Lemma unusable_store_blocks_update_witness :
  fst (main "bg_setenv" sample_part sample_damaged_world) <> 0 /\
  exists evs,
    snd (main "bg_setenv" sample_part sample_damaged_world) =
      appended sample_damaged_world evs /\
    Forall read_only evs.
Proof.
  apply (unusable_store_blocks_update "bg_setenv" sample_part
           sample_damaged_world).
  - intros dir [E|[E|[]]]; discriminate.
  - reflexivity.
  - right. vm_compute. discriminate.
Defined.

Lemma failed_run_changes_no_slot_witness :
  config_parts (snd (main "bg_setenv" sample_part sample_write_fails_world)) =
  config_parts sample_write_fails_world.
Proof.
  apply (failed_run_changes_no_slot "bg_setenv" sample_part
           sample_write_fails_world).
  - reflexivity.
  - vm_compute. discriminate.
Defined.

Lemma success_means_stored_witness :
  exists a g i base evs,
    argp_parse (options_of "bg_setenv") sample_auto_update
      (initial_state "bg_setenv") = (Returns 0, (a, g)) /\
    (if auto_update g then
       exists cur new,
         latest_slot (config_parts sample_world) = Some cur /\
         oldest_slot (config_parts sample_world) = Some new /\
         base = data cur /\ i = desc new
     else if part_specified g then
       i = Z.to_nat (which_part a) /\
       nth_error (config_parts sample_world) i = Some (Some base)
     else latest_slot (config_parts sample_world) = Some (mk_BGENV i base)) /\
    let change :=
      if auto_update g
      then set_revision (tmpdata a) (to_uint32 (revision base + 1))
      else tmpdata a in
    let r := merged base change in
    In (Some base) (config_parts sample_world) /\
    (i < List.length (config_parts sample_world))%nat /\
    snd (main "bg_setenv" sample_auto_update sample_world) =
      set_config_parts (appended sample_world evs)
        (replace_nth i (Some r) (config_parts sample_world)) /\
    nth_error
      (config_parts (snd (main "bg_setenv" sample_auto_update sample_world))) i
      = Some (Some r) /\
    (forall j, j <> i ->
       nth_error
         (config_parts
            (snd (main "bg_setenv" sample_auto_update sample_world))) j =
       nth_error (config_parts sample_world) j) /\
    stored_records evs = [r] /\
    bgenv_init_ok sample_world = true /\ bgenv_write_ok sample_world = true /\
    bgenv_close_ok sample_world = true /\
    List.length (readable_prefix ENV_NUM_CONFIG_PARTS
                   (config_parts sample_world)) = ENV_NUM_CONFIG_PARTS.
Proof.
  apply (success_means_stored "bg_setenv" sample_auto_update sample_world).
  - reflexivity.
  - intros dir [E|[E|[E|[]]]]; discriminate.
  - reflexivity.
  - vm_compute. reflexivity.
Defined.

Lemma flags_follow_command_line_witness :
  let a := fst (snd sample_auto_update_parse) in
  let g := snd (snd sample_auto_update_parse) in
  auto_update g = given "u" sample_auto_update /\
  part_specified g = given "p" sample_auto_update /\
  output_to_file a = given "f" sample_auto_update /\
  verbosity g = negb (strstr "bg_setenv" "bg_setenv")
                || given "v" sample_auto_update /\
  (which_part a = 0 \/ which_part a = 1).
Proof.
  intros a g.
  apply (flags_follow_command_line "bg_setenv" sample_auto_update a g).
  vm_compute. reflexivity.
Defined.

Lemma part_updated_in_place_witness :
  let d := sample_record "vmlinuz-2" "root=/dev/sdb1" 3 2 10 in
  let r := merged d (tmpdata (fst (snd sample_part_parse))) in
  fst (main "bg_setenv" sample_part sample_world) = 0 /\
  config_parts (snd (main "bg_setenv" sample_part sample_world)) =
    [Some (sample_record "vmlinuz-5" "root=/dev/sda1" 0 5 30); Some r] /\
  ustate r = USTATE_TESTING /\ revision r = 2.
Proof.
  intros d r.
  destruct (part_updated_in_place "bg_setenv" [] "1" [Opt "s" "testing"]
              (fst (snd sample_part_parse)) (snd (snd sample_part_parse))
              sample_world d)
    as (_ & Hcode & Hparts & _).
  - reflexivity.
  - vm_compute. reflexivity.
  - reflexivity.
  - reflexivity.
  - reflexivity.
  - reflexivity.
  - vm_compute. reflexivity.
  - reflexivity.
  - intros Hv. vm_compute in Hv. discriminate Hv.
  - split; [exact Hcode|]. split; [exact Hparts|].
    split; vm_compute; reflexivity.
Defined.

Lemma latest_updated_in_place_witness :
  let d := sample_record "vmlinuz-5" "root=/dev/sda1" 0 5 30 in
  let r := merged d (tmpdata (fst (snd sample_verbose_watchdog_parse))) in
  fst (main "bg_setenv" sample_verbose_watchdog sample_world) = 0 /\
  config_parts (snd (main "bg_setenv" sample_verbose_watchdog sample_world)) =
    [Some r; Some (sample_record "vmlinuz-2" "root=/dev/sdb1" 3 2 10)] /\
  watchdog_timeout_sec r = 60 /\ revision r = 5.
Proof.
  intros d r.
  destruct (latest_updated_in_place "bg_setenv" sample_verbose_watchdog
              (fst (snd sample_verbose_watchdog_parse))
              (snd (snd sample_verbose_watchdog_parse))
              sample_world (mk_BGENV 0 d))
    as (Hcode & Hparts & _).
  - reflexivity.
  - vm_compute. reflexivity.
  - reflexivity.
  - reflexivity.
  - reflexivity.
  - reflexivity.
  - vm_compute. reflexivity.
  - vm_compute. reflexivity.
  - intros _. vm_compute. reflexivity.
  - split; [exact Hcode|]. split; [exact Hparts|].
    split; vm_compute; reflexivity.
Defined.

Lemma auto_update_any_revision_witness :
  let L := sample_record "vmlinuz-5" "root=/dev/sda1" 0 233 30 in
  let r :=
    merged L (set_revision (tmpdata (fst (snd sample_auto_update_parse)))
                (to_uint32 (233 + 1))) in
  revision r = 233 /\
  fst (main "bg_setenv" sample_auto_update sample_marker_world) = 0 /\
  config_parts (snd (main "bg_setenv" sample_auto_update sample_marker_world))
    = [Some r; Some L].
Proof.
  intros L r.
  destruct (auto_update_any_revision "bg_setenv" sample_auto_update
              (fst (snd sample_auto_update_parse))
              (snd (snd sample_auto_update_parse))
              sample_marker_world (mk_BGENV 1 L)
              (mk_BGENV 0 (sample_record "vmlinuz-2" "root=/dev/sdb1" 0 2 10)))
    as (Hrev & Hcode & Hparts & _).
  - reflexivity.
  - vm_compute. reflexivity.
  - reflexivity.
  - reflexivity.
  - reflexivity.
  - vm_compute. reflexivity.
  - vm_compute. reflexivity.
  - vm_compute. reflexivity.
  - intros Hv. vm_compute in Hv. discriminate Hv.
  - split; [exact Hrev|]. split; [exact Hcode | exact Hparts].
Defined.

Lemma auto_update_rotates_witness :
  let L := sample_record "vmlinuz-5" "root=/dev/sda1" 0 5 30 in
  let r :=
    merged L (set_revision (tmpdata (fst (snd sample_auto_update_parse)))
                (to_uint32 (5 + 1))) in
  revision r = 6 /\
  latest_slot
    (config_parts (snd (main "bg_setenv" sample_auto_update sample_world)))
  = Some (mk_BGENV 1 r).
Proof.
  intros L r.
  destruct (auto_update_rotates "bg_setenv" sample_auto_update
              (fst (snd sample_auto_update_parse))
              (snd (snd sample_auto_update_parse))
              sample_world (mk_BGENV 0 L)
              (mk_BGENV 1 (sample_record "vmlinuz-2" "root=/dev/sdb1" 3 2 10)))
    as [Hrev Hlatest].
  - reflexivity.
  - vm_compute. reflexivity.
  - reflexivity.
  - reflexivity.
  - reflexivity.
  - reflexivity.
  - vm_compute. reflexivity.
  - vm_compute. reflexivity.
  - vm_compute. reflexivity.
  - vm_compute. split; [discriminate | reflexivity].
  - vm_compute. discriminate.
  - intros Hv. vm_compute in Hv. discriminate Hv.
  - split; [exact Hrev | exact Hlatest].
Defined.

Lemma full_length_text_spills_witness :
  let a := fst (initial_state "bg_setenv") in
  let g := snd (initial_state "bg_setenv") in
  (exists a',
      parse_opt (KEY "k") sample_full_text (a, g) = (Returns 0, (a', g)) /\
      nth 0 (kernelparams (tmpdata a')) 0 = 0 /\
      forall d, kernelparams (merged d (tmpdata a'))
                = kernelparams (tmpdata a')) /\
  (exists a',
      parse_opt (KEY "a") sample_full_text (a, g) = (Returns 0, (a', g)) /\
      ustate (tmpdata a') = 0 /\
      revision (tmpdata a') = 256 * (revision (tmpdata a) / 256) /\
      forall d, ustate (merged d (tmpdata a')) = 0 /\
                revision (merged d (tmpdata a'))
                = 256 * (revision (tmpdata a) / 256)).
Proof.
  intros a g. apply (full_length_text_spills sample_full_text a g).
  - vm_compute. reflexivity.
  - vm_compute. lia.
  - split; vm_compute; reflexivity.
  - vm_compute. split; [discriminate | reflexivity].
Defined.

Lemma stale_errno_rejects_zero_witness :
  let cmdline := [Opt "r" "99999999999999999999"; Opt "p" "0"] in
  snd (main "bg_setenv" cmdline sample_world) = sample_world /\
  fst (main "bg_setenv" cmdline sample_world) <> 0.
Proof.
  intros cmdline.
  destruct (stale_errno_rejects_zero "bg_setenv" [] "r"
              "99999999999999999999" [] "p" "0" [] sample_world)
    as [Hworld Hcode].
  - left. reflexivity.
  - reflexivity.
  - left. reflexivity.
  - reflexivity.
  - reflexivity.
  - split; [exact Hworld | exact (Hcode eq_refl)].
Defined.

Lemma numbers_modulo_2_32_witness :
  parse_opt (KEY "p") "4294967297" (initial_state "bg_setenv") =
  parse_opt (KEY "p") "1" (initial_state "bg_setenv").
Proof.
  apply (numbers_modulo_2_32 "p" "4294967297" "1"
           (initial_state "bg_setenv")).
  - left. reflexivity.
  - reflexivity.
  - reflexivity.
  - reflexivity.
  - reflexivity.
  - reflexivity.
Defined.

Lemma status_option_witness :
  let a := fst (initial_state "bg_setenv") in
  let g := snd (initial_state "bg_setenv") in
  parse_opt (KEY "s") "Testing123" (a, g) =
  (Returns 0, (set_tmpdata a (set_ustate (tmpdata a) USTATE_TESTING), g)).
Proof.
  intros a g. exact (status_option "Testing123" a g eq_refl eq_refl).
Defined.

Lemma text_starting_with_marker_witness :
  let a := fst (initial_state "bg_setenv") in
  let g := snd (initial_state "bg_setenv") in
  let d := sample_record "vmlinuz-5" "root=/dev/sda1" 0 5 30 in
  exists a',
    parse_opt (KEY "k") sample_marked_text (a, g) = (Returns 0, (a', g)) /\
    kernelfile (merged d (tmpdata a')) = kernelfile d.
Proof.
  intros a g d.
  destruct (text_starting_with_marker "k" sample_marked_text a g d
              (or_introl eq_refl))
    as (a' & Hcall & _ & Hmerged).
  - vm_compute. lia.
  - vm_compute. lia.
  - exists a'. split; [exact Hcall | exact Hmerged].
Defined.


(** C3 at "bg_setenv -v -u -s testing", when the latest slot (revision 5)
    holds a kernel path of 255 characters: the loop over the slots shows
    that record first, [dump_env] ends the run there, and the oldest slot
    keeps its record of revision 2. *)
Lemma auto_update_verbose_killed :
  let L := sample_record sample_full_text "root=/dev/sda1" 0 5 30 in
  let run := main "bg_setenv" sample_verbose_auto_update sample_full_world in
  printable L = false /\
  fst run = killed /\
  config_parts (snd run) = config_parts sample_full_world /\
  trace (snd run) =
    [call_bgenv_init; call_bgenv_get_by_index 0; call_dump_env L].
Proof. vm_compute. repeat split. Qed.

